(** * pycox.evaluation.metrics: survival-analysis evaluation metrics

    A shallow embedding of [pycox/evaluation/metrics.py] and the properties
    its specification states about it.

    Numbers.  The program computes with IEEE doubles.  Array entries
    (durations, survival probabilities, evaluation times) are modelled as
    rationals [Q] compared up to [Qeq]; every finite double is a rational and
    the comparisons [<], [==], [!=] of finite doubles are the rational ones.
    Pair counts are sums of 0, 0.5 and 1 and are exact in both worlds.
    Values that numpy can make non-finite (a division by zero, a NaN that
    was passed in) are modelled by the type [fnum] below, which adds one
    absorbing non-finite element to [Q].  Sums, products and quotients of
    [fnum] are exact: the rounding of a double and its overflow to an
    infinity are not part of [fnum].  Where a property of the scores holds
    of the exact numbers only, its statement says so, and the module
    [Float64] runs the arithmetic of a score on doubles. *)

From Stdlib Require Import String.
From Stdlib Require Import QArith ZArith List Bool Sorted Permutation Lia Lqa.
From Stdlib Require PrimFloat.
Import ListNotations.

Local Open Scope Z_scope.
Local Open Scope Q_scope.

(** ** Python values, exceptions and outcomes *)

Module Py.

Inductive exn :=
| AssertionError
| ZeroDivisionError
| ValueError
| IndexError
| KeyError
| TypeError.

(** What a call can hand back to its caller as an ordinary result: a float,
    or an exception *object* (line 284 of the source builds one and returns
    it). *)
Inductive value :=
| Float (q : Q)
| ExcObject (e : exn) (msg : string).

Inductive outcome (A : Type) :=
| Return (a : A)
| Raise (e : exn).

Arguments Return {A} a.
Arguments Raise {A} e.

Definition bind {A B} (m : outcome A) (k : A -> outcome B) : outcome B :=
  match m with
  | Return a => k a
  | Raise e => Raise e
  end.

(** [assert c] *)
Definition assert (c : bool) : outcome unit :=
  if c then Return tt else Raise AssertionError.

(** Python's [a / b] on two Python floats. *)
Definition truediv (a b : Q) : outcome value :=
  if Qeq_bool b 0 then Raise ZeroDivisionError else Return (Float (a / b)).

(** Two outcomes are the same up to the representation of the rational. *)
Definition outcome_eq (x y : outcome value) : Prop :=
  match x, y with
  | Return (Float a), Return (Float b) => a == b
  | Return (ExcObject e m), Return (ExcObject e' m') => e = e' /\ m = m'
  | Raise e, Raise e' => e = e'
  | _, _ => False
  end.

End Py.

Import Py.

Notation "'do' x <- m ; k" := (Py.bind m (fun x => k))
  (at level 10, x name, m at level 100, k at level 200).
Notation "'do_' m ; k" := (Py.bind m (fun _ => k))
  (at level 10, m at level 100, k at level 200).

(** ** Scalars and array indexing *)

Definition Qltb (x y : Q) : bool := negb (Qle_bool y x).
Definition Qgtb (x y : Q) : bool := Qltb y x.
Definition Qneb (x y : Q) : bool := negb (Qeq_bool x y).

(** A Python/numba [bool] used as a number. *)
Definition b2q (b : bool) : Q := if b then 1 else 0.

(** Truthiness of an integer in [if d:]. *)
Definition truthy (d : Z) : bool := negb (d =? 0)%Z.

(** [a[i]] for a one-dimensional array, [i] produced by [range(n)]. *)
Definition getQ (a : list Q) (i : nat) : Q := nth i a 0.
Definition getZ (a : list Z) (i : nat) : Z := nth i a 0%Z.

(** numba wraps a negative index around once. *)
Definition wrap_index (len : nat) (k : Z) : nat :=
  Z.to_nat (if (k <? 0)%Z then k + Z.of_nat len else k)%Z.

(** [s[idx, i]] for a two-dimensional array stored as its list of rows. *)
Definition get2 (s : list (list Q)) (idx : Z) (i : nat) : Q :=
  getQ (nth (wrap_index (length s) idx) s []) i.

(** [surv.shape[1]] of a matrix given by its rows.  A matrix without rows
    is the array of shape (0, 0): the arrays of shape (0, k) with [k > 0]
    have no list of rows that stands for them. *)
Definition shape1 (s : list (list Q)) : nat :=
  match s with
  | [] => 0%nat
  | r :: _ => length r
  end.

(** ** The pairwise predicates (lines 174-203) *)

Definition _is_comparable (t_i t_j : Q) (d_i d_j : Z) : Z :=
  Z.lor (Z.land (Z.b2z (Qltb t_i t_j)) d_i)
        (Z.land (Z.b2z (Qeq_bool t_i t_j)) (Z.lor d_i d_j)).

Definition _is_comparable_antolini (t_i t_j : Q) (d_i d_j : Z) : Z :=
  Z.lor (Z.land (Z.b2z (Qltb t_i t_j)) d_i)
        (Z.land (Z.land (Z.b2z (Qeq_bool t_i t_j)) d_i) (Z.b2z (d_j =? 0)%Z)).

Definition _is_concordant (s_i s_j t_i t_j : Q) (d_i d_j : Z) : Q :=
  let conc :=
    if Qltb t_i t_j then
      b2q (Qltb s_i s_j) + b2q (Qeq_bool s_i s_j) * (1 # 2)
    else if Qeq_bool t_i t_j then
      if truthy (Z.land d_i d_j) then
        1 - b2q (Qneb s_i s_j) * (1 # 2)
      else if truthy d_i then
        b2q (Qltb s_i s_j) + b2q (Qeq_bool s_i s_j) * (1 # 2)
      else if truthy d_j then
        b2q (Qgtb s_i s_j) + b2q (Qeq_bool s_i s_j) * (1 # 2)
      else 0
    else 0 in
  conc * inject_Z (_is_comparable t_i t_j d_i d_j).

Definition _is_concordant_antolini (s_i s_j t_i t_j : Q) (d_i d_j : Z) : Z :=
  Z.land (Z.b2z (Qltb s_i s_j)) (_is_comparable_antolini t_i t_j d_i d_j).

(** ** The two accumulations (lines 205-237)

    [numba.prange] leaves the order of the outer reduction open; the sums
    are exact, so the sequential order is taken. *)

Definition _sum_comparable (t : list Q) (d : list Z)
    (is_comparable_func : Q -> Q -> Z -> Z -> Z) : Q :=
  let n := length t in
  fold_left (fun count i =>
    fold_left (fun count j =>
      if negb (j =? i)%nat then
        count + inject_Z (is_comparable_func (getQ t i) (getQ t j) (getZ d i) (getZ d j))
      else count)
      (seq 0 n) count)
    (seq 0 n) 0.

(** Lines 216-225; [concordance_td] does not call it. *)
Definition _sum_concordant (s : list (list Q)) (t : list Q) (d : list Z) : Q :=
  let n := length t in
  fold_left (fun count i =>
    fold_left (fun count j =>
      if negb (j =? i)%nat then
        count + _is_concordant (get2 s (Z.of_nat i) i) (get2 s (Z.of_nat i) j)
                  (getQ t i) (getQ t j) (getZ d i) (getZ d j)
      else count)
      (seq 0 n) count)
    (seq 0 n) 0.

(** The counter starts as the integer 0 and takes the type of what is
    added; both an integer and a float count are rationals here, so
    [is_concordant_func] is given with a rational result. *)
Definition _sum_concordant_disc (s : list (list Q)) (t : list Q) (d : list Z)
    (s_idx : list Z) (is_concordant_func : Q -> Q -> Q -> Q -> Z -> Z -> Q) : Q :=
  let n := length t in
  fold_left (fun count i =>
    let idx := getZ s_idx i in
    fold_left (fun count j =>
      if negb (j =? i)%nat then
        count + is_concordant_func (get2 s idx i) (get2 s idx j)
                  (getQ t i) (getQ t j) (getZ d i) (getZ d j)
      else count)
      (seq 0 n) count)
    (seq 0 n) 0.

(** ** [concordance_td] (lines 239-284) *)

(** The [events] array with its dtype. *)
Inductive events_array :=
| EventsBool (l : list bool)
| EventsInt (l : list Z)
| EventsFloat (l : list Q).

Definition events_len (e : events_array) : nat :=
  match e with
  | EventsBool l => length l
  | EventsInt l => length l
  | EventsFloat l => length l
  end.

(** [events.astype('int32')]: truncation towards zero, for values in the
    range of a 32-bit integer (outside of it the cast is left to the
    platform and has no model here; event flags are 0 and 1). *)
Definition astype_int32 (l : list Q) : list Z :=
  map (fun q => Z.quot (Qnum q) (Z.pos (Qden q))) l.

(** Lines 272-273, and the integer value numba reads from a bool. *)
Definition events_flags (e : events_array) : list Z :=
  match e with
  | EventsBool l => map Z.b2z l
  | EventsInt l => l
  | EventsFloat l => astype_int32 l
  end.

(** The value semantics of the call.  Lines 266-267 copy a
    Fortran-ordered [surv] into C order, which changes no entry; lines
    268-269 only warn; the type assertion of line 271 holds for arrays.
    The copies as objects are in [Store.concordance_td] below. *)
Definition concordance_td (durations : list Q) (events : events_array)
    (surv : list (list Q)) (surv_idx : list Z) (method : string) : outcome value :=
  do_ assert ((length durations =? shape1 surv)%nat
              && (shape1 surv =? length surv_idx)%nat
              && (length surv_idx =? events_len events)%nat) ;
  let events := events_flags events in
  if String.eqb method "adj_antolini" then
    let is_concordant := _is_concordant in
    let is_comparable := _is_comparable in
    truediv (_sum_concordant_disc surv durations events surv_idx is_concordant)
            (_sum_comparable durations events is_comparable)
  else if String.eqb method "antolini" then
    let is_concordant := fun s_i s_j t_i t_j d_i d_j =>
      inject_Z (_is_concordant_antolini s_i s_j t_i t_j d_i d_j) in
    let is_comparable := _is_comparable_antolini in
    truediv (_sum_concordant_disc surv durations events surv_idx is_concordant)
            (_sum_comparable durations events is_comparable)
  else
    Return (ExcObject ValueError
              ("Need 'method' to be e.g. 'antolini', got '" ++ method ++ "'.")).

(** ** The specification's reading of the concordance index *)

Module Spec.

(** All ordered pairs [(i, j)] of subjects with [i <> j]. *)
Definition ordered_pairs (n : nat) : list (nat * nat) :=
  filter (fun p => negb (fst p =? snd p)%nat) (list_prod (seq 0 n) (seq 0 n)).

Definition Qsum (l : list Q) : Q := fold_right Qplus 0 l.

(** The predicate pair that a method name selects. *)
Definition concordant_of (method : string) : Q -> Q -> Q -> Q -> Z -> Z -> Q :=
  if String.eqb method "adj_antolini" then _is_concordant
  else fun s_i s_j t_i t_j d_i d_j =>
         inject_Z (_is_concordant_antolini s_i s_j t_i t_j d_i d_j).

Definition comparable_of (method : string) : Q -> Q -> Z -> Z -> Z :=
  if String.eqb method "adj_antolini" then _is_comparable
  else _is_comparable_antolini.

(** numerator = sum over i<>j of
    concordant(surv[surv_idx[i], i], surv[surv_idx[i], j], t_i, t_j, d_i, d_j) *)
Definition numerator (method : string) (t : list Q) (d : list Z)
    (surv : list (list Q)) (surv_idx : list Z) : Q :=
  Qsum (map (fun p =>
               let i := fst p in
               let j := snd p in
               concordant_of method
                 (get2 surv (getZ surv_idx i) i) (get2 surv (getZ surv_idx i) j)
                 (getQ t i) (getQ t j) (getZ d i) (getZ d j))
            (ordered_pairs (length t))).

(** denominator = sum over i<>j of comparable(t_i, t_j, d_i, d_j) *)
Definition denominator (method : string) (t : list Q) (d : list Z) : Q :=
  Qsum (map (fun p =>
               let i := fst p in
               let j := snd p in
               inject_Z (comparable_of method
                           (getQ t i) (getQ t j) (getZ d i) (getZ d j)))
            (ordered_pairs (length t))).

(** Section 4.1, adj_antolini comparability, on boolean event flags. *)
Definition comparable_adj (t_i t_j : Q) (d_i d_j : bool) : bool :=
  (Qltb t_i t_j && d_i) || (Qeq_bool t_i t_j && (d_i || d_j)).

(** [1] if [a < b], [0.5] if [a == b], else [0]. *)
Definition graded (a b : Q) : Q :=
  if Qltb a b then 1 else if Qeq_bool a b then 1 # 2 else 0.

(** Section 4.1, adj_antolini concordance: the graded score, gated. *)
Definition concordant_adj (s_i s_j t_i t_j : Q) (d_i d_j : bool) : Q :=
  if comparable_adj t_i t_j d_i d_j then
    if Qltb t_i t_j then graded s_i s_j
    else if Qeq_bool t_i t_j then
      if d_i && d_j then (if Qneb s_i s_j then 1 # 2 else 1)
      else if d_i then graded s_i s_j
      else if d_j then graded s_j s_i
      else 0
    else 0
  else 0.

End Spec.

(** ** Valid inputs of [concordance_td] *)

(** The four arrays have matching shapes (the assertion of line 270). *)
Definition matching_shapes (durations : list Q) (events : events_array)
    (surv : list (list Q)) (surv_idx : list Z) : Prop :=
  length durations = shape1 surv
  /\ shape1 surv = length surv_idx
  /\ length surv_idx = events_len events.

(** Every event indicator is 0 or 1 (after the cast of lines 272-273). *)
Definition flags_ok (d : list Z) : Prop :=
  Forall (fun x => x = 0%Z \/ x = 1%Z) d.

Record valid_input (durations : list Q) (events : events_array)
    (surv : list (list Q)) (surv_idx : list Z) : Prop := {
  vi_events : events_len events = length durations;
  vi_idx_len : length surv_idx = length durations;
  vi_rows : surv <> [];
  vi_cols : Forall (fun r => length r = length durations) surv;
  vi_idx : Forall (fun k => (0 <= k < Z.of_nat (length surv))%Z) surv_idx;
  vi_flags : flags_ok (events_flags events)
}.

Definition known_method (method : string) : Prop :=
  method = "adj_antolini"%string \/ method = "antolini"%string.

(** The survival matrix is constant: every entry is [c]. *)
Definition constant_surv (c : Q) (surv : list (list Q)) : Prop :=
  Forall (Forall (fun x => x == c)) surv.

(** No two subjects share a duration. *)
Definition no_tied_durations (t : list Q) : Prop :=
  forall i j, (i < length t)%nat -> (j < length t)%nat -> i <> j ->
              ~ getQ t i == getQ t j.

(** No two subjects that both had the event share a duration. *)
Definition no_tied_events (t : list Q) (d : list Z) : Prop :=
  forall i j, (i < length t)%nat -> (j < length t)%nat -> i <> j ->
              getQ t i == getQ t j -> getZ d i = 1%Z -> getZ d j = 1%Z -> False.

(** ** Concrete inputs *)

Module Examples.

(** Three subjects, two evaluation rows. *)
Definition durations3 : list Q := [1; 2; 3].
Definition events3 : events_array := EventsInt [1; 0; 1]%Z.
Definition surv3 : list (list Q) :=
  [[8 # 10; 9 # 10; 7 # 10]; [1 # 2; 6 # 10; 4 # 10]].
Definition surv_idx3 : list Z := [0; 1; 1]%Z.

(** Two subjects who both had the event at time 1, constant prediction. *)
Definition tied_durations : list Q := [1; 1].
(** Two subjects with the event at times 1 and 2, constant prediction. *)
Definition untied_durations : list Q := [1; 2].
Definition both_events : events_array := EventsInt [1; 1]%Z.
Definition half_surv : list (list Q) := [[1 # 2; 1 # 2]].
Definition row0 : list Z := [0; 0]%Z.

(** Distinct predictions for the two subjects. *)
Definition ranked_surv : list (list Q) := [[1 # 4; 3 # 4]].

End Examples.

(** No compared pair has tied predictions: whenever subject [i] had the
    event strictly before the time of [j], the two survival values read
    from the row of [i] differ. *)
Definition no_tied_predictions (t : list Q) (d : list Z)
    (surv : list (list Q)) (surv_idx : list Z) : Prop :=
  forall i j, (i < length t)%nat -> (j < length t)%nat -> i <> j ->
              getQ t i < getQ t j -> getZ d i = 1%Z ->
              ~ get2 surv (getZ surv_idx i) i == get2 surv (getZ surv_idx i) j.

(** ** numpy floats that may be non-finite

    [Fin q] is a finite double.  [NonFin] is a NaN when it is an array entry
    that was passed in; as the result of arithmetic it stands for a NaN or an
    infinity.  The program only adds such results, divides them by the
    sample size and tests them with [np.isfinite], and none of these tells a
    NaN from an infinity. *)

Inductive fnum :=
| Fin (q : Q)
| NonFin.

Definition fadd (x y : fnum) : fnum :=
  match x, y with
  | Fin a, Fin b => Fin (a + b)
  | _, _ => NonFin
  end.

Definition fsub (x y : fnum) : fnum :=
  match x, y with
  | Fin a, Fin b => Fin (a - b)
  | _, _ => NonFin
  end.

Definition fmul (x y : fnum) : fnum :=
  match x, y with
  | Fin a, Fin b => Fin (a * b)
  | _, _ => NonFin
  end.

(** numpy's [x / y]: a zero divisor gives [inf] or [nan] and a warning,
    never an exception. *)
Definition fdiv (x y : fnum) : fnum :=
  match x, y with
  | Fin a, Fin b => if Qeq_bool b 0 then NonFin else Fin (a / b)
  | _, _ => NonFin
  end.

(** [x**2] *)
Definition fsq (x : fnum) : fnum := fmul x x.

(** [np.isfinite] *)
Definition isfinite (x : fnum) : bool :=
  match x with
  | Fin _ => true
  | NonFin => false
  end.

(** [np.sum] of a one-dimensional array (0.0 on an empty one). *)
Definition np_sum (a : list fnum) : fnum := fold_left fadd a (Fin 0).

(** [np.clip(x, lo, hi)], which is [minimum(maximum(x, lo), hi)] (so [hi]
    when [lo > hi]); a NaN stays a NaN. *)
Definition clip (lo hi : Q) (x : fnum) : fnum :=
  match x with
  | Fin q =>
      let m := if Qltb q lo then lo else q in
      Fin (if Qltb hi m then hi else m)
  | NonFin => NonFin
  end.

(** Equality of two floats up to the representation of the rational. *)
Definition fnum_eq (x y : fnum) : Prop :=
  match x, y with
  | Fin a, Fin b => a == b
  | NonFin, NonFin => True
  | _, _ => False
  end.

(** [a[mask]]: boolean-mask indexing with a mask of the length of [a]. *)
Fixpoint mask {A} (a : list A) (m : list bool) : list A :=
  match a, m with
  | x :: a', b :: m' => if b then x :: mask a' m' else mask a' m'
  | _, _ => []
  end.

(** Elementwise binary operation on two arrays of one length. *)
Fixpoint map2 {A B C} (f : A -> B -> C) (a : list A) (b : list B) : list C :=
  match a, b with
  | x :: a', y :: b' => f x y :: map2 f a' b'
  | _, _ => []
  end.

(** [a[0]] and [a[-1]] on a one-dimensional array: [IndexError] when the
    array is empty. *)
Definition first_item (a : list Q) : outcome Q :=
  match a with
  | [] => Raise IndexError
  | x :: _ => Return x
  end.

Definition last_item (a : list Q) : outcome Q :=
  match a with
  | [] => Raise IndexError
  | _ :: _ => Return (last a 0)
  end.

(** ** The censoring curve (external collaborator)

    [KaplanMeierFitter().fit(durations, event_observed)] gives an object
    that the program queries in two ways. *)
Record censoring_curve := {
  (** [kmf.survival_function_.loc[s]]: exact lookup of a fitted time;
      a label that is not in the index is a [KeyError]. *)
  survival_function_loc : Q -> outcome fnum;
  (** The value [kmf.predict] finds for the time [t]: the fitted value at
      the last time of the curve that is not after [t], a NaN when the
      curve starts after [t]. *)
  predict : Q -> fnum
}.

(** [KaplanMeierFitter().fit(durations, event_observed)] on the curve that
    [fit] computes: the library refuses arrays without an element, and an
    [event_observed] that cannot take the shape of [durations], with a
    [ValueError]. *)
Definition fit_call (fit : list Q -> list Z -> censoring_curve)
    (durations : list Q) (event_observed : list Z) : outcome censoring_curve :=
  if (length durations =? 0)%nat
     || negb (length event_observed =? length durations)%nat
  then Raise ValueError
  else Return (fit durations event_observed).

(** What [kmf.predict(times)] hands back: the library squeezes its
    result, so the value for a list of exactly one time comes back as a
    bare float, and the values for any other list as a series. *)
Inductive predictions :=
| OneFloat (x : fnum)
| FloatSeries (xs : list fnum).

Definition predict_times (c : censoring_curve) (times : list Q) : predictions :=
  match times with
  | [t] => OneFloat (predict c t)
  | _ => FloatSeries (map (predict c) times)
  end.

(** [iter(x)], as [zip] calls it on each of its arguments: a float is not
    iterable. *)
Definition iter (x : predictions) : outcome (list fnum) :=
  match x with
  | OneFloat _ => Raise TypeError
  | FloatSeries xs => Return xs
  end.

(** The [times] argument: a number or an iterable of numbers. *)
Inductive times_arg :=
| Scalar (t : Q)
| Iterable (ts : list Q).

(** Lines 32-33. *)
Definition as_iterable (times : times_arg) : list Q :=
  match times with
  | Scalar t => [t]
  | Iterable ts => ts
  end.

(** [prob_alive.shape == (len(times), len(durations))] for a matrix given
    by its rows. *)
Definition has_shape {A} (m : list (list A)) (rows cols : nat) : bool :=
  (length m =? rows)%nat && forallb (fun r => (length r =? cols)%nat) m.

(** Every row of the list, or the first exception. *)
Fixpoint sequence {A} (l : list (outcome A)) : outcome (list A) :=
  match l with
  | [] => Return []
  | m :: l' => do x <- m ; do xs <- sequence l' ; Return (x :: xs)
  end.

(** ** Pointwise scores and their integrals (lines 14-172) *)

Section Scores.

(** The external collaborators: the censoring-curve fitter, numpy's
    logarithm on a finite double, and the integral that
    [scipy.integrate.simps(y, x)] computes. *)
Variable KaplanMeierFitter_fit : list Q -> list Z -> censoring_curve.
Variable np_log : Q -> fnum.
Variable simps : list fnum -> list Q -> fnum.

(** [scipy.integrate.simps(y, x)]: arrays without an element are refused
    with a [ValueError]. *)
Definition scipy_integrate_simps (y : list fnum) (x : list Q) : outcome fnum :=
  match y with
  | [] => Raise ValueError
  | _ :: _ => Return (simps y x)
  end.

Definition flog (x : fnum) : fnum :=
  match x with
  | Fin q => np_log q
  | NonFin => NonFin
  end.

(** [1 - events] on a boolean array. *)
Definition one_minus (events : list bool) : list Z :=
  map (fun e => (1 - Z.b2z e)%Z) events.

(** [(durations <= time_) & (events == True)]; the arrays have one length. *)
Definition died_mask (durations : list Q) (events : list bool) (time_ : Q) : list bool :=
  map2 andb (map (fun d => Qle_bool d time_) durations)
            (map (fun e => Bool.eqb e true) events).

(** [durations > time_] *)
Definition survived_mask (durations : list Q) (time_ : Q) : list bool :=
  map (fun d => Qgtb d time_) durations.

(** [len(durations)] as a float. *)
Definition flen {A} (l : list A) : fnum := Fin (inject_Z (Z.of_nat (length l))).

(** The closure [compute_score] of [brier_score] (lines 43-48), with the
    variables it captures as its first arguments. *)
Definition brier_compute_score (durations : list Q) (events : list bool)
    (km_censor_at_durations : list fnum)
    (time_ : Q) (km_censor_at_time : fnum) (prob_alive_ : list fnum) : fnum :=
  let died := died_mask durations events time_ in
  let survived := survived_mask durations time_ in
  let event_part :=
    map2 fdiv (mask (map fsq prob_alive_) died)
              (mask km_censor_at_durations died) in
  let survived_part :=
    map (fun x => fdiv x km_censor_at_time)
        (mask (map (fun p => fsq (fsub (Fin 1) p)) prob_alive_) survived) in
  fdiv (fadd (np_sum event_part) (np_sum survived_part)) (flen durations).

Definition brier_score (times : times_arg) (prob_alive : list (list fnum))
    (durations : list Q) (events : list bool) : outcome (list fnum) :=
  let times := as_iterable times in
  do_ assert (has_shape prob_alive (length times) (length durations)) ;
  do kmf_censor <- fit_call KaplanMeierFitter_fit durations (one_minus events) ;
  do km_censor_at_durations <-
       sequence (map (survival_function_loc kmf_censor) durations) ;
  let km_censor_at_times := predict_times kmf_censor times in
  let compute_score := brier_compute_score durations events km_censor_at_durations in
  do km_censor_at_times <- iter km_censor_at_times ;
  let b_scores :=
    map2 (fun tk pa => compute_score (fst tk) (snd tk) pa)
         (combine times km_censor_at_times) prob_alive in
  Return b_scores.

(** The closure [compute_score] of [binomial_log_likelihood] (lines
    136-141); [prob_alive_] is a row of the clipped matrix. *)
Definition ll_compute_score (durations : list Q) (events : list bool)
    (km_censor_at_durations : list fnum)
    (time_ : Q) (km_censor_at_time : fnum) (prob_alive_ : list fnum) : fnum :=
  let died := died_mask durations events time_ in
  let survived := survived_mask durations time_ in
  let event_part :=
    map2 fdiv (map (fun p => flog (fsub (Fin 1) p)) (mask prob_alive_ died))
              (mask km_censor_at_durations died) in
  let survived_part :=
    map (fun x => fdiv x km_censor_at_time)
        (map flog (mask prob_alive_ survived)) in
  fdiv (fadd (np_sum event_part) (np_sum survived_part)) (flen durations).

Definition binomial_log_likelihood (times : times_arg) (prob_alive : list (list fnum))
    (durations : list Q) (events : list bool) (eps : Q) : outcome (list fnum) :=
  let times := as_iterable times in
  do_ assert (has_shape prob_alive (length times) (length durations)) ;
  do kmf_censor <- fit_call KaplanMeierFitter_fit durations (one_minus events) ;
  do km_censor_at_durations <-
       sequence (map (survival_function_loc kmf_censor) durations) ;
  let km_censor_at_times := predict_times kmf_censor times in
  let prob_alive := map (map (clip eps (1 - eps))) prob_alive in
  let compute_score := ll_compute_score durations events km_censor_at_durations in
  do km_censor_at_times <- iter km_censor_at_times ;
  let scores :=
    map2 (fun tk pa => compute_score (fst tk) (snd tk) pa)
         (combine times km_censor_at_times) prob_alive in
  Return scores.

(** [pd.Series(x).is_monotonic_increasing] (pandas, external): true when
    the values are equal or increasing, that is when no value is smaller
    than the one before it. *)
Fixpoint is_monotonic_increasing (x : list Q) : bool :=
  match x with
  | a :: (b :: _) as rest => Qle_bool a b && is_monotonic_increasing rest
  | _ => true
  end.

Definition integrated_brier_score_numpy (times_grid : list Q)
    (prob_alive : list (list fnum)) (durations : list Q) (events : list bool)
    : outcome fnum :=
  do_ assert (is_monotonic_increasing times_grid) ;
  do b_scores <- brier_score (Iterable times_grid) prob_alive durations events ;
  let is_finite := map isfinite b_scores in
  let b_scores := mask b_scores is_finite in
  let times_grid := mask times_grid is_finite in
  do integral <- scipy_integrate_simps b_scores times_grid ;
  do last <- last_item times_grid ;
  do first <- first_item times_grid ;
  Return (fdiv integral (Fin (last - first))).

Definition integrated_binomial_log_likelihood_numpy (times_grid : list Q)
    (prob_alive : list (list fnum)) (durations : list Q) (events : list bool)
    : outcome fnum :=
  do_ assert (is_monotonic_increasing times_grid) ;
  do scores <- binomial_log_likelihood (Iterable times_grid) prob_alive
                 durations events (1 # 10000000) ;
  let is_finite := map isfinite scores in
  let scores := mask scores is_finite in
  let times_grid := mask times_grid is_finite in
  do integral <- scipy_integrate_simps scores times_grid ;
  do last <- last_item times_grid ;
  do first <- first_item times_grid ;
  Return (fdiv integral (Fin (last - first))).

End Scores.

(** ** The Kaplan-Meier estimator of the censoring curve

    The fitter is [lifelines.KaplanMeierFitter], an external collaborator
    whose code is not part of the sources.  This module is the
    product-limit estimator that sections 3 and 4.3 of the specification
    name: at every observed time [s] the curve is multiplied by
    [1 - d_s / n_s], with [d_s] the observed events of the fit at [s] (the
    censorings, since it is fit on [1 - events]) and [n_s] the subjects
    with a duration of at least [s]. *)

Module KaplanMeier.

(** Insertion into a strictly increasing list of times; a time that is
    already there is not repeated. *)
Fixpoint insert_uniq (x : Q) (l : list Q) : list Q :=
  match l with
  | [] => [x]
  | y :: l' =>
      if Qltb x y then x :: l
      else if Qeq_bool x y then l
      else y :: insert_uniq x l'
  end.

(** [T] is one of the times of [l], up to the representation. *)
Definition seen (l : list Q) (T : Q) : bool := existsb (Qeq_bool T) l.

(** The distinct observed times in increasing order. *)
Definition timeline (durations : list Q) : list Q :=
  fold_right insert_uniq [] durations.

Definition count {A} (p : A -> bool) (l : list A) : Q :=
  inject_Z (Z.of_nat (length (filter p l))).

(** Number of subjects still under observation at [s]. *)
Definition at_risk (durations : list Q) (s : Q) : Q :=
  count (fun d => Qle_bool s d) durations.

(** Number of observed events of the fit at [s]. *)
Definition observed_at (durations : list Q) (event_observed : list Z) (s : Q) : Q :=
  count (fun de => Qeq_bool (fst de) s && truthy (snd de))
        (combine durations event_observed).

Definition factor (durations : list Q) (event_observed : list Z) (s : Q) : Q :=
  1 - observed_at durations event_observed s / at_risk durations s.

Definition product (l : list Q) : Q := fold_right Qmult 1 l.

(** The product-limit estimate at [t]: the product of [1 - d_s / n_s]
    over the observed times [s <= t]. *)
Definition survival (durations : list Q) (event_observed : list Z) (t : Q) : Q :=
  product (map (factor durations event_observed)
               (filter (fun s => Qle_bool s t) (timeline durations))).

(** The fitted curve starts at the smaller of 0 and the smallest
    duration; [t] lies before that start. *)
Definition before_start (durations : list Q) (t : Q) : bool :=
  Qltb t 0 && forallb (fun d => Qltb t d) durations.

(** Modelled from the spec: the censoring-curve fitter
    ([lifelines.KaplanMeierFitter], an external collaborator that is not
    part of the sources).  Section 3 and 4.3 of the specification: a
    Kaplan-Meier survival estimate fit on (duration, 1 - event), queried at
    arbitrary times, with exact lookup at the training durations.  The
    specification does not say what a query before the start of the curve
    gives; the fitted curve has no value there, and the query gives a
    NaN. *)
Definition fit (durations : list Q) (event_observed : list Z) : censoring_curve :=
  {| survival_function_loc := fun s =>
       if seen (timeline durations) s
       then Return (Fin (survival durations event_observed s))
       else Raise KeyError;
     predict := fun t =>
       if before_start durations t then NonFin
       else Fin (survival durations event_observed t) |}.

End KaplanMeier.

(** ** Arrays as objects: the caller's arrays and the objects a call makes

    The functions above are the value semantics.  This module puts the
    arrays in a store, as Python has them, so that what a call does to the
    arrays it was given can be stated.  A call receives references.  An
    object of the store can be read, a new object can be made, and an
    object can be overwritten in place ([write]), which is what an indexed
    assignment, an [out=] argument and a method that changes its object
    do.  The numpy operations of the program are given with the arguments
    that decide between a new array and one that is written into. *)

Module Store.

Inductive object :=
| FloatArray (a : list Q)
| IntArray (a : list Z)
| BoolArray (a : list bool)
| FloatMatrix (fortran : bool) (rows : list (list Q))
| ProbMatrix (rows : list (list fnum))
| ScoreArray (a : list fnum)
(** A [KaplanMeierFitter], before and after its [fit]. *)
| Fitter (curve : option censoring_curve).

Definition ref := nat.
Definition store := list object.

(** A computation that may read the store, allocate in it, write into it
    and raise. *)
Definition M (A : Type) : Type := store -> outcome A * store.

Definition ret {A} (a : A) : M A := fun st => (Return a, st).
Definition throw {A} (e : exn) : M A := fun st => (Raise e, st).

Definition bind {A B} (m : M A) (k : A -> M B) : M B :=
  fun st =>
    match m st with
    | (Return a, st') => k a st'
    | (Raise e, st') => (Raise e, st')
    end.

(** A pure call, its exception propagated. *)
Definition lift {A} (o : outcome A) : M A := fun st => (o, st).

Definition get (r : ref) : M object :=
  fun st =>
    match nth_error st r with
    | Some a => (Return a, st)
    | None => (Raise TypeError, st)
    end.

(** A new object; the reference to it is returned. *)
Definition alloc (a : object) : M ref :=
  fun st => (Return (length st), st ++ [a]).

(** The object behind [r] is replaced by [a]: every holder of the
    reference sees the new contents. *)
Definition write (r : ref) (a : object) : M unit :=
  fun st =>
    match nth_error st r with
    | Some _ => (Return tt, firstn r st ++ a :: skipn (S r) st)
    | None => (Raise TypeError, st)
    end.

Notation "'let*' x := m 'in' k" := (bind m (fun x => k))
  (at level 10, x name, m at level 100, k at level 200).

Definition get_floats (r : ref) : M (list Q) :=
  let* a := get r in
  match a with
  | FloatArray l => ret l
  | _ => throw TypeError
  end.

Definition get_ints (r : ref) : M (list Z) :=
  let* a := get r in
  match a with
  | IntArray l => ret l
  | _ => throw TypeError
  end.

Definition get_bools (r : ref) : M (list bool) :=
  let* a := get r in
  match a with
  | BoolArray l => ret l
  | _ => throw TypeError
  end.

Definition get_events (r : ref) : M events_array :=
  let* a := get r in
  match a with
  | BoolArray l => ret (EventsBool l)
  | IntArray l => ret (EventsInt l)
  | FloatArray l => ret (EventsFloat l)
  | _ => throw TypeError
  end.

Definition get_matrix (r : ref) : M (bool * list (list Q)) :=
  let* a := get r in
  match a with
  | FloatMatrix f rows => ret (f, rows)
  | _ => throw TypeError
  end.

Definition get_probs (r : ref) : M (list (list fnum)) :=
  let* a := get r in
  match a with
  | ProbMatrix rows => ret rows
  | _ => throw TypeError
  end.

(** The curve of a fitter that has been fitted. *)
Definition fitted (kmf : ref) : M censoring_curve :=
  let* a := get kmf in
  match a with
  | Fitter (Some c) => ret c
  | _ => throw TypeError
  end.

(** [np.array(a, order='C')]: [copy] is true unless the caller says
    otherwise, so the result is a new array. *)
Definition np_array_C (a : ref) : M ref :=
  let* m := get_matrix a in
  alloc (FloatMatrix false (snd m)).

(** [a.astype('int32')]: [copy] is true unless the caller says otherwise,
    so the result is a new array. *)
Definition astype (a : ref) : M ref :=
  let* l := get_floats a in
  alloc (IntArray (astype_int32 l)).

(** [np.clip(a, lo, hi, out=None)]: a new array, unless an array is given
    as [out], which is then written into and returned. *)
Definition np_clip (a : ref) (lo hi : Q) (out : option ref) : M ref :=
  let* p := get_probs a in
  let clipped := ProbMatrix (map (map (clip lo hi)) p) in
  match out with
  | None => alloc clipped
  | Some o => let* _ := write o clipped in ret o
  end.

(** [1 - events]: the result of an arithmetic operator is a new array. *)
Definition rsub_one (events : ref) : M ref :=
  let* e := get_bools events in
  alloc (IntArray (one_minus e)).

(** A library whose [fit] reads the two arrays, stores the curve that
    [fit] computes in the fitter object it is called on, and does nothing
    else. *)
Definition fitter_of (fit : list Q -> list Z -> censoring_curve)
    (self durations event_observed : ref) : M unit :=
  let* d := get_floats durations in
  let* e := get_ints event_observed in
  let* c := lift (fit_call fit d e) in
  write self (Fitter (Some c)).

Section Calls.

(** [kmf.fit(durations, event_observed)] of the library, called on the
    fitter object [kmf] with references to the two arrays: a computation
    on the store, which is free to write. *)
Variable KaplanMeierFitter_fit : ref -> ref -> ref -> M unit.
Variable np_log : Q -> fnum.

(** [concordance_td], lines 266-284.  The local names [surv] and [events]
    are rebound to the new arrays of lines 267 and 273; the numba
    functions of lines 174-237 read their arguments and assign to local
    numbers only. *)
Definition concordance_td (durations events surv surv_idx : ref) (method : string)
    : M value :=
  let* s := get_matrix surv in
  let* surv := (if fst s then np_array_C surv else ret surv) in
  let* s := get_matrix surv in
  let* t := get_floats durations in
  let* idx := get_ints surv_idx in
  let* e := get_events events in
  let* _ := lift (assert ((length t =? shape1 (snd s))%nat
                          && (shape1 (snd s) =? length idx)%nat
                          && (length idx =? events_len e)%nat)) in
  let* events :=
    match e with
    | EventsFloat _ => astype events
    | _ => ret events
    end in
  let* e := get_events events in
  lift (concordance_td t e (snd s) idx method).

(** Lines 37-38 and 129-130: a new fitter object, which the library fits
    to [durations] and to the new array [1 - events]; the later lines read
    the fitted curve from it. *)
Definition fit_censoring (durations events : ref) : M censoring_curve :=
  let* kmf_censor := alloc (Fitter None) in
  let* not_events := rsub_one events in
  let* _ := KaplanMeierFitter_fit kmf_censor durations not_events in
  fitted kmf_censor.

(** [brier_score], lines 32-52.  The closure [compute_score] reads
    [durations] and [events] when the scores are computed; line 52 makes
    the array of the scores, whose entries are returned here. *)
Definition brier_score (times : times_arg) (prob_alive durations events : ref)
    : M (list fnum) :=
  let times := as_iterable times in
  let* p := get_probs prob_alive in
  let* t := get_floats durations in
  let* _ := lift (assert (has_shape p (length times) (length t))) in
  let* curve := fit_censoring durations events in
  let* t := get_floats durations in
  let* km_censor_at_durations :=
    lift (sequence (map (survival_function_loc curve) t)) in
  let* km_censor_at_times := lift (iter (predict_times curve times)) in
  let* p := get_probs prob_alive in
  let* t := get_floats durations in
  let* e := get_bools events in
  let b_scores :=
    map2 (fun tk pa =>
            brier_compute_score t e km_censor_at_durations (fst tk) (snd tk) pa)
         (combine times km_censor_at_times) p in
  let* _ := alloc (ScoreArray b_scores) in
  ret b_scores.

(** [binomial_log_likelihood], lines 124-145.  Line 134 rebinds
    [prob_alive] to the array that [np.clip] returns; no [out] is given. *)
Definition binomial_log_likelihood (times : times_arg)
    (prob_alive durations events : ref) (eps : Q) : M (list fnum) :=
  let times := as_iterable times in
  let* p := get_probs prob_alive in
  let* t := get_floats durations in
  let* _ := lift (assert (has_shape p (length times) (length t))) in
  let* curve := fit_censoring durations events in
  let* t := get_floats durations in
  let* km_censor_at_durations :=
    lift (sequence (map (survival_function_loc curve) t)) in
  let km_censor_at_times := predict_times curve times in
  let* prob_alive := np_clip prob_alive eps (1 - eps) None in
  let* km_censor_at_times := lift (iter km_censor_at_times) in
  let* p := get_probs prob_alive in
  let* t := get_floats durations in
  let* e := get_bools events in
  let scores :=
    map2 (fun tk pa =>
            ll_compute_score np_log t e km_censor_at_durations (fst tk) (snd tk) pa)
         (combine times km_censor_at_times) p in
  let* _ := alloc (ScoreArray scores) in
  ret scores.

End Calls.

(** The events array that a store object stands for. *)
Definition as_events (a : object) : option events_array :=
  match a with
  | BoolArray l => Some (EventsBool l)
  | IntArray l => Some (EventsInt l)
  | FloatArray l => Some (EventsFloat l)
  | _ => None
  end.

(** The objects of [st] are still there, unchanged, in [st']. *)
Definition preserved (st st' : store) : Prop :=
  forall (r : ref) (a : object), nth_error st r = Some a -> nth_error st' r = Some a.

(** A computation that leaves the objects with a reference below [n] as
    they are, when it is run in a store that holds them. *)
Definition keeps {A} (n : nat) (m : M A) : Prop :=
  forall st, (n <= length st)%nat -> firstn n (snd (m st)) = firstn n st.

(** What is asked of the library: [fit] changes no object but the fitter it
    is called on and objects of its own making. *)
Definition writes_self_only (fit : ref -> ref -> ref -> M unit) : Prop :=
  forall (n : nat) (self durations event_observed : ref),
    (n <= self)%nat -> keeps n (fit self durations event_observed).

(** The caller's arrays of the example: predictions, durations, events. *)
Definition example_store : store :=
  [ProbMatrix [[Fin (1 # 2); Fin (9 # 10); Fin (9 # 10)];
               [Fin (1 # 10); Fin (8 # 10); Fin (7 # 10)]];
   FloatArray [1; 2; 3];
   BoolArray [true; false; true];
   FloatMatrix true [[8 # 10; 9 # 10; 7 # 10]; [5 # 10; 6 # 10; 4 # 10]];
   IntArray [0; 1; 1]%Z;
   FloatArray [1; 0; 1]].

End Store.

(** ** Concrete inputs of the pointwise and integrated scores *)

Module ScoreExamples.

Definition durations : list Q := [1; 2; 3].
Definition events : list bool := [true; false; true].

(** A grid with two equal adjacent times. *)
Definition repeated_grid : list Q := [1; 1; 2].
(** A strictly increasing grid. *)
Definition grid : list Q := [1; 2; 3].

Definition prob_alive : list (list fnum) :=
  [[Fin (1 # 2); Fin (9 # 10); Fin (9 # 10)];
   [Fin (1 # 10); Fin (8 # 10); Fin (7 # 10)];
   [Fin (1 # 10); Fin (1 # 2); Fin (2 # 10)]].

(** The same predictions with a NaN in the row of the second time, for
    the subject who is still under observation then. *)
Definition prob_alive_nan : list (list fnum) :=
  [[Fin (1 # 2); Fin (9 # 10); Fin (9 # 10)];
   [Fin (1 # 10); Fin (8 # 10); NonFin];
   [Fin (1 # 10); Fin (1 # 2); Fin (2 # 10)]].

(** A stand-in for the integrator: the trapezoidal rule. *)
Fixpoint trapezoid (y : list fnum) (x : list Q) : fnum :=
  match y, x with
  | y0 :: ((y1 :: _) as y'), x0 :: ((x1 :: _) as x') =>
      fadd (fmul (Fin ((x1 - x0) / 2)) (fadd y0 y1)) (trapezoid y' x')
  | _, _ => Fin 0
  end.

(** A stand-in for the logarithm on doubles: [x - 1]. *)
Definition log_stub (q : Q) : fnum := Fin (q - 1).

End ScoreExamples.

(** ** The specification's reading of the scores *)

Module ScoreSpec.

(** A strictly increasing grid. *)
Fixpoint strictly_increasing (x : list Q) : Prop :=
  match x with
  | a :: ((b :: _) as rest) => a < b /\ strictly_increasing rest
  | _ => True
  end.

(** The (time, score) pairs that remain when the pairs with a non-finite
    score are dropped. *)
Definition finite_pairs (times_grid : list Q) (scores : list fnum) : list (Q * fnum) :=
  filter (fun ts => isfinite (snd ts)) (combine times_grid scores).

(** The integral of the remaining pairs over the span of the remaining
    grid. *)
Definition normalised_integral (simps : list fnum -> list Q -> fnum)
    (pairs : list (Q * fnum)) : fnum :=
  let x := map fst pairs in
  let y := map snd pairs in
  fdiv (simps y x) (Fin (last x 0 - hd 0 x)).

(** One subject as the Brier score sees it: duration, event flag,
    predicted probability of being alive at the evaluation time, and the
    censoring-curve value at the subject's own duration. *)
Record subject := {
  duration : Q;
  event : bool;
  prob : fnum;
  km_own : fnum
}.

(** The subjects of four arrays of one length. *)
Fixpoint subjects (durations : list Q) (events : list bool) (p : list fnum)
    (km_censor_at_durations : list fnum) : list subject :=
  match durations, events, p, km_censor_at_durations with
  | d :: ds, e :: es, x :: xs, g :: gs =>
      {| duration := d; event := e; prob := x; km_own := g |}
        :: subjects ds es xs gs
  | _, _, _, _ => []
  end.

(** What one subject adds to the Brier score at time [t], where the
    censoring curve has the value [km_t]:
    - died ([duration <= t] and event): [p^2 / km] at the own duration;
    - survived ([duration > t]): [(1 - p)^2 / km_t];
    - censored at or before [t]: nothing. *)
Definition brier_contribution (t : Q) (km_t : fnum) (s : subject) : fnum :=
  if Qle_bool (duration s) t && event s then fdiv (fsq (prob s)) (km_own s)
  else if Qgtb (duration s) t then fdiv (fsq (fsub (Fin 1) (prob s))) km_t
  else Fin 0.

Definition fsum (l : list fnum) : fnum := fold_right fadd (Fin 0) l.

(** The Brier score at time [t]: the sum of the contributions over [n]. *)
Definition brier_at (t : Q) (km_t : fnum) (subj : list subject) : fnum :=
  fdiv (fsum (map (brier_contribution t km_t) subj)) (flen subj).

End ScoreSpec.

(** The pointwise scores of the example with a NaN, as the program
    computes them. *)
Module ScoreRuns.

Import ScoreExamples.

Definition scores_of (o : outcome (list fnum)) : list fnum :=
  match o with
  | Return s => s
  | Raise _ => []
  end.

Definition b_scores : list fnum :=
  Eval vm_compute in
    scores_of (brier_score KaplanMeier.fit (Iterable grid) prob_alive_nan
                 durations events).

Definition ll_scores : list fnum :=
  Eval vm_compute in
    scores_of (binomial_log_likelihood KaplanMeier.fit log_stub (Iterable grid)
                 prob_alive_nan durations events (1 # 10000000)).

End ScoreRuns.

(** Predictions that are NaN for every subject at every time. *)
Module NanExample.

Definition prob_alive_all_nan : list (list fnum) :=
  [[NonFin; NonFin; NonFin]; [NonFin; NonFin; NonFin]; [NonFin; NonFin; NonFin]].

End NanExample.

(** ** The arithmetic of a Brier score on doubles

    The closure [compute_score] of [brier_score] once more, on IEEE
    doubles with the operations of the machine, to see what rounding does
    to a score. *)

Module Float64.

Import PrimFloat.

(** [np.sum] of a short array of doubles, added from left to right.  (The
    arrays of the example below have one element and three equal ones:
    every order of adding them gives the same double.) *)
Definition np_sum (a : list PrimFloat.float) : PrimFloat.float :=
  fold_left PrimFloat.add a 0%float.

(** [len(a)] as a double. *)
Definition len {A} (a : list A) : PrimFloat.float :=
  fold_left (fun n _ => PrimFloat.add n 1%float) a 0%float.

(** Lines 43-48. *)
Definition compute_score (durations : list PrimFloat.float) (events : list bool)
    (km_censor_at_durations : list PrimFloat.float)
    (time_ km_censor_at_time : PrimFloat.float)
    (prob_alive_ : list PrimFloat.float) : PrimFloat.float :=
  let died :=
    map2 andb (map (fun d => PrimFloat.leb d time_) durations)
              (map (fun e => Bool.eqb e true) events) in
  let survived := map (fun d => PrimFloat.ltb time_ d) durations in
  let event_part :=
    map2 PrimFloat.div
         (mask (map (fun p => PrimFloat.mul p p) prob_alive_) died)
         (mask km_censor_at_durations died) in
  let survived_part :=
    map (fun x => PrimFloat.div x km_censor_at_time)
        (mask (map (fun p => let q := PrimFloat.sub 1%float p in PrimFloat.mul q q)
                   prob_alive_)
              survived) in
  PrimFloat.div (PrimFloat.add (np_sum event_part) (np_sum survived_part))
                (len durations).

(** Six subjects with the durations 1 to 6, the first and the third
    censored, and the predictions 1, 1, 1, 0, 0, 0 at time 3. *)
Definition durations : list PrimFloat.float := [1; 2; 3; 4; 5; 6]%float.
Definition events : list bool := [false; true; false; true; true; true].
Definition prob_alive_ : list PrimFloat.float := [1; 1; 1; 0; 0; 0]%float.

(** The same sample in exact numbers. *)
Definition exact_durations : list Q := [1; 2; 3; 4; 5; 6].
Definition exact_prob_alive : list (list fnum) :=
  [[Fin 1; Fin 1; Fin 1; Fin 0; Fin 0; Fin 0];
   [Fin 1; Fin 1; Fin 1; Fin 0; Fin 0; Fin 0]].

Definition one : PrimFloat.float := 1%float.
Definition three : PrimFloat.float := 3%float.

(** The censoring curve of the sample is 5/6 from time 1 on and 5/8 from
    time 3 on; these are the doubles next to the two numbers. *)
Definition five_sixths : PrimFloat.float := PrimFloat.div 5%float 6%float.
Definition five_eighths : PrimFloat.float := PrimFloat.div 5%float 8%float.
Definition km_censor_at_durations : list PrimFloat.float :=
  [five_sixths; five_sixths; five_eighths; five_eighths; five_eighths;
   five_eighths].

End Float64.

(** ** Inverse-censoring weights along the timeline

    The bookkeeping of the argument that the weights of a Brier score add
    up to at most the sample size.  A subject is a pair of its duration
    and its event flag; [pre] is the list of the times processed so far. *)

Module Weights.

Import KaplanMeier.

Definition total {A} (f : A -> Q) (l : list A) : Q := Spec.Qsum (map f l).

Definition ind (b : bool) : Q := if b then 1 else 0.

Section Along.

Variable d : list Q.
Variable e : list bool.

Definition subj : list (Q * bool) := combine d e.
Definition G (t : Q) : Q := survival d (one_minus e) t.
Definition f (s : Q) : Q := factor d (one_minus e) s.

(** The censoring curve after the times of [pre]. *)
Definition g (pre : list Q) : Q := product (map f pre).

(** Subjects whose time has not come yet. *)
Definition unseen (pre : list Q) : Q :=
  total (fun s => ind (negb (seen pre (fst s)))) subj.

(** The weight of the subjects that had the event at a processed time. *)
Definition dead (pre : list Q) : Q :=
  total (fun s => ind (seen pre (fst s) && snd s) * / G (fst s)) subj.

(** Subjects censored at [s] and subjects with the event at [s]. *)
Definition censored_at (s : Q) : Q :=
  total (fun x => ind (Qeq_bool (fst x) s && negb (snd x))) subj.
Definition dying_at (s : Q) : Q :=
  total (fun x => ind (Qeq_bool (fst x) s && snd x)) subj.

(** The times of the timeline up to [t], and those after [t]. *)
Definition processed (t : Q) : list Q :=
  filter (fun s => Qle_bool s t) (timeline d).
Definition pending (t : Q) : list Q :=
  filter (fun s => negb (Qle_bool s t)) (timeline d).

(** The fitted curve as a float. *)
Definition km (T : Q) : fnum := Fin (survival d (one_minus e) T).

(** The largest weight a subject can have in the Brier score at [t]. *)
Definition bound (t : Q) (x : Q * bool) : Q :=
  if Qle_bool (fst x) t && snd x then / G (fst x)
  else if Qgtb (fst x) t then / G t
  else 0.

End Along.

End Weights.

(** Evaluation times of which the first is negative, with the prediction
    0.5 for three subjects at both times. *)
Module EarlyExample.

Definition times : list Q := [-1; 1].

Definition prob_alive : list (list fnum) :=
  [[Fin (1 # 2); Fin (1 # 2); Fin (1 # 2)];
   [Fin (1 # 2); Fin (1 # 2); Fin (1 # 2)]].

(** The Brier scores of the three subjects of [ScoreExamples], all with an
    event, as the program computes them. *)
Definition scores : list fnum :=
  Eval vm_compute in
    ScoreRuns.scores_of
      (brier_score KaplanMeier.fit (Iterable times) prob_alive
         ScoreExamples.durations [true; true; true]).

End EarlyExample.

(** ** Valid inputs of [brier_score] *)

(** A finite number in [0, 1]. *)
Definition in_unit_interval (x : fnum) : Prop :=
  exists q, x = Fin q /\ 0 <= q <= 1.

(** No evaluation time lies before the start of the censoring curve
    fitted to [durations]. *)
Definition on_curve (durations times : list Q) : Prop :=
  Forall (fun t => KaplanMeier.before_start durations t = false) times.

(** Shapes as line 35 asserts them, one event flag per subject, at least
    one subject, no evaluation time before the start of the fitted
    censoring curve, and probabilities in [0, 1]. *)
Record valid_brier_input (times : times_arg) (prob_alive : list (list fnum))
    (durations : list Q) (events : list bool) : Prop := {
  vb_shape : has_shape prob_alive (length (as_iterable times)) (length durations) = true;
  vb_events : length events = length durations;
  vb_nonempty : durations <> [];
  vb_times : on_curve durations (as_iterable times);
  vb_probs : Forall (Forall in_unit_interval) prob_alive
}.

(** ** Further vocabulary for the concordance index *)

(** A map on times or on predictions that keeps every comparison. *)
Definition order_preserving (f : Q -> Q) : Prop :=
  forall x y, Qltb (f x) (f y) = Qltb x y /\ Qeq_bool (f x) (f y) = Qeq_bool x y.

(** The ranking is perfect: whoever had the event strictly earlier has the
    strictly smaller survival value in the row of that event. *)
Definition perfect_ranking (t : list Q) (d : list Z)
    (surv : list (list Q)) (surv_idx : list Z) : Prop :=
  forall i j, (i < length t)%nat -> (j < length t)%nat -> i <> j ->
              getQ t i < getQ t j -> getZ d i = 1%Z ->
              get2 surv (getZ surv_idx i) i < get2 surv (getZ surv_idx i) j.

(** [range(n)] as an index array. *)
Definition arange (n : nat) : list Z := map Z.of_nat (seq 0 n).

Module MoreExamples.

(** Three subjects, all censored. *)
Definition censored3 : events_array := EventsInt [0; 0; 0]%Z.

(** Three subjects with the events of [Examples.events3] and predictions
    that rank them perfectly. *)
Definition perfect_surv : list (list Q) :=
  [[1 # 10; 5 # 10; 9 # 10]; [1 # 10; 2 # 10; 3 # 10]].

(** A square survival matrix for [_sum_concordant]. *)
Definition square_surv : list (list Q) :=
  [[1 # 10; 5 # 10; 9 # 10]; [1 # 10; 2 # 10; 3 # 10]; [3 # 10; 2 # 10; 1 # 10]].

Definition double (x : Q) : Q := 2 * x.

End MoreExamples.

(** ** The Brier score as a rational number *)

Module BrierValue.

(** Every entry is a finite number. *)
Definition finite_matrix (p : list (list fnum)) : Prop :=
  Forall (Forall (fun x => isfinite x = true)) p.

(** A subject with its prediction at one time. *)
Definition triples (d : list Q) (e : list bool) (row : list Q) : list (Q * bool * Q) :=
  combine (combine d e) row.

(** What a subject adds at time [t] with the Kaplan-Meier censoring curve
    of the sample. *)
Definition contribution (d : list Q) (e : list bool) (t : Q) (x : Q * bool * Q) : Q :=
  let T := fst (fst x) in
  let ev := snd (fst x) in
  let p := snd x in
  if Qle_bool T t && ev then p * p / Weights.G d e T
  else if Qgtb T t then (1 - p) * (1 - p) / Weights.G d e t
  else 0.

Definition value (d : list Q) (e : list bool) (t : Q) (row : list Q) : Q :=
  Spec.Qsum (map (contribution d e t) (triples d e row))
  / inject_Z (Z.of_nat (length d)).

(** The squared error of the prediction for a subject seen without
    censoring: the subject is dead at [t] when its duration is at most
    [t]. *)
Definition squared_error (t : Q) (x : Q * Q) : Q :=
  if Qle_bool (fst x) t then snd x * snd x else (1 - snd x) * (1 - snd x).

Definition mean_squared_error (d : list Q) (t : Q) (row : list Q) : Q :=
  Spec.Qsum (map (squared_error t) (combine d row))
  / inject_Z (Z.of_nat (length d)).

(** The predictions of a row are perfect at [t]: 0 for a subject that had
    the event by [t], 1 for a subject with a later duration. *)
Definition perfect_row (d : list Q) (e : list bool) (t : Q) (row : list Q) : Prop :=
  forall x, In x (triples d e row) ->
    (Qle_bool (fst (fst x)) t && snd (fst x) = true -> snd x == 0)
    /\ (Qgtb (fst (fst x)) t = true -> snd x == 1).

End BrierValue.

Module BrierExamples.

(** Everyone had the event. *)
Definition all_events : list bool := [true; true; true].

Definition probs : list (list Q) :=
  [[1 # 2; 9 # 10; 9 # 10]; [1 # 10; 8 # 10; 7 # 10]; [1 # 10; 1 # 2; 2 # 10]].

(** Perfect predictions for [ScoreExamples.durations] and
    [ScoreExamples.events] on [ScoreExamples.grid]; the second subject is
    censored at time 2. *)
Definition perfect_probs : list (list Q) :=
  [[0; 1; 1]; [0; 1 # 2; 1]; [0; 1 # 2; 0]].

End BrierExamples.

(** ** The binomial log-likelihood, subject by subject *)

Module LogLikelihood.

(** What one subject adds to the binomial log-likelihood at time [t];
    [prob s] is the clipped prediction. *)
Definition contribution (np_log : Q -> fnum) (t : Q) (km_t : fnum)
    (s : ScoreSpec.subject) : fnum :=
  if Qle_bool (ScoreSpec.duration s) t && ScoreSpec.event s
  then fdiv (flog np_log (fsub (Fin 1) (ScoreSpec.prob s))) (ScoreSpec.km_own s)
  else if Qgtb (ScoreSpec.duration s) t
  then fdiv (flog np_log (ScoreSpec.prob s)) km_t
  else Fin 0.

Definition score_at (np_log : Q -> fnum) (t : Q) (km_t : fnum)
    (subj : list ScoreSpec.subject) : fnum :=
  fdiv (ScoreSpec.fsum (map (contribution np_log t km_t) subj)) (flen subj).

(** On the clipping range the logarithm is finite, at least [L] and at
    most 0. *)
Definition log_between (np_log : Q -> fnum) (eps L : Q) : Prop :=
  forall q, eps <= q <= 1 - eps -> exists l, np_log q = Fin l /\ L <= l <= 0.

(** A finite number between [L] and 0. *)
Definition between (L : Q) (x : fnum) : Prop :=
  exists q, x = Fin q /\ L <= q <= 0.

End LogLikelihood.

(** ** [integrated_brier_score] (lines 81-104) *)

Definition qmin (x y : Q) : Q := if Qle_bool x y then x else y.
Definition qmax (x y : Q) : Q := if Qle_bool x y then y else x.

(** [a.min()] and [a.max()]: a [ValueError] on an empty array. *)
Definition array_min (a : list Q) : outcome Q :=
  match a with
  | [] => Raise ValueError
  | x :: r => Return (fold_left qmin r x)
  end.

Definition array_max (a : list Q) : outcome Q :=
  match a with
  | [] => Raise ValueError
  | x :: r => Return (fold_left qmax r x)
  end.

(** [np.linspace(start, stop, num)]: [num] equidistant points, the last
    one set to [stop]. *)
Definition linspace (start stop : Q) (num : nat) : list Q :=
  match num with
  | 0%nat => []
  | 1%nat => [start]
  | _ =>
      let step := (stop - start) / inject_Z (Z.of_nat (num - 1)) in
      map (fun i => if (i =? num - 1)%nat then stop
                    else start + inject_Z (Z.of_nat i) * step)
          (seq 0 num)
  end.

(** [times_grid=None] is [None]; [prob_alive_func] is the caller's
    function from a grid to the matrix of predictions. *)
Definition integrated_brier_score
    (KaplanMeierFitter_fit : list Q -> list Z -> censoring_curve)
    (simps : list fnum -> list Q -> fnum)
    (prob_alive_func : list Q -> list (list fnum))
    (durations : list Q) (events : list bool)
    (times_grid : option (list Q)) (n_grid_points : nat) : outcome fnum :=
  do times_grid <-
      match times_grid with
      | None =>
          do lo <- array_min durations ;
          do hi <- array_max durations ;
          Return (linspace lo hi n_grid_points)
      | Some g => Return g
      end ;
  let prob_alive := prob_alive_func times_grid in
  integrated_brier_score_numpy KaplanMeierFitter_fit simps times_grid prob_alive
    durations events.

(** ** [partial_log_likelihood_ph] (lines 288-316) *)

Module PartialLikelihood.

(** A row of the data frame of line 303, with its index label. *)
Record row := {
  index : nat;
  duration : Q;
  event : Z;
  lph : Q
}.

(** [pd.DataFrame(dict(duration=..., event=..., lph=...))]: the three
    arrays must have one length; the index is [0 .. n-1]. *)
Fixpoint rows_from (i : nat) (durations : list Q) (events : list Z)
    (lphs : list Q) : list row :=
  match durations, events, lphs with
  | d :: ds, e :: es, l :: ls =>
      {| index := i; duration := d; event := e; lph := l |}
        :: rows_from (S i) ds es ls
  | _, _, _ => []
  end.

Definition data_frame (durations : list Q) (events : list Z) (lphs : list Q)
    : outcome (list row) :=
  if (length durations =? length events)%nat
     && (length events =? length lphs)%nat
  then Return (rows_from 0 durations events lphs)
  else Raise ValueError.

(** [Series.cumsum()] *)
Fixpoint cumsum (acc : Q) (a : list Q) : list Q :=
  match a with
  | [] => []
  | x :: a' => (acc + x) :: cumsum (acc + x) a'
  end.

(** The largest of a list of numbers (0 for none). *)
Definition list_max (a : list Q) : Q :=
  match a with
  | [] => 0
  | x :: r => fold_left qmax r x
  end.

(** [values.groupby(keys).transform('max')]: every position gets the
    largest value among the positions with the same key. *)
Definition group_max (keys vals : list Q) : list Q :=
  map (fun k =>
         list_max (map snd (filter (fun kv => Qeq_bool (fst kv) k)
                                   (combine keys vals))))
      keys.

(** What the call returns: the series of [pll] values with their index
    labels, or its mean. *)
Inductive result :=
| Series (s : list (nat * fnum))
| Mean (m : fnum).

Section Call.

(** [np.exp] on a finite double (finite and never negative), [np.log] on
    a double, and the sort of [sort_values('duration', ascending=False)],
    which is free in the order it gives to equal durations.  The arguments
    of [np.log] are sums of exponentials, so a logarithm that is not finite
    is an infinity and never a NaN: [mean()] has nothing to skip and is the
    sum over the length. *)
Variable np_exp : Q -> Q.
Variable np_log : Q -> fnum.
Variable sort_values_desc : list row -> list row.

Definition partial_log_likelihood_ph (log_partial_hazards durations : list Q)
    (events : list Z) (mean : bool) : outcome result :=
  do df <- data_frame durations events log_partial_hazards ;
  let sorted := sort_values_desc df in
  let cum_ph :=
    group_max (map duration sorted)
              (cumsum 0 (map (fun r => np_exp (lph r)) sorted)) in
  let with_cum := combine sorted cum_ph in
  let observed := filter (fun rc => (event (fst rc) =? 1)%Z) with_cum in
  let pll :=
    map (fun rc => (index (fst rc),
                    fsub (Fin (lph (fst rc))) (np_log (snd rc))))
        observed in
  if mean
  then Return (Mean (fdiv (np_sum (map snd pll)) (flen pll)))
  else Return (Series pll).

End Call.

(** The sum of [exp(lph)] over the risk set of a duration: all rows with
    a duration at least as large. *)
Definition risk_sum (np_exp : Q -> Q) (rows : list row) (d : Q) : Q :=
  Spec.Qsum (map (fun r => np_exp (lph r))
                 (filter (fun r => Qle_bool d (duration r)) rows)).

(** A sort by descending duration: a rearrangement of the rows in which
    no duration is larger than one before it. *)
Definition sorts_descending (sort : list row -> list row) : Prop :=
  forall l, Permutation.Permutation (sort l) l
            /\ StronglySorted (fun a b => duration b <= duration a) (sort l).

(** Insertion sort by descending duration, as one such sort. *)
Fixpoint insert_desc (r : row) (l : list row) : list row :=
  match l with
  | [] => [r]
  | x :: l' => if Qle_bool (duration x) (duration r) then r :: l
               else x :: insert_desc r l'
  end.

Definition insertion_sort_desc (l : list row) : list row :=
  fold_right insert_desc [] l.

(** The order [sort_values('duration', ascending=False)] leaves the rows
    in. *)
Definition desc (a b : row) : Prop := duration b <= duration a.

(** The rows paired with the running sums of their weights, as
    [cumsum] lays them out. *)
Definition running (np_exp : Q -> Q) (acc : Q) (l : list row) : list (row * Q) :=
  combine l (cumsum acc (map (fun r => np_exp (lph r)) l)).

End PartialLikelihood.

(** * Properties *)

(** ** Comparisons *)

Lemma Qltb_true_iff (x y : Q) : Qltb x y = true <-> x < y.
Proof.
  unfold Qltb. rewrite negb_true_iff. split; intro H.
  - apply Qnot_le_lt. intro L. apply Qle_bool_iff in L. congruence.
  - destruct (Qle_bool y x) eqn:E; auto.
    apply Qle_bool_iff in E. exfalso. eapply Qlt_not_le; eauto.
Qed.

Lemma Qltb_false_iff (x y : Q) : Qltb x y = false <-> y <= x.
Proof.
  unfold Qltb. rewrite negb_false_iff. apply Qle_bool_iff.
Qed.

Lemma Qeq_bool_false_iff (x y : Q) : Qeq_bool x y = false <-> ~ x == y.
Proof.
  split; intro H.
  - now apply Qeq_bool_neq.
  - destruct (Qeq_bool x y) eqn:E; auto.
    apply Qeq_bool_iff in E. contradiction.
Qed.

(** Turn every boolean comparison of the context into its proposition. *)
Ltac q_props :=
  repeat match goal with
  | H : Qltb _ _ = true |- _ => apply Qltb_true_iff in H
  | H : Qltb _ _ = false |- _ => apply Qltb_false_iff in H
  | H : Qeq_bool _ _ = true |- _ => apply Qeq_bool_iff in H
  | H : Qeq_bool _ _ = false |- _ => apply Qeq_bool_false_iff in H
  end.

(** Case analysis on the comparisons of [a] and [b]. *)
Ltac q_cases a b :=
  let L := fresh "L" in let E := fresh "E" in
  destruct (Qltb a b) eqn:L; destruct (Qeq_bool a b) eqn:E.

(** ** C2: the adj_antolini pair contribution *)

(** C2. For every ordered pair, with event flags [d_i], [d_j]: the code's
    [_is_comparable] is the indicator of
    [(t_i < t_j and d_i) or (t_i == t_j and (d_i or d_j))], and the code's
    [_is_concordant] is the graded score of section 4.1 gated by it. *)
Theorem adj_antolini_pair_contribution (s_i s_j t_i t_j : Q) (d_i d_j : bool) :
  _is_comparable t_i t_j (Z.b2z d_i) (Z.b2z d_j)
    = Z.b2z (Spec.comparable_adj t_i t_j d_i d_j)
  /\ (Spec.comparable_adj t_i t_j d_i d_j = true <->
        (t_i < t_j /\ d_i = true) \/ (t_i == t_j /\ (d_i = true \/ d_j = true)))
  /\ _is_concordant s_i s_j t_i t_j (Z.b2z d_i) (Z.b2z d_j)
       == Spec.concordant_adj s_i s_j t_i t_j d_i d_j.
Proof.
  split; [| split].
  - unfold _is_comparable, Spec.comparable_adj.
    destruct (Qltb t_i t_j), (Qeq_bool t_i t_j), d_i, d_j; reflexivity.
  - unfold Spec.comparable_adj.
    rewrite orb_true_iff, !andb_true_iff, orb_true_iff,
      Qltb_true_iff, Qeq_bool_iff.
    tauto.
  - unfold _is_concordant, _is_comparable, Spec.concordant_adj,
      Spec.comparable_adj, Spec.graded, Qgtb, Qneb.
    q_cases t_i t_j; q_cases s_i s_j;
      destruct (Qltb s_j s_i) eqn:L'; destruct (Qeq_bool s_j s_i) eqn:E';
      destruct d_i, d_j; q_props;
      try (exfalso; lra);
      try reflexivity; try (vm_compute; reflexivity).
Qed.

(** ** Sums *)

Lemma Qsum_app (l1 l2 : list Q) :
  Spec.Qsum (l1 ++ l2) == Spec.Qsum l1 + Spec.Qsum l2.
Proof.
  induction l1 as [| a l1 IH]; simpl.
  - lra.
  - rewrite IH. lra.
Qed.

(** The inner loop: a guarded accumulation is a sum over the filtered range. *)
Lemma inner_loop_sum (p : nat -> bool) (f : nat -> Q) (l : list nat) (c : Q) :
  fold_left (fun count j => if p j then count + f j else count) l c
    == c + Spec.Qsum (map f (filter p l)).
Proof.
  revert c. induction l as [| j l IH]; intro c; simpl.
  - lra.
  - rewrite IH. destruct (p j); simpl; lra.
Qed.

(** The outer loop threads the counter through the inner loops. *)
Lemma outer_loop_sum (p : nat -> nat -> bool) (f : nat -> nat -> Q)
    (li lj : list nat) (c : Q) :
  fold_left (fun count i =>
      fold_left (fun count j => if p i j then count + f i j else count) lj count)
    li c
    == c + Spec.Qsum (flat_map (fun i => map (f i) (filter (p i) lj)) li).
Proof.
  revert c. induction li as [| i li IH]; intro c; simpl.
  - lra.
  - rewrite IH, inner_loop_sum, Qsum_app. lra.
Qed.

Lemma filter_list_prod (p : nat -> nat -> bool) (li lj : list nat) :
  filter (fun q => p (fst q) (snd q)) (list_prod li lj)
    = flat_map (fun i => map (pair i) (filter (p i) lj)) li.
Proof.
  induction li as [| i li IH]; simpl; auto.
  rewrite filter_app, IH. f_equal.
  clear IH. induction lj as [| j lj IHj]; simpl; auto.
  destruct (p i j); simpl; now rewrite IHj.
Qed.

Lemma map_flat_map_pairs (g : nat * nat -> Q) (h : nat -> list nat) (li : list nat) :
  map g (flat_map (fun i => map (pair i) (h i)) li)
    = flat_map (fun i => map (fun j => g (i, j)) (h i)) li.
Proof.
  induction li as [| i li IH]; simpl; auto.
  now rewrite map_app, map_map, IH.
Qed.

(** Both loops together: the double loop with the guard [j != i] is the
    sum over all ordered pairs of distinct indices. *)
Lemma double_loop_ordered_pairs (f : nat -> nat -> Q) (n : nat) :
  fold_left (fun count i =>
      fold_left (fun count j =>
          if negb (j =? i)%nat then count + f i j else count) (seq 0 n) count)
    (seq 0 n) 0
    == Spec.Qsum (map (fun p => f (fst p) (snd p)) (Spec.ordered_pairs n)).
Proof.
  rewrite (outer_loop_sum (fun i j => negb (j =? i)%nat) f).
  unfold Spec.ordered_pairs.
  rewrite (filter_list_prod (fun i j => negb (i =? j)%nat)).
  rewrite map_flat_map_pairs. simpl.
  rewrite Qplus_0_l.
  assert (E : forall li,
    flat_map (fun i => map (f i) (filter (fun j => negb (j =? i)%nat) (seq 0 n))) li
    = flat_map (fun i => map (fun j => f i j)
                           (filter (fun j => negb (i =? j)%nat) (seq 0 n))) li).
  { intro li. apply flat_map_ext. intro i. f_equal.
    apply filter_ext. intro j. now rewrite Nat.eqb_sym. }
  rewrite E. reflexivity.
Qed.

Lemma _sum_comparable_spec (t : list Q) (d : list Z) (cmp : Q -> Q -> Z -> Z -> Z) :
  _sum_comparable t d cmp
    == Spec.Qsum (map (fun p => inject_Z (cmp (getQ t (fst p)) (getQ t (snd p))
                                            (getZ d (fst p)) (getZ d (snd p))))
                      (Spec.ordered_pairs (length t))).
Proof.
  unfold _sum_comparable.
  apply (double_loop_ordered_pairs
           (fun i j => inject_Z (cmp (getQ t i) (getQ t j) (getZ d i) (getZ d j)))).
Qed.

Lemma _sum_concordant_disc_spec (s : list (list Q)) (t : list Q) (d : list Z)
    (s_idx : list Z) (conc : Q -> Q -> Q -> Q -> Z -> Z -> Q) :
  _sum_concordant_disc s t d s_idx conc
    == Spec.Qsum (map (fun p =>
                         conc (get2 s (getZ s_idx (fst p)) (fst p))
                              (get2 s (getZ s_idx (fst p)) (snd p))
                              (getQ t (fst p)) (getQ t (snd p))
                              (getZ d (fst p)) (getZ d (snd p)))
                      (Spec.ordered_pairs (length t))).
Proof.
  unfold _sum_concordant_disc.
  apply (double_loop_ordered_pairs
           (fun i j => conc (get2 s (getZ s_idx i) i) (get2 s (getZ s_idx i) j)
                            (getQ t i) (getQ t j) (getZ d i) (getZ d j))).
Qed.

(** ** Outcomes *)

Lemma outcome_eq_refl (x : outcome value) : outcome_eq x x.
Proof.
  destruct x as [[q | e m] | e]; simpl; auto. reflexivity.
Qed.

Lemma truediv_proper (a a' b b' : Q) :
  a == a' -> b == b' -> outcome_eq (truediv a b) (truediv a' b').
Proof.
  intros Ha Hb. unfold truediv.
  rewrite (Qeqb_comp b b' Hb 0 0 (Qeq_refl 0)).
  destruct (Qeq_bool b' 0); simpl; auto.
  now rewrite Ha, Hb.
Qed.

(** The shape assertion of line 270 passes on inputs of matching shapes. *)
Lemma shape_assert_passes durations events surv surv_idx :
  matching_shapes durations events surv surv_idx ->
  ((length durations =? shape1 surv)%nat
   && (shape1 surv =? length surv_idx)%nat
   && (length surv_idx =? events_len events)%nat) = true.
Proof.
  intros [H1 [H2 H3]]. rewrite H1, H2, H3, !Nat.eqb_refl. reflexivity.
Qed.

Lemma valid_matching_shapes durations events surv surv_idx :
  valid_input durations events surv surv_idx ->
  matching_shapes durations events surv surv_idx.
Proof.
  intros [He Hi Hr Hc _ _].
  assert (S1 : shape1 surv = length durations).
  { destruct surv as [| r rows]; [congruence |]. simpl. now inversion Hc. }
  unfold matching_shapes. rewrite S1, Hi, He. auto.
Qed.

(** ** The quotient computed by [concordance_td] *)

Lemma concordance_td_quotient durations events surv surv_idx method :
  matching_shapes durations events surv surv_idx ->
  known_method method ->
  outcome_eq (concordance_td durations events surv surv_idx method)
    (truediv (Spec.numerator method durations (events_flags events) surv surv_idx)
             (Spec.denominator method durations (events_flags events))).
Proof.
  intros V M. unfold concordance_td.
  rewrite (shape_assert_passes _ _ _ _ V). simpl.
  unfold Spec.numerator, Spec.denominator,
    Spec.concordant_of, Spec.comparable_of.
  destruct M as [-> | ->]; simpl;
    apply truediv_proper;
    first [apply _sum_concordant_disc_spec | apply _sum_comparable_spec].
Qed.

Lemma outcome_eq_truediv_returns (x : outcome value) (num den : Q) :
  outcome_eq x (truediv num den) -> ~ den == 0 ->
  exists q, x = Return (Float q) /\ q == num / den.
Proof.
  intros R Hden. unfold truediv in R.
  apply Qeq_bool_false_iff in Hden. rewrite Hden in R.
  destruct x as [[q | e m] | e]; simpl in R; try contradiction.
  exists q. split; [reflexivity | exact R].
Qed.

Lemma outcome_eq_truediv_float (x : outcome value) (num den q : Q) :
  outcome_eq x (truediv num den) -> x = Return (Float q) ->
  ~ den == 0 /\ q == num / den.
Proof.
  intros R E. subst x. unfold truediv in R.
  destruct (Qeq_bool den 0) eqn:Z0; simpl in R; [contradiction |].
  apply Qeq_bool_false_iff in Z0. auto.
Qed.

(** ** Facts about valid inputs *)

Lemma flags_get (d : list Z) (i : nat) :
  flags_ok d -> getZ d i = 0%Z \/ getZ d i = 1%Z.
Proof.
  intro F. unfold getZ.
  destruct (nth_in_or_default i d 0%Z) as [In | ->]; auto.
  unfold flags_ok in F. rewrite Forall_forall in F. auto.
Qed.

Lemma ordered_pairs_in (n i j : nat) :
  In (i, j) (Spec.ordered_pairs n) <-> (i < n)%nat /\ (j < n)%nat /\ i <> j.
Proof.
  unfold Spec.ordered_pairs.
  rewrite filter_In, in_prod_iff, !in_seq, negb_true_iff, Nat.eqb_neq. simpl.
  lia.
Qed.

Lemma get2_constant c durations events surv surv_idx (i j : nat) :
  valid_input durations events surv surv_idx ->
  constant_surv c surv ->
  (i < length durations)%nat -> (j < length durations)%nat ->
  get2 surv (getZ surv_idx i) j == c.
Proof.
  intros [_ Hi _ Hc Hx _] K Li Lj.
  unfold get2, getQ, getZ, wrap_index.
  assert (R : (0 <= nth i surv_idx 0%Z < Z.of_nat (length surv))%Z).
  { rewrite Forall_forall in Hx. apply Hx. apply nth_In. lia. }
  set (k := nth i surv_idx 0%Z) in *.
  assert (Hk : (k <? 0)%Z = false) by (apply Z.ltb_ge; lia).
  rewrite Hk.
  assert (Lk : (Z.to_nat k < length surv)%nat) by lia.
  set (row := nth (Z.to_nat k) surv []).
  assert (Inrow : In row surv) by (apply nth_In; exact Lk).
  unfold constant_surv in K. rewrite Forall_forall in K.
  specialize (K row Inrow). rewrite Forall_forall in K.
  apply K. apply nth_In.
  rewrite Forall_forall in Hc. rewrite (Hc row Inrow). exact Lj.
Qed.

Lemma Qsum_map_ext_in {A} (f g : A -> Q) (l : list A) :
  (forall x, In x l -> f x == g x) ->
  Spec.Qsum (map f l) == Spec.Qsum (map g l).
Proof.
  induction l as [| a l IH]; intro H; simpl.
  - reflexivity.
  - rewrite (H a (or_introl eq_refl)), IH; [reflexivity |].
    intros x Hx. apply H. now right.
Qed.

Lemma Qsum_map_le {A} (f g : A -> Q) (l : list A) :
  (forall x, In x l -> f x <= g x) ->
  Spec.Qsum (map f l) <= Spec.Qsum (map g l).
Proof.
  induction l as [| a l IH]; intro H; simpl.
  - lra.
  - assert (f a <= g a) by (apply H; now left).
    assert (Spec.Qsum (map f l) <= Spec.Qsum (map g l)).
    { apply IH. intros x Hx. apply H. now right. }
    lra.
Qed.

Lemma Qsum_map_nonneg {A} (f : A -> Q) (l : list A) :
  (forall x, In x l -> 0 <= f x) -> 0 <= Spec.Qsum (map f l).
Proof.
  induction l as [| a l IH]; intro H; simpl.
  - lra.
  - assert (0 <= f a) by (apply H; now left).
    assert (0 <= Spec.Qsum (map f l)).
    { apply IH. intros x Hx. apply H. now right. }
    lra.
Qed.

Lemma Qsum_map_scale {A} (c : Q) (f : A -> Q) (l : list A) :
  Spec.Qsum (map (fun x => c * f x) l) == c * Spec.Qsum (map f l).
Proof.
  induction l as [| a l IH]; simpl.
  - lra.
  - rewrite IH. lra.
Qed.

(** ** Pair contributions under 0/1 event flags *)

Ltac flag_cases Hi Hj :=
  destruct Hi as [Hi | Hi]; destruct Hj as [Hj | Hj]; rewrite Hi, Hj.

Ltac closed_q := first [reflexivity | vm_compute; reflexivity].

(** A contribution is never negative and never more than the
    comparability indicator of its pair. *)
Lemma _is_concordant_range (s_i s_j t_i t_j : Q) (d_i d_j : Z) :
  (d_i = 0 \/ d_i = 1)%Z -> (d_j = 0 \/ d_j = 1)%Z ->
  0 <= _is_concordant s_i s_j t_i t_j d_i d_j
  /\ _is_concordant s_i s_j t_i t_j d_i d_j
       <= inject_Z (_is_comparable t_i t_j d_i d_j).
Proof.
  intros Hi Hj. unfold _is_concordant, _is_comparable, Qgtb, Qneb.
  q_cases t_i t_j; q_cases s_i s_j; destruct (Qltb s_j s_i) eqn:L';
    q_props; try (exfalso; lra);
    flag_cases Hi Hj;
    vm_compute; split; intro NotGt; discriminate NotGt.
Qed.

Lemma _is_concordant_antolini_range (s_i s_j t_i t_j : Q) (d_i d_j : Z) :
  (d_i = 0 \/ d_i = 1)%Z -> (d_j = 0 \/ d_j = 1)%Z ->
  0 <= inject_Z (_is_concordant_antolini s_i s_j t_i t_j d_i d_j)
  /\ inject_Z (_is_concordant_antolini s_i s_j t_i t_j d_i d_j)
       <= inject_Z (_is_comparable_antolini t_i t_j d_i d_j).
Proof.
  intros Hi Hj. unfold _is_concordant_antolini, _is_comparable_antolini.
  flag_cases Hi Hj;
    destruct (Qltb t_i t_j), (Qeq_bool t_i t_j), (Qltb s_i s_j);
    vm_compute; split; intro NotGt; discriminate NotGt.
Qed.

(** With tied predictions a pair counts one half of its comparability,
    except for two subjects with the event at one and the same time. *)
Lemma _is_concordant_tied_prediction (s_i s_j t_i t_j : Q) (d_i d_j : Z) :
  (d_i = 0 \/ d_i = 1)%Z -> (d_j = 0 \/ d_j = 1)%Z ->
  s_i == s_j ->
  ~ (t_i == t_j /\ d_i = 1%Z /\ d_j = 1%Z) ->
  _is_concordant s_i s_j t_i t_j d_i d_j
    == (1 # 2) * inject_Z (_is_comparable t_i t_j d_i d_j).
Proof.
  intros Hi Hj Hs Hno. unfold _is_concordant, _is_comparable, Qgtb, Qneb.
  q_cases t_i t_j; q_cases s_i s_j; destruct (Qltb s_j s_i) eqn:L';
    q_props; try (exfalso; lra);
    flag_cases Hi Hj;
    try (exfalso; apply Hno; repeat split; (assumption || reflexivity));
    closed_q.
Qed.

(** Away from tied durations and tied predictions the two methods give a
    pair the same comparability and the same contribution. *)
Lemma methods_agree_on_pair (s_i s_j t_i t_j : Q) (d_i d_j : Z) :
  (d_i = 0 \/ d_i = 1)%Z -> (d_j = 0 \/ d_j = 1)%Z ->
  ~ t_i == t_j ->
  (t_i < t_j -> d_i = 1%Z -> ~ s_i == s_j) ->
  _is_comparable t_i t_j d_i d_j = _is_comparable_antolini t_i t_j d_i d_j
  /\ _is_concordant s_i s_j t_i t_j d_i d_j
       == inject_Z (_is_concordant_antolini s_i s_j t_i t_j d_i d_j).
Proof.
  intros Hi Hj Ht Hs.
  unfold _is_concordant, _is_concordant_antolini, _is_comparable,
    _is_comparable_antolini, Qgtb, Qneb.
  q_cases t_i t_j; q_cases s_i s_j; destruct (Qltb s_j s_i) eqn:L';
    q_props; try (exfalso; lra);
    flag_cases Hi Hj;
    try (exfalso; apply Hs; (assumption || reflexivity));
    split; closed_q.
Qed.

(** ** The range of the concordance index *)

Lemma numerator_bounds method durations d surv surv_idx :
  flags_ok d -> known_method method ->
  0 <= Spec.numerator method durations d surv surv_idx
  /\ Spec.numerator method durations d surv surv_idx
       <= Spec.denominator method durations d.
Proof.
  intros F M. unfold Spec.numerator, Spec.denominator.
  split.
  - apply Qsum_map_nonneg. intros [i j] _. simpl.
    unfold Spec.concordant_of.
    destruct M as [-> | ->]; simpl;
      [apply _is_concordant_range | apply _is_concordant_antolini_range];
      now apply flags_get.
  - apply Qsum_map_le. intros [i j] _. simpl.
    unfold Spec.concordant_of, Spec.comparable_of.
    destruct M as [-> | ->]; simpl;
      [apply _is_concordant_range | apply _is_concordant_antolini_range];
      now apply flags_get.
Qed.

Lemma ratio_in_unit_interval (num den q : Q) :
  0 <= num -> num <= den -> ~ den == 0 -> q == num / den -> 0 <= q <= 1.
Proof.
  intros H0 H1 Hd Hq.
  assert (P : 0 < den) by lra.
  rewrite Hq. split.
  - apply Qle_shift_div_l; lra.
  - apply Qle_shift_div_r; lra.
Qed.

Lemma concordance_td_range durations events surv surv_idx method :
  valid_input durations events surv surv_idx ->
  known_method method ->
  (forall q, concordance_td durations events surv surv_idx method
               = Return (Float q) -> 0 <= q <= 1)
  /\ (~ Spec.denominator method durations (events_flags events) == 0 ->
      exists q, concordance_td durations events surv surv_idx method
                  = Return (Float q)).
Proof.
  intros V M.
  pose proof (concordance_td_quotient _ _ _ _ _
                (valid_matching_shapes _ _ _ _ V) M) as R.
  destruct (numerator_bounds method durations (events_flags events)
              surv surv_idx (vi_flags _ _ _ _ V) M) as [B0 B1].
  split.
  - intros q E.
    destruct (outcome_eq_truediv_float _ _ _ _ R E) as [Z0 Hq].
    eapply ratio_in_unit_interval; eauto.
  - intro Hd.
    destruct (outcome_eq_truediv_returns _ _ _ R Hd) as [q [E _]].
    now exists q.
Qed.

(** ** Concrete inputs are valid *)

Ltac concrete_valid :=
  constructor; simpl;
  try reflexivity; try discriminate;
  unfold flags_ok;
  repeat (apply Forall_cons || apply Forall_nil); simpl; try lia; auto.

Lemma example3_valid :
  valid_input Examples.durations3 Examples.events3 Examples.surv3 Examples.surv_idx3.
Proof. concrete_valid. Qed.

Lemma tied_example_valid :
  valid_input Examples.tied_durations Examples.both_events
              Examples.half_surv Examples.row0.
Proof. concrete_valid. Qed.

Lemma untied_example_valid (surv : list (list Q)) :
  surv = Examples.half_surv \/ surv = Examples.ranked_surv ->
  valid_input Examples.untied_durations Examples.both_events surv Examples.row0.
Proof. intros [-> | ->]; concrete_valid. Qed.

Lemma untied_example_no_ties : no_tied_durations Examples.untied_durations.
Proof.
  intros i j Hi Hj Hne. simpl in Hi, Hj.
  destruct i as [| [| i]]; destruct j as [| [| j]]; try lia;
    vm_compute; discriminate.
Qed.

(** ** C1: what [concordance_td] computes *)

(** C1. For every input of matching shapes and either method,
    [concordance_td] is Python's quotient [numerator / denominator] of the
    two sums over all ordered pairs [i <> j] of the specification, with the
    predicate pair that the method selects: it returns that ratio whenever
    the denominator is not zero (Python's division raises
    [ZeroDivisionError] on a zero denominator). *)
Theorem concordance_td_is_ratio durations events surv surv_idx method :
  matching_shapes durations events surv surv_idx ->
  known_method method ->
  let num := Spec.numerator method durations (events_flags events) surv surv_idx in
  let den := Spec.denominator method durations (events_flags events) in
  outcome_eq (concordance_td durations events surv surv_idx method)
             (truediv num den)
  /\ (~ den == 0 ->
      exists q, concordance_td durations events surv surv_idx method
                  = Return (Float q) /\ q == num / den).
Proof.
  intros V M num den.
  pose proof (concordance_td_quotient _ _ _ _ _ V M) as R.
  split; [exact R |].
  intro Hden. exact (outcome_eq_truediv_returns _ _ _ R Hden).
Qed.

(** Witness of C1 on three subjects. *)
Lemma concordance_td_is_ratio_witness :
  let num := Spec.numerator "adj_antolini" Examples.durations3
               (events_flags Examples.events3) Examples.surv3 Examples.surv_idx3 in
  let den := Spec.denominator "adj_antolini" Examples.durations3
               (events_flags Examples.events3) in
  outcome_eq (concordance_td Examples.durations3 Examples.events3 Examples.surv3
                             Examples.surv_idx3 "adj_antolini")
             (truediv num den)
  /\ (~ den == 0 ->
      exists q, concordance_td Examples.durations3 Examples.events3 Examples.surv3
                               Examples.surv_idx3 "adj_antolini"
                  = Return (Float q) /\ q == num / den).
Proof.
  apply (concordance_td_is_ratio Examples.durations3 Examples.events3
           Examples.surv3 Examples.surv_idx3 "adj_antolini").
  - repeat split; reflexivity.
  - left. reflexivity.
Defined.

(** ** C3: an unknown method *)

(** C3 (the code departs from it). With arrays of matching shapes and a
    method name that is neither ['antolini'] nor ['adj_antolini'], line 284
    builds a [ValueError] and hands it back as the ordinary result of the
    call: nothing is raised. *)
Theorem concordance_td_unknown_method_returns_error_object :
  concordance_td Examples.durations3 Examples.events3 Examples.surv3
                 Examples.surv_idx3 "harrell"
    = Return (ExcObject ValueError
                "Need 'method' to be e.g. 'antolini', got 'harrell'.")
  /\ forall e, concordance_td Examples.durations3 Examples.events3 Examples.surv3
                              Examples.surv_idx3 "harrell" <> Raise e.
Proof.
  split; [reflexivity | intros e; discriminate].
Qed.

(** The same on every input that passes the shape assertion. *)
Lemma concordance_td_unknown_method durations events surv surv_idx method :
  matching_shapes durations events surv surv_idx ->
  ~ known_method method ->
  exists msg, concordance_td durations events surv surv_idx method
                = Return (ExcObject ValueError msg).
Proof.
  intros V M. unfold concordance_td.
  rewrite (shape_assert_passes _ _ _ _ V). simpl.
  destruct (String.eqb method "adj_antolini") eqn:E1.
  { apply String.eqb_eq in E1. exfalso. apply M. now left. }
  destruct (String.eqb method "antolini") eqn:E2.
  { apply String.eqb_eq in E2. exfalso. apply M. now right. }
  eexists. reflexivity.
Qed.

Lemma outcome_eq_sym (x y : outcome value) : outcome_eq x y -> outcome_eq y x.
Proof.
  destruct x as [[a | e m] | e], y as [[b | e' m'] | e']; simpl; try tauto.
  - intro H. now symmetry.
  - intros [-> ->]. auto.
  - intro H. now symmetry.
Qed.

Lemma outcome_eq_trans (x y z : outcome value) :
  outcome_eq x y -> outcome_eq y z -> outcome_eq x z.
Proof.
  destruct x as [[a | e m] | e], y as [[b | e' m'] | e'],
    z as [[c | e'' m''] | e'']; simpl; try tauto.
  - intros H1 H2. now rewrite H1.
  - intros [-> ->] [-> ->]. auto.
  - intros -> ->. reflexivity.
Qed.

(** ** C4: a constant survival matrix *)

(** With a constant survival matrix and no two subjects having the event
    at one time, the numerator is half the denominator. *)
Lemma constant_surv_numerator c durations events surv surv_idx :
  valid_input durations events surv surv_idx ->
  constant_surv c surv ->
  no_tied_events durations (events_flags events) ->
  Spec.numerator "adj_antolini" durations (events_flags events) surv surv_idx
    == (1 # 2) * Spec.denominator "adj_antolini" durations (events_flags events).
Proof.
  intros V K NT. unfold Spec.numerator, Spec.denominator.
  rewrite <- Qsum_map_scale.
  apply Qsum_map_ext_in. intros [i j] Hin.
  apply ordered_pairs_in in Hin. destruct Hin as [Li [Lj Hne]].
  simpl.
  apply _is_concordant_tied_prediction.
  - apply flags_get, (vi_flags _ _ _ _ V).
  - apply flags_get, (vi_flags _ _ _ _ V).
  - rewrite (get2_constant c _ _ _ _ i i V K Li Li).
    rewrite (get2_constant c _ _ _ _ i j V K Li Lj). reflexivity.
  - intros [Ht [Di Dj]]. exact (NT i j Li Lj Hne Ht Di Dj).
Qed.

(** C4, as the code has it. For every valid input with at least one
    comparable pair whose survival matrix is constant, and in which no two
    subjects that both had the event share a duration, [concordance_td]
    with method ['adj_antolini'] returns exactly 0.5. *)
Theorem concordance_td_constant_surv c durations events surv surv_idx :
  valid_input durations events surv surv_idx ->
  constant_surv c surv ->
  no_tied_events durations (events_flags events) ->
  ~ Spec.denominator "adj_antolini" durations (events_flags events) == 0 ->
  exists q, concordance_td durations events surv surv_idx "adj_antolini"
              = Return (Float q) /\ q == 1 # 2.
Proof.
  intros V K NT Hden.
  pose proof (concordance_td_quotient _ _ _ _ "adj_antolini"
                (valid_matching_shapes _ _ _ _ V) (or_introl eq_refl)) as R.
  destruct (outcome_eq_truediv_returns _ _ _ R Hden) as [q [E Hq]].
  exists q. split; [exact E |].
  rewrite Hq, (constant_surv_numerator c _ _ _ _ V K NT).
  field. exact Hden.
Qed.

Lemma untied_example_no_tied_events :
  no_tied_events Examples.untied_durations (events_flags Examples.both_events).
Proof.
  intros i j Hi Hj Hne Ht _ _. simpl in Hi, Hj.
  destruct i as [| [| i]]; destruct j as [| [| j]]; try lia;
    vm_compute in Ht; discriminate.
Qed.

Lemma half_surv_constant : constant_surv (1 # 2) Examples.half_surv.
Proof. repeat constructor. Qed.

(** Witness of C4 (amended): events at times 1 and 2, prediction 0.5. *)
Lemma concordance_td_constant_surv_witness :
  exists q, concordance_td Examples.untied_durations Examples.both_events
              Examples.half_surv Examples.row0 "adj_antolini"
              = Return (Float q) /\ q == 1 # 2.
Proof.
  apply (concordance_td_constant_surv (1 # 2) Examples.untied_durations
           Examples.both_events Examples.half_surv Examples.row0).
  - apply untied_example_valid. now left.
  - exact half_surv_constant.
  - exact untied_example_no_tied_events.
  - vm_compute. discriminate.
Defined.

(** Counterexample to C4 as stated: two subjects who both had the event at
    time 1 and a prediction of 0.5 everywhere.  The input is valid, has
    comparable pairs, and the index is 1, not 0.5: line 194 gives a pair of
    tied events with tied predictions the full count 1. *)
Lemma concordance_td_constant_surv_counterexample :
  valid_input Examples.tied_durations Examples.both_events
              Examples.half_surv Examples.row0
  /\ constant_surv (1 # 2) Examples.half_surv
  /\ ~ Spec.denominator "adj_antolini" Examples.tied_durations
         (events_flags Examples.both_events) == 0
  /\ outcome_eq (concordance_td Examples.tied_durations Examples.both_events
                   Examples.half_surv Examples.row0 "adj_antolini")
                (Return (Float 1))
  /\ ~ outcome_eq (concordance_td Examples.tied_durations Examples.both_events
                     Examples.half_surv Examples.row0 "adj_antolini")
                  (Return (Float (1 # 2))).
Proof.
  split; [exact tied_example_valid |].
  split; [exact half_surv_constant |].
  split; [vm_compute; discriminate |].
  split; [vm_compute; reflexivity | vm_compute; discriminate].
Qed.

(** ** C5: the two methods on data without ties *)

(** C5, as the code has it. For every valid input without tied durations
    and without tied predictions in a compared pair, the two methods give
    the same outcome. *)
Theorem concordance_td_methods_agree durations events surv surv_idx :
  valid_input durations events surv surv_idx ->
  no_tied_durations durations ->
  no_tied_predictions durations (events_flags events) surv surv_idx ->
  outcome_eq (concordance_td durations events surv surv_idx "antolini")
             (concordance_td durations events surv surv_idx "adj_antolini").
Proof.
  intros V NT NP.
  pose proof (concordance_td_quotient _ _ _ _ "antolini"
                (valid_matching_shapes _ _ _ _ V) (or_intror eq_refl)) as Ra.
  pose proof (concordance_td_quotient _ _ _ _ "adj_antolini"
                (valid_matching_shapes _ _ _ _ V) (or_introl eq_refl)) as Rb.
  eapply outcome_eq_trans; [exact Ra |].
  eapply outcome_eq_trans; [| apply outcome_eq_sym; exact Rb].
  assert (P : forall i j, In (i, j) (Spec.ordered_pairs (length durations)) ->
    _is_comparable (getQ durations i) (getQ durations j)
        (getZ (events_flags events) i) (getZ (events_flags events) j)
      = _is_comparable_antolini (getQ durations i) (getQ durations j)
          (getZ (events_flags events) i) (getZ (events_flags events) j)
    /\ _is_concordant (get2 surv (getZ surv_idx i) i) (get2 surv (getZ surv_idx i) j)
         (getQ durations i) (getQ durations j)
         (getZ (events_flags events) i) (getZ (events_flags events) j)
       == inject_Z (_is_concordant_antolini
            (get2 surv (getZ surv_idx i) i) (get2 surv (getZ surv_idx i) j)
            (getQ durations i) (getQ durations j)
            (getZ (events_flags events) i) (getZ (events_flags events) j))).
  { intros i j Hin. apply ordered_pairs_in in Hin.
    destruct Hin as [Li [Lj Hne]].
    apply methods_agree_on_pair.
    - apply flags_get, (vi_flags _ _ _ _ V).
    - apply flags_get, (vi_flags _ _ _ _ V).
    - exact (NT i j Li Lj Hne).
    - intros Hlt Hd. exact (NP i j Li Lj Hne Hlt Hd). }
  apply truediv_proper.
  - unfold Spec.numerator. apply Qsum_map_ext_in. intros [i j] Hin.
    unfold Spec.concordant_of. simpl.
    symmetry. apply (P i j Hin).
  - unfold Spec.denominator. apply Qsum_map_ext_in. intros [i j] Hin.
    unfold Spec.comparable_of. simpl.
    destruct (P i j Hin) as [-> _]. reflexivity.
Qed.

Lemma ranked_example_no_tied_predictions :
  no_tied_predictions Examples.untied_durations
    (events_flags Examples.both_events) Examples.ranked_surv Examples.row0.
Proof.
  intros i j Hi Hj Hne Hlt _. simpl in Hi, Hj.
  destruct i as [| [| i]]; destruct j as [| [| j]]; try lia;
    vm_compute; discriminate.
Qed.

(** Witness of C5 (amended): events at times 1 and 2, predictions 0.25
    and 0.75. *)
Lemma concordance_td_methods_agree_witness :
  outcome_eq (concordance_td Examples.untied_durations Examples.both_events
                Examples.ranked_surv Examples.row0 "antolini")
             (concordance_td Examples.untied_durations Examples.both_events
                Examples.ranked_surv Examples.row0 "adj_antolini").
Proof.
  apply (concordance_td_methods_agree Examples.untied_durations
           Examples.both_events Examples.ranked_surv Examples.row0).
  - apply untied_example_valid. now right.
  - exact untied_example_no_ties.
  - exact ranked_example_no_tied_predictions.
Defined.

(** Counterexample to C5 as stated: events at the distinct times 1 and 2
    and the prediction 0.5 for both subjects.  ['adj_antolini'] counts the
    tied prediction as one half and returns 0.5; ['antolini'] counts it as
    nothing and returns 0. *)
Lemma concordance_td_methods_agree_counterexample :
  valid_input Examples.untied_durations Examples.both_events
              Examples.half_surv Examples.row0
  /\ no_tied_durations Examples.untied_durations
  /\ outcome_eq (concordance_td Examples.untied_durations Examples.both_events
                   Examples.half_surv Examples.row0 "adj_antolini")
                (Return (Float (1 # 2)))
  /\ outcome_eq (concordance_td Examples.untied_durations Examples.both_events
                   Examples.half_surv Examples.row0 "antolini")
                (Return (Float 0))
  /\ ~ outcome_eq (concordance_td Examples.untied_durations Examples.both_events
                     Examples.half_surv Examples.row0 "antolini")
                  (concordance_td Examples.untied_durations Examples.both_events
                     Examples.half_surv Examples.row0 "adj_antolini").
Proof.
  split; [apply untied_example_valid; now left |].
  split; [exact untied_example_no_ties |].
  split; [vm_compute; reflexivity |].
  split; [vm_compute; reflexivity | vm_compute; discriminate].
Qed.

(** ** Arrays in the store: what a call leaves behind *)

Module StoreFacts.

Import Store.

Lemma keeps_ret {A} (n : nat) (a : A) : keeps n (ret a).
Proof. intros st _. reflexivity. Qed.

Lemma keeps_throw {A} (n : nat) (e : exn) : keeps n (@throw A e).
Proof. intros st _. reflexivity. Qed.

Lemma keeps_lift {A} (n : nat) (o : outcome A) : keeps n (lift o).
Proof. intros st _. reflexivity. Qed.

Lemma keeps_get (n : nat) (r : ref) : keeps n (get r).
Proof. intros st _. unfold get. destruct (nth_error st r); reflexivity. Qed.

(** Allocation extends the store at its end. *)
Lemma keeps_alloc (n : nat) (a : object) : keeps n (alloc a).
Proof.
  intros st L. simpl. rewrite firstn_app.
  replace (n - length st)%nat with 0%nat by lia.
  simpl. apply app_nil_r.
Qed.

(** A write changes the object it is aimed at and no other. *)
Lemma keeps_write (n : nat) (r : ref) (a : object) :
  (n <= r)%nat -> keeps n (write r a).
Proof.
  intros Hr st L. unfold write.
  destruct (nth_error st r) eqn:E; [| reflexivity].
  simpl. rewrite firstn_app.
  assert (Lr : (r < length st)%nat) by (apply nth_error_Some; congruence).
  rewrite length_firstn, Nat.min_l by lia.
  replace (n - r)%nat with 0%nat by lia.
  simpl. rewrite app_nil_r, firstn_firstn. f_equal. lia.
Qed.

Lemma keeps_length {A} (n : nat) (m : M A) (st : store) :
  keeps n m -> (n <= length st)%nat -> (n <= length (snd (m st)))%nat.
Proof.
  intros K L. specialize (K st L).
  assert (E : length (firstn n (snd (m st))) = length (firstn n st))
    by now rewrite K.
  rewrite !length_firstn in E. lia.
Qed.

Lemma keeps_bind {A B} (n : nat) (m : M A) (k : A -> M B) :
  keeps n m -> (forall a, keeps n (k a)) -> keeps n (bind m k).
Proof.
  intros Hm Hk st L. unfold bind.
  pose proof (Hm st L) as E. pose proof (keeps_length n m st Hm L) as L'.
  destruct (m st) as [[a | e] st']; simpl in *.
  - rewrite (Hk a st' L'). exact E.
  - exact E.
Qed.

(** The reference that an allocation returns is not one of the first [n]. *)
Lemma keeps_alloc_bind {B} (n : nat) (a : object) (k : ref -> M B) :
  (forall r, (n <= r)%nat -> keeps n (k r)) -> keeps n (bind (alloc a) k).
Proof.
  intros Hk st L. unfold bind, alloc.
  assert (L' : (n <= length (st ++ [a]))%nat) by (rewrite length_app; lia).
  rewrite (Hk (length st) L (st ++ [a]) L').
  exact (keeps_alloc n a st L).
Qed.

(** What keeps the objects of a store keeps them where they are. *)
Lemma keeps_preserved {A} (m : M A) (st : store) :
  keeps (length st) m -> preserved st (snd (m st)).
Proof.
  intros K r a H. specialize (K st (Nat.le_refl _)).
  rewrite firstn_all in K.
  assert (Lr : (r < length st)%nat) by (apply nth_error_Some; congruence).
  assert (E : nth_error (firstn (length st) (snd (m st))) r
              = nth_error (snd (m st)) r).
  { rewrite nth_error_firstn. apply Nat.ltb_lt in Lr. now rewrite Lr. }
  rewrite <- E, K. exact H.
Qed.

Ltac keeps_reads :=
  repeat first
    [ apply keeps_ret | apply keeps_throw | apply keeps_lift
    | apply keeps_get | apply keeps_alloc
    | apply keeps_bind; [| intro]
    | match goal with
      | |- keeps _ (match ?x with _ => _ end) => destruct x
      end ].

Lemma keeps_get_floats n r : keeps n (get_floats r).
Proof. unfold get_floats. keeps_reads. Qed.

Lemma keeps_get_ints n r : keeps n (get_ints r).
Proof. unfold get_ints. keeps_reads. Qed.

Lemma keeps_get_bools n r : keeps n (get_bools r).
Proof. unfold get_bools. keeps_reads. Qed.

Lemma keeps_get_events n r : keeps n (get_events r).
Proof. unfold get_events. keeps_reads. Qed.

Lemma keeps_get_matrix n r : keeps n (get_matrix r).
Proof. unfold get_matrix. keeps_reads. Qed.

Lemma keeps_get_probs n r : keeps n (get_probs r).
Proof. unfold get_probs. keeps_reads. Qed.

Lemma keeps_fitted n r : keeps n (fitted r).
Proof. unfold fitted. keeps_reads. Qed.

Lemma keeps_np_array_C n r : keeps n (np_array_C r).
Proof.
  unfold np_array_C. apply keeps_bind; [apply keeps_get_matrix | intro].
  apply keeps_alloc.
Qed.

Lemma keeps_astype n r : keeps n (astype r).
Proof.
  unfold astype. apply keeps_bind; [apply keeps_get_floats | intro].
  apply keeps_alloc.
Qed.

Lemma keeps_rsub_one n r : keeps n (rsub_one r).
Proof.
  unfold rsub_one. apply keeps_bind; [apply keeps_get_bools | intro].
  apply keeps_alloc.
Qed.

(** [np.clip] keeps the caller's objects when it is given no [out], or an
    [out] that is not one of them. *)
Lemma keeps_np_clip n r lo hi (out : option ref) :
  match out with
  | None => True
  | Some o => (n <= o)%nat
  end ->
  keeps n (np_clip r lo hi out).
Proof.
  intro H. unfold np_clip. apply keeps_bind; [apply keeps_get_probs | intro p].
  destruct out as [o |].
  - apply keeps_bind; [now apply keeps_write | intro]. apply keeps_ret.
  - apply keeps_alloc.
Qed.

(** Given its own argument as [out], [np.clip] overwrites the argument:
    the store can tell. *)
Lemma np_clip_into_argument_overwrites :
  ~ preserved example_store
      (snd (np_clip 0%nat (1 # 4) (3 # 4) (Some 0%nat) example_store)).
Proof.
  intro P. specialize (P 0%nat _ eq_refl). vm_compute in P. discriminate P.
Qed.

(** The library of [fitter_of] writes into the fitter it is called on and
    nowhere else. *)
Lemma fitter_of_writes_self_only (fit : list Q -> list Z -> censoring_curve) :
  writes_self_only (fitter_of fit).
Proof.
  intros n self d e Hs. unfold fitter_of.
  apply keeps_bind; [apply keeps_get_floats | intro].
  apply keeps_bind; [apply keeps_get_ints | intro].
  apply keeps_bind; [apply keeps_lift | intro].
  now apply keeps_write.
Qed.

Section Calls.

Variable fit : ref -> ref -> ref -> M unit.
Variable np_log : Q -> fnum.
Hypothesis fit_writes_self_only : writes_self_only fit.

Ltac keeps_call :=
  repeat first
    [ apply keeps_get_floats | apply keeps_get_ints | apply keeps_get_bools
    | apply keeps_get_events | apply keeps_get_matrix | apply keeps_get_probs
    | apply keeps_fitted | apply keeps_np_array_C | apply keeps_astype
    | apply keeps_rsub_one | apply keeps_np_clip; exact I
    | apply keeps_ret | apply keeps_throw | apply keeps_lift | apply keeps_alloc
    | apply keeps_bind; [| intro]
    | match goal with
      | |- keeps _ (match ?x with _ => _ end) => destruct x
      | |- keeps _ (if ?x then _ else _) => destruct x
      end ].

Lemma concordance_td_keeps n durations events surv surv_idx method :
  keeps n (Store.concordance_td durations events surv surv_idx method).
Proof. unfold Store.concordance_td. keeps_call. Qed.

(** The fitter that lines 37 and 129 make is a new object, so the
    library, which writes into it, writes into none of the caller's. *)
Lemma fit_censoring_keeps n durations events :
  keeps n (Store.fit_censoring fit durations events).
Proof.
  unfold Store.fit_censoring.
  apply keeps_alloc_bind. intros kmf_censor Fresh.
  apply keeps_bind; [apply keeps_rsub_one | intro not_events].
  apply keeps_bind; [now apply fit_writes_self_only | intros _].
  apply keeps_fitted.
Qed.

Lemma brier_score_keeps n times prob_alive durations events :
  keeps n (Store.brier_score fit times prob_alive durations events).
Proof.
  unfold Store.brier_score.
  apply keeps_bind; [apply keeps_get_probs | intro p].
  apply keeps_bind; [apply keeps_get_floats | intro t].
  apply keeps_bind; [apply keeps_lift | intros _].
  apply keeps_bind; [apply fit_censoring_keeps | intro curve].
  keeps_call.
Qed.

Lemma binomial_log_likelihood_keeps n times prob_alive durations events eps :
  keeps n (Store.binomial_log_likelihood fit np_log times prob_alive durations
             events eps).
Proof.
  unfold Store.binomial_log_likelihood.
  apply keeps_bind; [apply keeps_get_probs | intro p].
  apply keeps_bind; [apply keeps_get_floats | intro t].
  apply keeps_bind; [apply keeps_lift | intros _].
  apply keeps_bind; [apply fit_censoring_keeps | intro curve].
  keeps_call.
Qed.

End Calls.

(** C10. No public operation changes an array it was given.  The library
    is taken to write into no object but the fitter that [fit] is called
    on.  Then, whatever the store holds before a call to [concordance_td],
    [brier_score] or [binomial_log_likelihood] (the arrays [durations],
    [events], [prob_alive]/[surv], [surv_idx] among them), it holds
    unchanged after the call: the fitter, the C-order copy of [surv], the
    integer cast of [events], [1 - events], the clipped [prob_alive] and
    the scores are new objects, and the only write goes into the new
    fitter. *)
Theorem public_calls_preserve_arrays
    (fit : ref -> ref -> ref -> M unit) (np_log : Q -> fnum) (st : store) :
  writes_self_only fit ->
  (forall durations events surv surv_idx method,
      preserved st (snd (Store.concordance_td durations events surv surv_idx method st)))
  /\ (forall times prob_alive durations events,
        preserved st (snd (Store.brier_score fit times prob_alive durations events st)))
  /\ (forall times prob_alive durations events eps,
        preserved st (snd (Store.binomial_log_likelihood fit np_log times
                             prob_alive durations events eps st))).
Proof.
  intro W. split; [| split]; intros; apply keeps_preserved.
  - apply concordance_td_keeps.
  - now apply brier_score_keeps.
  - now apply binomial_log_likelihood_keeps.
Qed.

(** Witness of C10: the three calls on the arrays of [example_store], with
    a library that stores the Kaplan-Meier curve in the fitter. *)
Lemma public_calls_preserve_arrays_witness :
  writes_self_only (fitter_of KaplanMeier.fit)
  /\ preserved example_store
       (snd (Store.concordance_td 1%nat 5%nat 3%nat 4%nat "antolini" example_store))
  /\ preserved example_store
       (snd (Store.brier_score (fitter_of KaplanMeier.fit) (Iterable [1; 2])
               0%nat 1%nat 2%nat example_store))
  /\ preserved example_store
       (snd (Store.binomial_log_likelihood (fitter_of KaplanMeier.fit)
               ScoreExamples.log_stub (Iterable [1; 2]) 0%nat 1%nat 2%nat
               (1 # 10000000) example_store)).
Proof.
  split; [apply fitter_of_writes_self_only |].
  pose proof (public_calls_preserve_arrays (fitter_of KaplanMeier.fit)
                ScoreExamples.log_stub example_store
                (fitter_of_writes_self_only KaplanMeier.fit)) as [C [B L]].
  split; [apply C | split; [apply B | apply L]].
Defined.

End StoreFacts.

(** ** Arrays in the store: what a call returns *)

Module StoreValues.

Lemma read_extended (st : Store.store) (r : Store.ref) (a b : Store.object) :
  nth_error st r = Some a -> nth_error (st ++ [b]) r = Some a.
Proof.
  intro H. rewrite nth_error_app1; [exact H |]. apply nth_error_Some. congruence.
Qed.

Lemma read_allocated (st : Store.store) (b : Store.object) :
  nth_error (st ++ [b]) (length st) = Some b.
Proof.
  rewrite nth_error_app2, Nat.sub_diag; [reflexivity | lia].
Qed.

Lemma read_written (st : Store.store) (r : Store.ref) (a : Store.object) :
  (r < length st)%nat ->
  nth_error (firstn r st ++ a :: skipn (S r) st) r = Some a.
Proof.
  intro L. rewrite nth_error_app2; rewrite length_firstn, Nat.min_l by lia;
    [| lia].
  now rewrite Nat.sub_diag.
Qed.

Lemma get_floats_at (st : Store.store) (r : Store.ref) (l : list Q) :
  nth_error st r = Some (Store.FloatArray l) -> Store.get_floats r st = (Return l, st).
Proof. intro H. unfold Store.get_floats, Store.bind, Store.get. now rewrite H. Qed.

Lemma get_ints_at (st : Store.store) (r : Store.ref) (l : list Z) :
  nth_error st r = Some (Store.IntArray l) -> Store.get_ints r st = (Return l, st).
Proof. intro H. unfold Store.get_ints, Store.bind, Store.get. now rewrite H. Qed.

Lemma get_bools_at (st : Store.store) (r : Store.ref) (l : list bool) :
  nth_error st r = Some (Store.BoolArray l) -> Store.get_bools r st = (Return l, st).
Proof. intro H. unfold Store.get_bools, Store.bind, Store.get. now rewrite H. Qed.

Lemma get_probs_at (st : Store.store) (r : Store.ref) (p : list (list fnum)) :
  nth_error st r = Some (Store.ProbMatrix p) -> Store.get_probs r st = (Return p, st).
Proof. intro H. unfold Store.get_probs, Store.bind, Store.get. now rewrite H. Qed.

Lemma concordance_td_after_cast t l rows idx method :
  concordance_td t (EventsInt (astype_int32 l)) rows idx method
  = concordance_td t (EventsFloat l) rows idx method.
Proof.
  unfold concordance_td. simpl. unfold astype_int32. now rewrite length_map.
Qed.

(** The stored call returns what the value semantics gives on the
    contents of the arrays. *)
Lemma concordance_td_value st rd re rs ri method t ea e fortran rows idx :
  nth_error st rd = Some (Store.FloatArray t) ->
  nth_error st re = Some ea -> Store.as_events ea = Some e ->
  nth_error st rs = Some (Store.FloatMatrix fortran rows) ->
  nth_error st ri = Some (Store.IntArray idx) ->
  fst (Store.concordance_td rd re rs ri method st)
    = concordance_td t e rows idx method.
Proof.
  intros Hd He Hea Hs Hi.
  cbv beta delta [Store.concordance_td Store.bind Store.get_matrix
    Store.np_array_C Store.astype Store.get_floats Store.get_ints
    Store.get_events Store.get Store.lift Store.ret Store.alloc Store.throw].
  rewrite Hs. cbv beta iota. simpl fst. simpl snd.
  destruct fortran.
  - rewrite Hs. cbv beta iota. simpl fst. simpl snd.
    rewrite read_allocated.
    rewrite (read_extended _ _ _ _ Hd), (read_extended _ _ _ _ Hi),
      (read_extended _ _ _ _ He).
    destruct ea; simpl in Hea; inversion Hea; subst; cbn [events_len fst snd];
      (destruct (_ && _) eqn:C;
       [ cbn [assert];
         repeat (rewrite ?read_allocated, ?(read_extended _ _ _ _ He);
                 cbv beta iota);
         cbn [fst]; rewrite ?concordance_td_after_cast; reflexivity
       | cbn [assert fst]; unfold concordance_td; cbn [events_len];
         rewrite C; reflexivity ]).
  - rewrite Hs, Hd, Hi, He.
    destruct ea; simpl in Hea; inversion Hea; subst; cbn [events_len fst snd];
      (destruct (_ && _) eqn:C;
       [ cbn [assert];
         repeat (rewrite ?read_allocated, ?He; cbv beta iota);
         cbn [fst]; rewrite ?concordance_td_after_cast; reflexivity
       | cbn [assert fst]; unfold concordance_td; cbn [events_len];
         rewrite C; reflexivity ]).
Qed.

(** With a library that stores the curve of [fit] in the fitter, lines
    37-38 give the curve that the library computes for the contents of
    the two arrays, or its refusal. *)
Lemma fit_censoring_value fit st rd re t e :
  nth_error st rd = Some (Store.FloatArray t) ->
  nth_error st re = Some (Store.BoolArray e) ->
  fst (Store.fit_censoring (Store.fitter_of fit) rd re st) = fit_call fit t (one_minus e).
Proof.
  intros Hd He.
  cbv beta delta [Store.fit_censoring Store.bind Store.alloc Store.rsub_one].
  cbv beta iota.
  rewrite (get_bools_at _ _ _ (read_extended _ _ _ _ He)).
  cbv beta iota.
  cbv beta delta [Store.fitter_of Store.bind].
  rewrite (get_floats_at _ _ _
             (read_extended _ _ _ _ (read_extended _ _ _ _ Hd))).
  cbv beta iota.
  rewrite (get_ints_at _ _ _ (read_allocated _ _)).
  cbv beta iota. unfold Store.lift.
  destruct (fit_call fit t (one_minus e)) as [c | ex]; [| reflexivity].
  cbv beta iota. unfold Store.write.
  assert (K : nth_error ((st ++ [Store.Fitter None]) ++ [Store.IntArray (one_minus e)])
                (length st) = Some (Store.Fitter None)).
  { apply read_extended, read_allocated. }
  rewrite K. cbv beta iota. unfold Store.fitted, Store.bind, Store.get.
  rewrite read_written; [reflexivity |].
  rewrite !length_app. simpl. lia.
Qed.

Section Values.

Variable fit : list Q -> list Z -> censoring_curve.
Variable np_log : Q -> fnum.
Variable st : Store.store.
Variables rp rd re : Store.ref.
Variable p : list (list fnum).
Variable t : list Q.
Variable e : list bool.
Hypothesis Hp : nth_error st rp = Some (Store.ProbMatrix p).
Hypothesis Hd : nth_error st rd = Some (Store.FloatArray t).
Hypothesis He : nth_error st re = Some (Store.BoolArray e).

Lemma after_fit_censoring (r : Store.ref) (a : Store.object) :
  nth_error st r = Some a ->
  nth_error (snd (Store.fit_censoring (Store.fitter_of fit) rd re st)) r = Some a.
Proof.
  apply (StoreFacts.keeps_preserved (Store.fit_censoring (Store.fitter_of fit) rd re) st).
  apply StoreFacts.fit_censoring_keeps.
  apply StoreFacts.fitter_of_writes_self_only.
Qed.

Lemma brier_score_value times :
  fst (Store.brier_score (Store.fitter_of fit) times rp rd re st)
  = brier_score fit times p t e.
Proof.
  unfold Store.brier_score, brier_score.
  cbv beta delta [Store.bind].
  rewrite (get_probs_at _ _ _ Hp). cbv beta iota.
  rewrite (get_floats_at _ _ _ Hd). cbv beta iota. unfold Store.lift at 1.
  destruct (has_shape p (length (as_iterable times)) (length t));
    [| reflexivity].
  cbn [assert Py.bind]. cbv beta iota.
  pose proof (fit_censoring_value fit st rd re t e Hd He) as V.
  pose proof after_fit_censoring as After.
  destruct (Store.fit_censoring (Store.fitter_of fit) rd re st) as [o st'].
  simpl in V, After. subst o.
  destruct (fit_call fit t (one_minus e)) as [c | ex]; [| reflexivity].
  cbn [Py.bind]. cbv beta iota.
  rewrite (get_floats_at _ _ _ (After _ _ Hd)). cbv beta iota.
  unfold Store.lift at 1.
  destruct (sequence _) as [km | ex]; [| reflexivity].
  cbn [Py.bind]. cbv beta iota. unfold Store.lift at 1.
  destruct (iter _) as [kt | ex]; [| reflexivity].
  cbn [Py.bind]. cbv beta iota.
  rewrite (get_probs_at _ _ _ (After _ _ Hp)). cbv beta iota.
  rewrite (get_floats_at _ _ _ (After _ _ Hd)). cbv beta iota.
  rewrite (get_bools_at _ _ _ (After _ _ He)). cbv beta iota.
  reflexivity.
Qed.

Lemma binomial_log_likelihood_value times eps :
  fst (Store.binomial_log_likelihood (Store.fitter_of fit) np_log times rp rd re
         eps st)
  = binomial_log_likelihood fit np_log times p t e eps.
Proof.
  unfold Store.binomial_log_likelihood, binomial_log_likelihood.
  cbv beta delta [Store.bind Store.np_clip].
  rewrite (get_probs_at _ _ _ Hp). cbv beta iota.
  rewrite (get_floats_at _ _ _ Hd). cbv beta iota. unfold Store.lift at 1.
  destruct (has_shape p (length (as_iterable times)) (length t));
    [| reflexivity].
  cbn [assert Py.bind]. cbv beta iota.
  pose proof (fit_censoring_value fit st rd re t e Hd He) as V.
  pose proof after_fit_censoring as After.
  destruct (Store.fit_censoring (Store.fitter_of fit) rd re st) as [o st'].
  simpl in V, After. subst o.
  destruct (fit_call fit t (one_minus e)) as [c | ex]; [| reflexivity].
  cbn [Py.bind]. cbv beta iota.
  rewrite (get_floats_at _ _ _ (After _ _ Hd)). cbv beta iota.
  unfold Store.lift at 1.
  destruct (sequence _) as [km | ex]; [| reflexivity].
  cbn [Py.bind]. cbv beta iota.
  rewrite (get_probs_at _ _ _ (After _ _ Hp)). cbv beta iota zeta.
  unfold Store.alloc at 1. cbv beta iota. unfold Store.lift at 1.
  destruct (iter _) as [kt | ex]; [| reflexivity].
  cbn [Py.bind]. cbv beta iota.
  rewrite (get_probs_at _ _ _ (read_allocated _ _)). cbv beta iota.
  rewrite (get_floats_at _ _ _ (read_extended _ _ _ _ (After _ _ Hd))).
  cbv beta iota.
  rewrite (get_bools_at _ _ _ (read_extended _ _ _ _ (After _ _ He))).
  cbv beta iota.
  reflexivity.
Qed.

End Values.

End StoreValues.

(** ** Arrays of one length *)

Lemma map2_length {A B C} (f : A -> B -> C) (a : list A) (b : list B) :
  length (map2 f a b) = Nat.min (length a) (length b).
Proof.
  revert b. induction a as [| x a IH]; intros [| y b]; simpl; auto.
Qed.

Lemma has_shape_rows {A} (m : list (list A)) (rows cols : nat) :
  has_shape m rows cols = true -> length m = rows.
Proof.
  unfold has_shape. rewrite andb_true_iff, Nat.eqb_eq. tauto.
Qed.

Lemma has_shape_cols {A} (m : list (list A)) (rows cols : nat) (r : list A) :
  has_shape m rows cols = true -> In r m -> length r = cols.
Proof.
  unfold has_shape. rewrite andb_true_iff, forallb_forall.
  intros [_ H] Hin. apply Nat.eqb_eq. auto.
Qed.

Lemma sequence_length {A} (l : list (outcome A)) (xs : list A) :
  sequence l = Return xs -> length xs = length l.
Proof.
  revert xs. induction l as [| m l IH]; intros xs H; simpl in H.
  - inversion H. reflexivity.
  - destruct m as [x | e]; simpl in H; [| discriminate].
    destruct (sequence l) as [ys | e]; simpl in H; [| discriminate].
    inversion H. simpl. f_equal. now apply IH.
Qed.

(** ** The calls of the library in the pointwise scores *)

Lemma one_minus_length (e : list bool) : length (one_minus e) = length e.
Proof. apply length_map. Qed.

(** The library accepts a sample with a subject and a flag per subject. *)
Lemma fit_call_accepts (fit : list Q -> list Z -> censoring_curve)
    (d : list Q) (e : list bool) :
  d <> [] -> length e = length d ->
  fit_call fit d (one_minus e) = Return (fit d (one_minus e)).
Proof.
  intros Ne Le. unfold fit_call. rewrite one_minus_length, Le, Nat.eqb_refl.
  destruct d; [congruence | reflexivity].
Qed.

(** It refuses every other sample. *)
Lemma fit_call_refuses (fit : list Q -> list Z -> censoring_curve)
    (d : list Q) (e : list bool) :
  d = [] \/ length e <> length d ->
  fit_call fit d (one_minus e) = Raise ValueError.
Proof.
  intros H. unfold fit_call. rewrite one_minus_length.
  destruct H as [-> | N]; [reflexivity |].
  apply Nat.eqb_neq in N. rewrite N. simpl. now rewrite orb_true_r.
Qed.

Lemma fit_call_inv (fit : list Q -> list Z -> censoring_curve)
    (d : list Q) (e : list bool) (c : censoring_curve) :
  fit_call fit d (one_minus e) = Return c ->
  d <> [] /\ length e = length d /\ c = fit d (one_minus e).
Proof.
  unfold fit_call. rewrite one_minus_length.
  destruct d as [| x d]; [discriminate |].
  destruct (Nat.eqb_spec (length e) (length (x :: d))) as [E | N];
    simpl; [| discriminate].
  intro H. inversion H. repeat split; [discriminate | exact E].
Qed.

(** The values for a list of times other than a single one come back as
    a series, one value per time. *)
Lemma iter_predict_times (c : censoring_curve) (times : list Q) :
  length times <> 1%nat ->
  iter (predict_times c times) = Return (map (predict c) times).
Proof.
  intro N. destruct times as [| t [| t' times]]; simpl in *;
    [reflexivity | congruence | reflexivity].
Qed.

(** The value for a single time comes back as a float, which [zip]
    cannot iterate. *)
Lemma iter_predict_single (c : censoring_curve) (times : list Q) :
  length times = 1%nat -> iter (predict_times c times) = Raise TypeError.
Proof.
  intro L. destruct times as [| t [| t' times]]; simpl in *;
    [discriminate | reflexivity | discriminate].
Qed.

Lemma iter_predict_times_inv (c : censoring_curve) (times : list Q) (km : list fnum) :
  iter (predict_times c times) = Return km ->
  length times <> 1%nat /\ km = map (predict c) times.
Proof.
  destruct times as [| t [| t' times]]; simpl; intro H;
    try discriminate; inversion H; split; auto; discriminate.
Qed.

(** ** The pointwise scores return one score per time *)

Section ScoreFacts.

Variable fit : list Q -> list Z -> censoring_curve.
Variable np_log : Q -> fnum.
Variable simps : list fnum -> list Q -> fnum.

(** What [brier_score] does once its assertion, the fit, the lookups at
    the durations and the [zip] have gone through. *)
Lemma brier_score_runs times p d e km_d :
  has_shape p (length (as_iterable times)) (length d) = true ->
  d <> [] -> length e = length d ->
  sequence (map (survival_function_loc (fit d (one_minus e))) d) = Return km_d ->
  length (as_iterable times) <> 1%nat ->
  brier_score fit times p d e
  = Return (map2 (fun tk pa => brier_compute_score d e km_d (fst tk) (snd tk) pa)
                 (combine (as_iterable times)
                          (map (predict (fit d (one_minus e))) (as_iterable times)))
                 p).
Proof.
  intros S Ne Le K N. unfold brier_score.
  rewrite S, (fit_call_accepts fit d e Ne Le). cbn [assert Py.bind].
  rewrite K. cbn [Py.bind]. rewrite (iter_predict_times _ _ N). reflexivity.
Qed.

Lemma binomial_log_likelihood_runs times p d e eps km_d :
  has_shape p (length (as_iterable times)) (length d) = true ->
  d <> [] -> length e = length d ->
  sequence (map (survival_function_loc (fit d (one_minus e))) d) = Return km_d ->
  length (as_iterable times) <> 1%nat ->
  binomial_log_likelihood fit np_log times p d e eps
  = Return (map2 (fun tk pa =>
                    ll_compute_score np_log d e km_d (fst tk) (snd tk) pa)
                 (combine (as_iterable times)
                          (map (predict (fit d (one_minus e))) (as_iterable times)))
                 (map (map (clip eps (1 - eps))) p)).
Proof.
  intros S Ne Le K N. unfold binomial_log_likelihood.
  rewrite S, (fit_call_accepts fit d e Ne Le). cbn [assert Py.bind].
  rewrite K. cbn [Py.bind]. rewrite (iter_predict_times _ _ N). reflexivity.
Qed.

(** With a single time the [zip] of lines 50-51 and 143-144 raises. *)
Lemma single_time_raises times p d e eps km_d :
  has_shape p (length (as_iterable times)) (length d) = true ->
  d <> [] -> length e = length d ->
  sequence (map (survival_function_loc (fit d (one_minus e))) d) = Return km_d ->
  length (as_iterable times) = 1%nat ->
  brier_score fit times p d e = Raise TypeError
  /\ binomial_log_likelihood fit np_log times p d e eps = Raise TypeError.
Proof.
  intros S Ne Le K N. unfold brier_score, binomial_log_likelihood.
  rewrite S, (fit_call_accepts fit d e Ne Le). cbn [assert Py.bind].
  rewrite K. cbn [Py.bind]. rewrite (iter_predict_single _ _ N).
  split; reflexivity.
Qed.

Lemma brier_score_length times p d e scores :
  brier_score fit times p d e = Return scores ->
  length scores = length (as_iterable times).
Proof.
  unfold brier_score.
  destruct (has_shape p (length (as_iterable times)) (length d)) eqn:S;
    simpl; [| discriminate].
  destruct (fit_call _ _ _) as [c | ex]; simpl; [| discriminate].
  destruct (sequence _) as [km | ex]; simpl; [| discriminate].
  destruct (iter _) as [kt | ex] eqn:I; simpl; [| discriminate].
  apply iter_predict_times_inv in I. destruct I as [_ ->].
  intro H. inversion H.
  rewrite map2_length, length_combine, length_map, Nat.min_id.
  rewrite (has_shape_rows _ _ _ S). apply Nat.min_id.
Qed.

Lemma binomial_log_likelihood_length times p d e eps scores :
  binomial_log_likelihood fit np_log times p d e eps = Return scores ->
  length scores = length (as_iterable times).
Proof.
  unfold binomial_log_likelihood.
  destruct (has_shape p (length (as_iterable times)) (length d)) eqn:S;
    simpl; [| discriminate].
  destruct (fit_call _ _ _) as [c | ex]; simpl; [| discriminate].
  destruct (sequence _) as [km | ex]; simpl; [| discriminate].
  destruct (iter _) as [kt | ex] eqn:I; simpl; [| discriminate].
  apply iter_predict_times_inv in I. destruct I as [_ ->].
  intro H. inversion H.
  rewrite map2_length, length_combine, !length_map, Nat.min_id.
  rewrite (has_shape_rows _ _ _ S). apply Nat.min_id.
Qed.

(** ** The monotonicity assertion *)

Lemma strictly_increasing_is_monotonic (x : list Q) :
  ScoreSpec.strictly_increasing x -> is_monotonic_increasing x = true.
Proof.
  induction x as [| a x IH]; [reflexivity |].
  destruct x as [| b rest]; [reflexivity |].
  intros [Hab Hrest].
  change (is_monotonic_increasing (a :: b :: rest))
    with (Qle_bool a b && is_monotonic_increasing (b :: rest)).
  rewrite (IH Hrest), andb_true_r.
  apply Qle_bool_iff. lra.
Qed.

Lemma not_monotonic_cons (x : Q) (l : list Q) :
  is_monotonic_increasing l = false -> is_monotonic_increasing (x :: l) = false.
Proof.
  destruct l as [| y l]; [discriminate |].
  intro H.
  change (Qle_bool x y && is_monotonic_increasing (y :: l) = false).
  rewrite H. apply andb_false_r.
Qed.

Lemma descent_not_monotonic (pre post : list Q) (a b : Q) :
  b < a -> is_monotonic_increasing (pre ++ a :: b :: post) = false.
Proof.
  intro Hlt. induction pre as [| x pre IH].
  - simpl. apply andb_false_iff. left.
    destruct (Qle_bool a b) eqn:E; auto.
    apply Qle_bool_iff in E. lra.
  - simpl app. now apply not_monotonic_cons.
Qed.

(** A grid that goes down somewhere is refused before anything is
    computed. *)
Lemma descending_grid_refused (pre post : list Q) (a b : Q) p d e :
  b < a ->
  integrated_brier_score_numpy fit simps (pre ++ a :: b :: post) p d e
    = Raise AssertionError
  /\ integrated_binomial_log_likelihood_numpy fit np_log simps
       (pre ++ a :: b :: post) p d e = Raise AssertionError.
Proof.
  intro Hlt.
  unfold integrated_brier_score_numpy, integrated_binomial_log_likelihood_numpy.
  rewrite (descent_not_monotonic pre post a b Hlt). split; reflexivity.
Qed.

(** ** Dropping the non-finite scores *)

Lemma mask_isfinite_scores (grid : list Q) (scores : list fnum) :
  length scores = length grid ->
  mask scores (map isfinite scores) = map snd (ScoreSpec.finite_pairs grid scores).
Proof.
  unfold ScoreSpec.finite_pairs.
  revert grid. induction scores as [| s scores IH]; intros [| t grid] L;
    simpl in *; try discriminate; auto.
  destruct (isfinite s); simpl; rewrite (IH grid); auto.
Qed.

Lemma mask_isfinite_grid (grid : list Q) (scores : list fnum) :
  length scores = length grid ->
  mask grid (map isfinite scores) = map fst (ScoreSpec.finite_pairs grid scores).
Proof.
  unfold ScoreSpec.finite_pairs.
  revert grid. induction scores as [| s scores IH]; intros [| t grid] L;
    simpl in *; try discriminate; auto.
  destruct (isfinite s); simpl; rewrite (IH grid); auto.
Qed.

Lemma last_item_nonempty (x : list Q) : x <> [] -> last_item x = Return (last x 0).
Proof. destruct x; [congruence | reflexivity]. Qed.

Lemma first_item_nonempty (x : list Q) : x <> [] -> first_item x = Return (hd 0 x).
Proof. destruct x; [congruence | reflexivity]. Qed.

(** Lines 75-79 and 168-172 on scores that came back. *)
Lemma integration_of_finite_pairs (grid : list Q) (scores : list fnum) :
  length scores = length grid ->
  ScoreSpec.finite_pairs grid scores <> [] ->
  (let is_finite := map isfinite scores in
   let scores' := mask scores is_finite in
   let times_grid := mask grid is_finite in
   do integral <- scipy_integrate_simps simps scores' times_grid ;
   do last <- last_item times_grid ;
   do first <- first_item times_grid ;
   Return (fdiv integral (Fin (last - first))))
  = Return (ScoreSpec.normalised_integral simps (ScoreSpec.finite_pairs grid scores)).
Proof.
  intros L NE. cbv zeta.
  rewrite (mask_isfinite_scores grid scores L), (mask_isfinite_grid grid scores L).
  assert (NE' : map fst (ScoreSpec.finite_pairs grid scores) <> []).
  { destruct (ScoreSpec.finite_pairs grid scores); [congruence | discriminate]. }
  rewrite (last_item_nonempty _ NE'), (first_item_nonempty _ NE').
  unfold scipy_integrate_simps.
  destruct (ScoreSpec.finite_pairs grid scores); [congruence | reflexivity].
Qed.

(** With no finite score left, the integrator is given arrays without an
    element and raises. *)
Lemma integration_of_no_finite_pair (grid : list Q) (scores : list fnum) :
  length scores = length grid ->
  ScoreSpec.finite_pairs grid scores = [] ->
  (let is_finite := map isfinite scores in
   let scores' := mask scores is_finite in
   let times_grid := mask grid is_finite in
   do integral <- scipy_integrate_simps simps scores' times_grid ;
   do last <- last_item times_grid ;
   do first <- first_item times_grid ;
   Return (fdiv integral (Fin (last - first))))
  = Raise ValueError.
Proof.
  intros L E. cbv zeta.
  rewrite (mask_isfinite_scores grid scores L), E. reflexivity.
Qed.

Lemma integrated_scores_on_finite_pairs grid p d e b_scores ll_scores :
  ScoreSpec.strictly_increasing grid ->
  brier_score fit (Iterable grid) p d e = Return b_scores ->
  binomial_log_likelihood fit np_log (Iterable grid) p d e (1 # 10000000)
    = Return ll_scores ->
  ScoreSpec.finite_pairs grid b_scores <> [] ->
  ScoreSpec.finite_pairs grid ll_scores <> [] ->
  (length b_scores = length grid
   /\ integrated_brier_score_numpy fit simps grid p d e
      = Return (ScoreSpec.normalised_integral simps
                  (ScoreSpec.finite_pairs grid b_scores)))
  /\ (length ll_scores = length grid
      /\ integrated_binomial_log_likelihood_numpy fit np_log simps grid p d e
         = Return (ScoreSpec.normalised_integral simps
                     (ScoreSpec.finite_pairs grid ll_scores))).
Proof.
  intros Inc Eb El NEb NEl.
  pose proof (strictly_increasing_is_monotonic grid Inc) as Mono.
  pose proof (brier_score_length _ _ _ _ _ Eb) as Lb.
  pose proof (binomial_log_likelihood_length _ _ _ _ _ _ El) as Ll.
  simpl in Lb, Ll.
  split; (split; [assumption |]).
  - unfold integrated_brier_score_numpy. rewrite Mono, Eb. simpl.
    apply (integration_of_finite_pairs grid b_scores Lb NEb).
  - unfold integrated_binomial_log_likelihood_numpy. rewrite Mono, El. simpl.
    apply (integration_of_finite_pairs grid ll_scores Ll NEl).
Qed.

End ScoreFacts.

(** ** C8: a grid that is not strictly increasing *)

(** C8 (the code departs from it). The grid [1, 1, 2] is not strictly
    increasing, yet the assertion of lines 72 and 165 lets it through:
    [is_monotonic_increasing] accepts equal neighbours.  The integrated
    Brier score goes on and returns; the integrated log-likelihood goes on
    as well and does not end in the [AssertionError]. *)
Theorem integrated_scores_accept_repeated_time :
  ~ ScoreSpec.strictly_increasing ScoreExamples.repeated_grid
  /\ is_monotonic_increasing ScoreExamples.repeated_grid = true
  /\ (forall simps, exists v,
        integrated_brier_score_numpy KaplanMeier.fit simps
          ScoreExamples.repeated_grid ScoreExamples.prob_alive
          ScoreExamples.durations ScoreExamples.events = Return v)
  /\ (forall np_log simps,
        integrated_binomial_log_likelihood_numpy KaplanMeier.fit np_log simps
          ScoreExamples.repeated_grid ScoreExamples.prob_alive
          ScoreExamples.durations ScoreExamples.events <> Raise AssertionError).
Proof.
  split; [| split; [| split]].
  - simpl. intros [H _]. vm_compute in H. discriminate.
  - reflexivity.
  - intro simps. eexists. vm_compute. reflexivity.
  - intros np_log simps.
    unfold integrated_binomial_log_likelihood_numpy.
    change (is_monotonic_increasing ScoreExamples.repeated_grid) with true.
    simpl assert. cbv beta iota delta [Py.bind].
    destruct (binomial_log_likelihood _ _ _ _ _ _ _) as [scores | ex] eqn:E.
    + cbv zeta. unfold scipy_integrate_simps.
      destruct (mask scores (map isfinite scores)); [simpl; discriminate |].
      destruct (mask ScoreExamples.repeated_grid (map isfinite scores));
        simpl; discriminate.
    + vm_compute in E. discriminate.
Qed.

(** ** C9: non-finite scores are left out *)

(** C9. For every strictly increasing grid on which the pointwise scores
    came back and at least one of them is finite, both integrated scores
    return, and what they return is the integral of the (time, score)
    pairs with a finite score divided by last minus first of the times of
    those pairs: a non-finite score is left out with its grid time, from
    the integral and from the span. *)
Theorem integrated_scores_drop_nonfinite
    (fit : list Q -> list Z -> censoring_curve) (np_log : Q -> fnum)
    (simps : list fnum -> list Q -> fnum)
    grid p d e b_scores ll_scores :
  ScoreSpec.strictly_increasing grid ->
  brier_score fit (Iterable grid) p d e = Return b_scores ->
  binomial_log_likelihood fit np_log (Iterable grid) p d e (1 # 10000000)
    = Return ll_scores ->
  ScoreSpec.finite_pairs grid b_scores <> [] ->
  ScoreSpec.finite_pairs grid ll_scores <> [] ->
  (length b_scores = length grid
   /\ integrated_brier_score_numpy fit simps grid p d e
      = Return (ScoreSpec.normalised_integral simps
                  (ScoreSpec.finite_pairs grid b_scores)))
  /\ (length ll_scores = length grid
      /\ integrated_binomial_log_likelihood_numpy fit np_log simps grid p d e
         = Return (ScoreSpec.normalised_integral simps
                     (ScoreSpec.finite_pairs grid ll_scores))).
Proof.
  apply integrated_scores_on_finite_pairs.
Qed.

(** Witness of C9: the score at the second of three grid times is NaN; the
    pairs that remain are those of the first and the third time. *)
Lemma integrated_scores_drop_nonfinite_witness :
  (In NonFin ScoreRuns.b_scores /\ In NonFin ScoreRuns.ll_scores)
  /\ map fst (ScoreSpec.finite_pairs ScoreExamples.grid ScoreRuns.b_scores) = [1; 3]
  /\ (length ScoreRuns.b_scores = length ScoreExamples.grid
      /\ integrated_brier_score_numpy KaplanMeier.fit ScoreExamples.trapezoid
           ScoreExamples.grid ScoreExamples.prob_alive_nan
           ScoreExamples.durations ScoreExamples.events
         = Return (ScoreSpec.normalised_integral ScoreExamples.trapezoid
                     (ScoreSpec.finite_pairs ScoreExamples.grid ScoreRuns.b_scores)))
  /\ (length ScoreRuns.ll_scores = length ScoreExamples.grid
      /\ integrated_binomial_log_likelihood_numpy KaplanMeier.fit
           ScoreExamples.log_stub ScoreExamples.trapezoid
           ScoreExamples.grid ScoreExamples.prob_alive_nan
           ScoreExamples.durations ScoreExamples.events
         = Return (ScoreSpec.normalised_integral ScoreExamples.trapezoid
                     (ScoreSpec.finite_pairs ScoreExamples.grid ScoreRuns.ll_scores))).
Proof.
  split; [split; simpl; tauto |].
  split; [reflexivity |].
  apply (integrated_scores_drop_nonfinite KaplanMeier.fit ScoreExamples.log_stub
           ScoreExamples.trapezoid ScoreExamples.grid ScoreExamples.prob_alive_nan
           ScoreExamples.durations ScoreExamples.events
           ScoreRuns.b_scores ScoreRuns.ll_scores).
  - simpl. repeat split; reflexivity.
  - vm_compute. reflexivity.
  - vm_compute. reflexivity.
  - vm_compute. discriminate.
  - vm_compute. discriminate.
Defined.

(** Counterexample to C9 as stated: on the strictly increasing grid
    [1, 2, 3] with predictions that are NaN throughout, every pointwise
    score is non-finite, nothing is left after filtering, and both
    integrated scores end in the [ValueError] of the integrator, which is
    given arrays without an element. *)
Lemma integrated_scores_drop_nonfinite_counterexample :
  ScoreSpec.strictly_increasing ScoreExamples.grid
  /\ brier_score KaplanMeier.fit (Iterable ScoreExamples.grid)
       NanExample.prob_alive_all_nan ScoreExamples.durations ScoreExamples.events
     = Return [NonFin; NonFin; NonFin]
  /\ (forall simps,
        integrated_brier_score_numpy KaplanMeier.fit simps ScoreExamples.grid
          NanExample.prob_alive_all_nan ScoreExamples.durations ScoreExamples.events
        = Raise ValueError)
  /\ (forall np_log simps,
        integrated_binomial_log_likelihood_numpy KaplanMeier.fit np_log simps
          ScoreExamples.grid NanExample.prob_alive_all_nan
          ScoreExamples.durations ScoreExamples.events
        = Raise ValueError).
Proof.
  split; [simpl; repeat split; reflexivity |].
  split; [vm_compute; reflexivity |].
  split; intros; vm_compute; reflexivity.
Qed.

(** ** Arithmetic of [fnum] up to [fnum_eq] *)

Lemma fnum_eq_refl x : fnum_eq x x.
Proof. destruct x; simpl; auto. reflexivity. Qed.

Lemma fnum_eq_sym x y : fnum_eq x y -> fnum_eq y x.
Proof. destruct x, y; simpl; auto. intro H. now symmetry. Qed.

Lemma fnum_eq_trans x y z : fnum_eq x y -> fnum_eq y z -> fnum_eq x z.
Proof.
  destruct x, y, z; simpl; auto; try tauto. intros H1 H2. now rewrite H1.
Qed.

#[export] Instance fnum_eq_equivalence : Equivalence fnum_eq.
Proof.
  split.
  - exact fnum_eq_refl.
  - exact fnum_eq_sym.
  - exact fnum_eq_trans.
Qed.

#[export] Instance fadd_proper : Proper (fnum_eq ==> fnum_eq ==> fnum_eq) fadd.
Proof.
  intros [a |] [b |] H1 [c |] [d |] H2; simpl in *; auto; try tauto.
  now rewrite H1, H2.
Qed.

#[export] Instance fdiv_proper : Proper (fnum_eq ==> fnum_eq ==> fnum_eq) fdiv.
Proof.
  intros [a |] [b |] H1 [c |] [d |] H2; simpl in *; auto; try tauto.
  rewrite (Qeqb_comp c d H2 0 0 (Qeq_refl 0)).
  destruct (Qeq_bool d 0); simpl; auto.
  now rewrite H1, H2.
Qed.

Lemma fadd_comm x y : fnum_eq (fadd x y) (fadd y x).
Proof. destruct x, y; simpl; auto. lra. Qed.

Lemma fadd_assoc x y z : fnum_eq (fadd x (fadd y z)) (fadd (fadd x y) z).
Proof. destruct x, y, z; simpl; auto. lra. Qed.

Lemma fadd_0_l x : fnum_eq (fadd (Fin 0) x) x.
Proof. destruct x; simpl; auto. lra. Qed.

Lemma fadd_0_r x : fnum_eq (fadd x (Fin 0)) x.
Proof. destruct x; simpl; auto. lra. Qed.

(** [np.sum] accumulates from the left; the sum is the same. *)
Lemma fold_left_fadd (l : list fnum) (a : fnum) :
  fnum_eq (fold_left fadd l a) (fadd a (ScoreSpec.fsum l)).
Proof.
  revert a. induction l as [| x l IH]; intro a; simpl.
  - symmetry. apply fadd_0_r.
  - rewrite IH. symmetry. apply fadd_assoc.
Qed.

Lemma np_sum_fsum (l : list fnum) : fnum_eq (np_sum l) (ScoreSpec.fsum l).
Proof.
  unfold np_sum. rewrite fold_left_fadd. apply fadd_0_l.
Qed.

(** ** The Brier score at one time *)

Lemma subjects_length d e row km_d :
  length e = length d -> length row = length d -> length km_d = length d ->
  length (ScoreSpec.subjects d e row km_d) = length d.
Proof.
  revert e row km_d.
  induction d as [| T d IH]; intros [| ev e] [| x row] [| g km_d] Le Lr Lk;
    simpl in *; try discriminate; auto.
Qed.

Lemma fsum_cons (x : fnum) (l : list fnum) :
  ScoreSpec.fsum (x :: l) = fadd x (ScoreSpec.fsum l).
Proof. reflexivity. Qed.

Lemma fadd_swap (a b c : fnum) :
  fnum_eq (fadd a (fadd b c)) (fadd b (fadd a c)).
Proof.
  rewrite fadd_assoc, (fadd_comm a b), <- fadd_assoc. reflexivity.
Qed.

(** The event part plus the survived part is the sum of the contributions
    of the subjects. *)
Lemma brier_parts_sum (t : Q) (g_t : fnum) d e row km_d :
  length e = length d -> length row = length d -> length km_d = length d ->
  fnum_eq
    (fadd
       (ScoreSpec.fsum
          (map2 fdiv (mask (map fsq row) (died_mask d e t))
                     (mask km_d (died_mask d e t))))
       (ScoreSpec.fsum
          (map (fun x => fdiv x g_t)
               (mask (map (fun p => fsq (fsub (Fin 1) p)) row)
                     (survived_mask d t)))))
    (ScoreSpec.fsum
       (map (ScoreSpec.brier_contribution t g_t)
            (ScoreSpec.subjects d e row km_d))).
Proof.
  revert e row km_d.
  induction d as [| T d IH]; intros [| ev e] [| x row] [| g km_d] Le Lr Lk;
    simpl in Le, Lr, Lk; try discriminate.
  - simpl. lra.
  - specialize (IH e row km_d ltac:(lia) ltac:(lia) ltac:(lia)).
    unfold died_mask, survived_mask, Qgtb, Qltb in *.
    cbn -[ScoreSpec.fsum fdiv fsq fsub].
    unfold ScoreSpec.brier_contribution at 1.
    cbn -[ScoreSpec.fsum fdiv fsq fsub].
    unfold Qgtb, Qltb.
    destruct (Qle_bool T t); destruct ev; cbn -[ScoreSpec.fsum fdiv fsq fsub];
      rewrite ?fsum_cons; rewrite <- IH.
    + symmetry. apply fadd_assoc.
    + symmetry. apply fadd_0_l.
    + apply fadd_swap.
    + apply fadd_swap.
Qed.

Lemma brier_compute_score_spec (t : Q) (g_t : fnum) d e row km_d :
  length e = length d -> length row = length d -> length km_d = length d ->
  fnum_eq (brier_compute_score d e km_d t g_t row)
          (ScoreSpec.brier_at t g_t (ScoreSpec.subjects d e row km_d)).
Proof.
  intros Le Lr Lk. unfold brier_compute_score, ScoreSpec.brier_at, flen.
  rewrite (subjects_length d e row km_d Le Lr Lk).
  apply fdiv_proper; [| reflexivity].
  rewrite !np_sum_fsum.
  now apply brier_parts_sum.
Qed.

Lemma brier_rows_spec d e km_d (curve : censoring_curve) (times : list Q) (p : list (list fnum)) :
  length e = length d -> length km_d = length d ->
  Forall (fun row => length row = length d) p ->
  Forall2 fnum_eq
    (map2 (fun tk pa => brier_compute_score d e km_d (fst tk) (snd tk) pa)
          (combine times (map (predict curve) times)) p)
    (map2 (fun t row =>
             ScoreSpec.brier_at t (predict curve t) (ScoreSpec.subjects d e row km_d))
          times p).
Proof.
  intros Le Lk. revert p.
  induction times as [| t times IH]; intros [| row p] F; simpl; try constructor.
  - inversion F; subst. now apply brier_compute_score_spec.
  - inversion F; subst. now apply IH.
Qed.

(** Called with a list of evaluation times other than a single one, on a
    sample that the library accepts, [brier_score] returns at every time
    [t] the sum of the contributions of the subjects divided by [n], where
    a subject with [duration <= t] and an event contributes [p^2] over the
    censoring-curve value at its own duration, a subject with
    [duration > t] contributes [(1 - p)^2] over the censoring-curve value
    at [t], and a subject censored at or before [t] contributes nothing. *)
Theorem brier_score_per_time (fit : list Q -> list Z -> censoring_curve)
    times p d e km_d :
  has_shape p (length (as_iterable times)) (length d) = true ->
  d <> [] -> length e = length d ->
  sequence (map (survival_function_loc (fit d (one_minus e))) d) = Return km_d ->
  length (as_iterable times) <> 1%nat ->
  exists scores,
    brier_score fit times p d e = Return scores
    /\ Forall2 fnum_eq scores
         (map2 (fun t row =>
                  ScoreSpec.brier_at t (predict (fit d (one_minus e)) t)
                    (ScoreSpec.subjects d e row km_d))
               (as_iterable times) p).
Proof.
  intros S Ne Le K N.
  rewrite (brier_score_runs fit times p d e km_d S Ne Le K N).
  eexists. split; [reflexivity |].
  apply brier_rows_spec.
  - exact Le.
  - rewrite (sequence_length _ _ K). apply length_map.
  - apply Forall_forall. intros row Hin.
    exact (has_shape_cols _ _ _ _ S Hin).
Qed.

(** ** C6: a single evaluation time *)

(** C6 (the code departs from it). The docstring of [brier_score] takes a
    number or an iterable of times, and lines 32-33 wrap a number in a
    list.  But for one evaluation time, given as a number or as a list of
    one, the library hands the censoring-curve value back as a bare float,
    and the [zip] of lines 50-51 raises [TypeError]: on a sample that the
    library accepts no score is computed for that time. *)
Theorem brier_score_single_time (fit : list Q -> list Z -> censoring_curve)
    (t : Q) (row : list fnum) d e km_d :
  length row = length d ->
  d <> [] -> length e = length d ->
  sequence (map (survival_function_loc (fit d (one_minus e))) d) = Return km_d ->
  brier_score fit (Scalar t) [row] d e = Raise TypeError
  /\ brier_score fit (Iterable [t]) [row] d e = Raise TypeError.
Proof.
  intros Lr Ne Le K.
  assert (S : has_shape [row] 1 (length d) = true).
  { unfold has_shape. simpl. now rewrite Lr, Nat.eqb_refl. }
  split.
  - exact (proj1 (single_time_raises fit (fun _ => NonFin) (Scalar t) [row] d e 0
                    km_d S Ne Le K eq_refl)).
  - exact (proj1 (single_time_raises fit (fun _ => NonFin) (Iterable [t]) [row] d e 0
                    km_d S Ne Le K eq_refl)).
Qed.

(** ** The Kaplan-Meier timeline *)

Module KaplanMeierFacts.

Import KaplanMeier.

Lemma seen_true_iff (l : list Q) (T : Q) :
  seen l T = true <-> exists y, In y l /\ T == y.
Proof.
  unfold seen. rewrite existsb_exists.
  split; intros [y [Hin Hy]]; exists y; split; auto;
    now apply Qeq_bool_iff.
Qed.

Lemma seen_app (l1 l2 : list Q) (T : Q) :
  seen (l1 ++ l2) T = seen l1 T || seen l2 T.
Proof. apply existsb_app. Qed.

Lemma seen_proper (l : list Q) (T T' : Q) : T == T' -> seen l T = seen l T'.
Proof.
  intro H. unfold seen. induction l as [| y l IH]; simpl; auto.
  rewrite IH. f_equal. apply Qeqb_comp; [exact H | reflexivity].
Qed.

Lemma insert_uniq_in (x z : Q) (l : list Q) :
  In z (insert_uniq x l) -> z = x \/ In z l.
Proof.
  induction l as [| y l IH]; simpl.
  - intros [-> | []]. now left.
  - destruct (Qltb x y); [simpl; intuition congruence |].
    destruct (Qeq_bool x y); simpl; intuition congruence.
Qed.

Lemma insert_uniq_sorted (x : Q) (l : list Q) :
  StronglySorted Qlt l -> StronglySorted Qlt (insert_uniq x l).
Proof.
  induction l as [| y l IH]; intro S; simpl.
  - repeat constructor.
  - inversion S as [| ? ? Sl Fy]; subst.
    destruct (Qltb x y) eqn:L.
    + apply Qltb_true_iff in L. constructor; [exact S |].
      constructor; [exact L |].
      eapply Forall_impl; [| exact Fy]. intros z Hz. simpl in Hz. lra.
    + destruct (Qeq_bool x y) eqn:E; [exact S |].
      apply Qltb_false_iff in L. apply Qeq_bool_false_iff in E.
      constructor; [now apply IH |].
      apply Forall_forall. intros z Hz.
      apply insert_uniq_in in Hz. destruct Hz as [-> | Hz].
      * lra.
      * rewrite Forall_forall in Fy. now apply Fy.
Qed.

Lemma seen_insert_uniq (x T : Q) (l : list Q) :
  seen (insert_uniq x l) T = Qeq_bool T x || seen l T.
Proof.
  induction l as [| y l IH]; simpl.
  - reflexivity.
  - destruct (Qltb x y); [reflexivity |].
    destruct (Qeq_bool x y) eqn:E.
    + apply Qeq_bool_iff in E.
      change (seen (y :: l) T) with (Qeq_bool T y || seen l T).
      rewrite (Qeqb_comp T T (Qeq_refl T) x y E).
      now rewrite orb_assoc, orb_diag.
    + change (seen (y :: insert_uniq x l) T)
        with (Qeq_bool T y || seen (insert_uniq x l) T).
      change (seen (y :: l) T) with (Qeq_bool T y || seen l T).
      rewrite IH, !orb_assoc. f_equal. apply orb_comm.
Qed.

(** The timeline is strictly increasing and holds exactly the durations. *)
Lemma timeline_sorted (d : list Q) : StronglySorted Qlt (timeline d).
Proof.
  induction d as [| x d IH]; simpl.
  - constructor.
  - now apply insert_uniq_sorted.
Qed.

Lemma seen_timeline (d : list Q) (T : Q) : seen (timeline d) T = seen d T.
Proof.
  induction d as [| x d IH]; simpl.
  - reflexivity.
  - rewrite seen_insert_uniq, IH. reflexivity.
Qed.

Lemma duration_on_timeline (d : list Q) (T : Q) :
  In T d -> seen (timeline d) T = true.
Proof.
  intro H. rewrite seen_timeline. apply seen_true_iff.
  exists T. split; [exact H | reflexivity].
Qed.

Lemma timeline_from_durations (d : list Q) (s : Q) :
  In s (timeline d) -> exists T, In T d /\ s == T.
Proof.
  intro H. apply seen_true_iff. rewrite <- seen_timeline.
  apply seen_true_iff. exists s. split; [exact H | reflexivity].
Qed.

(** In a strictly increasing list everything before a position is
    smaller than everything from it on. *)
Lemma sorted_app_lt (l1 l2 : list Q) :
  StronglySorted Qlt (l1 ++ l2) ->
  forall x y, In x l1 -> In y l2 -> x < y.
Proof.
  induction l1 as [| a l1 IH]; simpl; intros S x y Hx Hy.
  - contradiction.
  - inversion S as [| ? ? Sl Fa]; subst.
    destruct Hx as [-> | Hx].
    + rewrite Forall_forall in Fa. apply Fa. apply in_or_app. now right.
    + now apply IH.
Qed.

Lemma sorted_app_r (l1 l2 : list Q) :
  StronglySorted Qlt (l1 ++ l2) -> StronglySorted Qlt l2.
Proof.
  induction l1 as [| a l1 IH]; simpl; intro S; auto.
  inversion S; subst. auto.
Qed.

(** The times up to [t] are a prefix of a strictly increasing list. *)
Lemma sorted_filter_split (t : Q) (l : list Q) :
  StronglySorted Qlt l ->
  l = filter (fun s => Qle_bool s t) l ++ filter (fun s => negb (Qle_bool s t)) l
  /\ (forall s, In s (filter (fun s => negb (Qle_bool s t)) l) -> t < s).
Proof.
  intro S. split.
  - induction l as [| a l IH]; simpl; auto.
    inversion S as [| ? ? Sl Fa]; subst.
    destruct (Qle_bool a t) eqn:E; simpl.
    + f_equal. now apply IH.
    + assert (Ha : ~ a <= t).
      { intro Le. apply Qle_bool_iff in Le. congruence. }
      assert (N : filter (fun s => Qle_bool s t) l = []).
      { destruct (filter (fun s => Qle_bool s t) l) as [| b r] eqn:F; auto.
        assert (Hb : In b (filter (fun s => Qle_bool s t) l)).
        { rewrite F. now left. }
        apply filter_In in Hb. destruct Hb as [Hb1 Hb2].
        apply Qle_bool_iff in Hb2.
        rewrite Forall_forall in Fa. specialize (Fa b Hb1).
        exfalso. apply Ha. lra. }
      rewrite N in *. simpl. f_equal. simpl in IH. now apply IH.
  - intros s Hs. apply filter_In in Hs. destruct Hs as [_ Hs].
    apply negb_true_iff in Hs.
    apply Qnot_le_lt. intro Le. apply Qle_bool_iff in Le. congruence.
Qed.

End KaplanMeierFacts.

(** ** Totals *)

Module WeightFacts.

Import KaplanMeier KaplanMeierFacts Weights.

Lemma total_cons {A} (h : A -> Q) (x : A) (l : list A) :
  total h (x :: l) = h x + total h l.
Proof. reflexivity. Qed.

Lemma total_ext {A} (h k : A -> Q) (l : list A) :
  (forall x, In x l -> h x == k x) -> total h l == total k l.
Proof. apply Qsum_map_ext_in. Qed.

Lemma total_le {A} (h k : A -> Q) (l : list A) :
  (forall x, In x l -> h x <= k x) -> total h l <= total k l.
Proof. apply Qsum_map_le. Qed.

Lemma total_nonneg {A} (h : A -> Q) (l : list A) :
  (forall x, In x l -> 0 <= h x) -> 0 <= total h l.
Proof. apply Qsum_map_nonneg. Qed.

Lemma total_plus {A} (h k : A -> Q) (l : list A) :
  total (fun x => h x + k x) l == total h l + total k l.
Proof.
  induction l as [| a l IH]; simpl.
  - reflexivity.
  - rewrite !total_cons, IH. ring.
Qed.

Lemma total_scale {A} (c : Q) (h : A -> Q) (l : list A) :
  total (fun x => h x * c) l == total h l * c.
Proof.
  induction l as [| a l IH]; simpl.
  - unfold total. simpl. ring.
  - rewrite !total_cons, IH. ring.
Qed.

Lemma ind_range (b : bool) : 0 <= ind b <= 1.
Proof. destruct b; simpl; lra. Qed.

(** A total of indicators is at least one as soon as one of them holds. *)
Lemma total_ind_ge_one {A} (p : A -> bool) (l : list A) (x : A) :
  In x l -> p x = true -> 1 <= total (fun y => ind (p y)) l.
Proof.
  induction l as [| a l IH]; simpl; intros Hin Hp.
  - contradiction.
  - rewrite total_cons.
    assert (N : 0 <= total (fun y => ind (p y)) l).
    { apply total_nonneg. intros. apply ind_range. }
    destruct Hin as [-> | Hin].
    + rewrite Hp. simpl. lra.
    + specialize (IH Hin Hp). pose proof (ind_range (p a)). lra.
Qed.

(** A total of indicators that is zero has no indicator that holds. *)
Lemma total_ind_zero {A} (p : A -> bool) (l : list A) (x : A) :
  total (fun y => ind (p y)) l == 0 -> In x l -> p x = false.
Proof.
  intros Z Hin. destruct (p x) eqn:E; auto.
  pose proof (total_ind_ge_one p l x Hin E). lra.
Qed.

(** A count is the total of the indicator. *)
Lemma count_total {A} (p : A -> bool) (l : list A) :
  count p l == total (fun x => ind (p x)) l.
Proof.
  unfold count. induction l as [| a l IH]; simpl.
  - reflexivity.
  - rewrite total_cons. destruct (p a); simpl.
    + rewrite <- IH. rewrite Zpos_P_of_succ_nat.
      unfold Z.succ. rewrite inject_Z_plus. ring.
    + rewrite <- IH. ring.
Qed.

Lemma total_map {A B} (h : B -> Q) (k : A -> B) (l : list A) :
  total h (map k l) = total (fun x => h (k x)) l.
Proof. unfold total. now rewrite map_map. Qed.

Lemma map_fst_combine {A B} (a : list A) (b : list B) :
  length b = length a -> map fst (combine a b) = a.
Proof.
  revert b. induction a as [| x a IH]; intros [| y b] L; simpl in *;
    try discriminate; auto.
  f_equal. apply IH. lia.
Qed.

Lemma combine_one_minus (d : list Q) (e : list bool) :
  combine d (one_minus e)
    = map (fun x => (fst x, (1 - Z.b2z (snd x))%Z)) (combine d e).
Proof.
  unfold one_minus. revert e.
  induction d as [| x d IH]; intros [| y e]; simpl; auto.
  now rewrite IH.
Qed.

End WeightFacts.

(** ** The weights add up to the sample size *)

Module PotentialFacts.

Import KaplanMeier KaplanMeierFacts Weights WeightFacts.

Section Along.

Variable d : list Q.
Variable e : list bool.
Hypothesis Hlen : length e = length d.

Lemma subj_duration (x : Q * bool) : In x (subj d e) -> In (fst x) d.
Proof.
  intro H. unfold subj in H. destruct x as [T ev].
  apply in_combine_l in H. exact H.
Qed.

(** The counts of the estimator as totals over the subjects. *)
Lemma at_risk_total (s : Q) :
  at_risk d s == total (fun x => ind (Qle_bool s (fst x))) (subj d e).
Proof.
  unfold at_risk. rewrite count_total.
  rewrite <- (map_fst_combine d e Hlen) at 1.
  rewrite total_map. reflexivity.
Qed.

Lemma observed_at_total (s : Q) :
  observed_at d (one_minus e) s == censored_at d e s.
Proof.
  unfold observed_at, censored_at. rewrite count_total, combine_one_minus.
  rewrite total_map. apply total_ext. intros [T ev] _. simpl.
  destruct ev; simpl; reflexivity.
Qed.

Lemma total_ones {A} (l : list A) :
  total (fun _ => 1) l == inject_Z (Z.of_nat (length l)).
Proof.
  induction l as [| a l IH].
  - reflexivity.
  - rewrite total_cons, IH. simpl length.
    rewrite Nat2Z.inj_succ. unfold Z.succ. rewrite inject_Z_plus. ring.
Qed.

Lemma sample_size : total (fun _ => 1) (subj d e) == inject_Z (Z.of_nat (length d)).
Proof.
  rewrite total_ones. unfold subj. rewrite length_combine, Hlen, Nat.min_id.
  reflexivity.
Qed.

(** The curve takes one value on the representations of one time. *)
Lemma G_proper (T s : Q) : T == s -> G d e T = G d e s.
Proof.
  intro H. unfold G, survival. f_equal. f_equal.
  apply filter_ext. intro x. apply Qleb_comp; [reflexivity | exact H].
Qed.

Lemma g_snoc (pre : list Q) (s : Q) : g d e (pre ++ [s]) == g d e pre * f d e s.
Proof.
  unfold g. induction pre as [| a pre IH]; simpl.
  - ring.
  - rewrite IH. ring.
Qed.

Section Step.

Variables (pre post : list Q) (s : Q).
Hypothesis Hsplit : timeline d = pre ++ s :: post.

Lemma split_sorted : StronglySorted Qlt (pre ++ s :: post).
Proof. rewrite <- Hsplit. apply timeline_sorted. Qed.

Lemma before_s (y : Q) : In y pre -> y < s.
Proof.
  intro H. apply (sorted_app_lt pre (s :: post) split_sorted); [exact H | now left].
Qed.

Lemma after_s (y : Q) : In y post -> s < y.
Proof.
  intro H.
  pose proof (sorted_app_r _ _ split_sorted) as S.
  inversion S as [| ? ? _ F]; subst.
  rewrite Forall_forall in F. now apply F.
Qed.

(** The times up to [s] are [pre] and [s]. *)
Lemma filter_up_to_s :
  filter (fun x => Qle_bool x s) (timeline d) = pre ++ [s].
Proof.
  rewrite Hsplit, filter_app. f_equal.
  - apply forallb_filter_id. apply forallb_forall. intros y Hy.
    apply Qle_bool_iff. pose proof (before_s y Hy). lra.
  - simpl. rewrite (proj2 (Qle_bool_iff s s) (Qle_refl s)). f_equal.
    destruct (filter (fun x => Qle_bool x s) post) as [| b r] eqn:F; auto.
    assert (Hb : In b (filter (fun x => Qle_bool x s) post)).
    { rewrite F. now left. }
    apply filter_In in Hb. destruct Hb as [Hb1 Hb2].
    apply Qle_bool_iff in Hb2. pose proof (after_s b Hb1). lra.
Qed.

Lemma G_at_s : G d e s == g d e pre * f d e s.
Proof.
  unfold G, survival. rewrite filter_up_to_s. apply g_snoc.
Qed.

Lemma not_seen_before (T : Q) : T == s -> seen pre T = false.
Proof.
  intro H. destruct (seen pre T) eqn:E; auto.
  apply seen_true_iff in E. destruct E as [y [Hy Ty]].
  pose proof (before_s y Hy). lra.
Qed.

(** Still under observation at [s] means: not processed before [s]. *)
Lemma at_risk_is_unseen (x : Q * bool) :
  In x (subj d e) -> Qle_bool s (fst x) = negb (seen pre (fst x)).
Proof.
  intro Hx. pose proof (duration_on_timeline d (fst x) (subj_duration x Hx)) as Hs.
  rewrite Hsplit, seen_app in Hs.
  destruct (seen pre (fst x)) eqn:E; simpl.
  - apply seen_true_iff in E. destruct E as [y [Hy Ty]].
    pose proof (before_s y Hy).
    destruct (Qle_bool s (fst x)) eqn:L; auto.
    apply Qle_bool_iff in L. lra.
  - rewrite orb_false_l in Hs.
    apply seen_true_iff in Hs. destruct Hs as [y [Hy Ty]].
    apply Qle_bool_iff. destruct Hy as [<- | Hy].
    + lra.
    + pose proof (after_s y Hy). lra.
Qed.

Lemma at_risk_unseen : at_risk d s == unseen d e pre.
Proof.
  rewrite at_risk_total. unfold unseen. apply total_ext.
  intros x Hx. now rewrite at_risk_is_unseen.
Qed.

Lemma at_risk_positive : 1 <= at_risk d s.
Proof.
  assert (Hs : In s (timeline d)).
  { rewrite Hsplit. apply in_or_app. right. now left. }
  destruct (timeline_from_durations d s Hs) as [T [HT sT]].
  unfold at_risk. rewrite count_total.
  apply (total_ind_ge_one (fun y => Qle_bool s y) d T HT).
  apply Qle_bool_iff. lra.
Qed.

(** Processing [s] takes the subjects censored at [s] and the subjects
    with the event at [s] out of the unseen ones. *)
Lemma unseen_snoc :
  unseen d e (pre ++ [s]) + censored_at d e s + dying_at d e s == unseen d e pre.
Proof.
  unfold unseen, censored_at, dying_at.
  rewrite <- !total_plus. apply total_ext. intros [T ev] Hx. simpl.
  rewrite seen_app. unfold seen at 2. simpl. rewrite orb_false_r.
  destruct (Qeq_bool T s) eqn:E.
  - apply Qeq_bool_iff in E. rewrite (not_seen_before T E).
    destruct ev; simpl; ring.
  - rewrite orb_false_r. destruct (seen pre T); simpl; ring.
Qed.

Lemma dead_snoc :
  dead d e (pre ++ [s]) == dead d e pre + dying_at d e s * / G d e s.
Proof.
  unfold dead, dying_at.
  rewrite <- total_scale, <- total_plus. apply total_ext.
  intros [T ev] Hx. simpl.
  rewrite seen_app. unfold seen at 2. simpl. rewrite orb_false_r.
  destruct (Qeq_bool T s) eqn:E.
  - apply Qeq_bool_iff in E.
    rewrite (not_seen_before T E), (G_proper T s E).
    destruct ev; simpl; ring.
  - rewrite orb_false_r. simpl. ring.
Qed.

Lemma factor_at_s : f d e s == 1 - censored_at d e s / at_risk d s.
Proof.
  unfold f, factor. now rewrite observed_at_total.
Qed.

End Step.

Lemma unseen_nonneg (pre : list Q) : 0 <= unseen d e pre.
Proof. apply total_nonneg. intros. apply ind_range. Qed.

Lemma censored_nonneg (s : Q) : 0 <= censored_at d e s.
Proof. apply total_nonneg. intros. apply ind_range. Qed.

Lemma dying_nonneg (s : Q) : 0 <= dying_at d e s.
Proof. apply total_nonneg. intros. apply ind_range. Qed.

End Along.

(** The step of the argument, as arithmetic. *)
Lemma step_all_censored (n dead0 U g0 R C D U' f0 g' dead' Gs : Q) :
  0 < g0 -> dead0 + U / g0 == n -> R == U -> 1 <= R ->
  U' + C + D == U -> 0 <= U' -> 0 <= D -> C == R ->
  f0 == 1 - C / R -> g' == g0 * f0 -> dead' == dead0 + D * / Gs ->
  g' == 0 /\ U' == 0 /\ D == 0 /\ dead' <= n.
Proof.
  intros Hg Hn HR R1 HU U0 D0 HC Hf Hg' Hd.
  assert (Df : D == 0) by lra.
  assert (Uf : U' == 0) by lra.
  assert (F0 : f0 == 0).
  { rewrite Hf, HC. field. lra. }
  repeat split; auto.
  - rewrite Hg', F0. ring.
  - rewrite Hd, Df, <- Hn.
    assert (0 <= U / g0).
    { apply Qle_shift_div_l; lra. }
    lra.
Qed.

Lemma step_some_left (n dead0 U g0 R C D U' f0 g' dead' Gs : Q) :
  0 < g0 -> dead0 + U / g0 == n -> R == U -> 1 <= R ->
  U' + C + D == U -> C < R ->
  f0 == 1 - C / R -> g' == g0 * f0 -> Gs == g0 * f0 ->
  dead' == dead0 + D * / Gs ->
  0 < g' /\ 0 < Gs /\ dead' + U' / g' == n.
Proof.
  intros Hg Hn HR R1 HU HC Hf Hg' HGs Hd.
  assert (Fp : 0 < f0).
  { rewrite Hf. apply Qlt_minus_iff.
    setoid_replace (1 - C / R + - 0) with ((R - C) / R) by (field; lra).
    apply Qlt_shift_div_l; lra. }
  assert (Gp : 0 < g0 * f0) by (apply Qmult_lt_0_compat; assumption).
  split; [rewrite Hg'; exact Gp |].
  split; [rewrite HGs; exact Gp |].
  assert (EU : U' == R - C - D) by lra.
  rewrite Hd, HGs, Hg', Hf, EU, <- Hn, <- HR.
  field. split; [| split]; lra.
Qed.

Section Potential.

Variable d : list Q.
Variable e : list bool.
Hypothesis Hlen : length e = length d.

(** After any prefix of the timeline: the subjects with an event at a
    processed time have a positive censoring-curve value, and either the
    curve is still positive and the weights add up to the sample size, or
    the curve has reached zero, nobody is left, and the weights so far are
    at most the sample size. *)
Lemma potential (pre post : list Q) :
  timeline d = pre ++ post ->
  (forall x, In x (subj d e) -> seen pre (fst x) = true -> snd x = true ->
             0 < G d e (fst x))
  /\ ((0 < g d e pre
       /\ dead d e pre + unseen d e pre / g d e pre == total (fun _ => 1) (subj d e))
      \/ (g d e pre == 0 /\ unseen d e pre == 0
          /\ dead d e pre <= total (fun _ => 1) (subj d e))).
Proof.
  revert post. induction pre as [| s pre IH] using rev_ind; intros post Hsplit.
  - split.
    + intros x _ Hs. discriminate.
    + left. split; [reflexivity |].
      assert (D0 : dead d e [] == 0).
      { unfold dead. rewrite (total_ext _ (fun _ => 0)).
        - clear. induction (subj d e) as [| a l IHl]; [reflexivity |].
          rewrite total_cons, IHl. ring.
        - intros x _. simpl. ring. }
      assert (U0 : unseen d e [] == total (fun _ => 1) (subj d e)).
      { unfold unseen. apply total_ext. intros x _. reflexivity. }
      rewrite D0, U0. unfold g. simpl. field.
  - rewrite <- app_assoc in Hsplit. simpl in Hsplit.
    destruct (IH (s :: post) Hsplit) as [Pos Inv].
    pose proof (at_risk_unseen d e Hlen pre post s Hsplit) as HR.
    pose proof (at_risk_positive d pre post s Hsplit) as R1.
    pose proof (unseen_snoc d e pre post s Hsplit) as HU.
    pose proof (dead_snoc d e pre post s Hsplit) as Hd.
    pose proof (factor_at_s d e s) as Hf.
    pose proof (g_snoc d e pre s) as Hg'.
    pose proof (G_at_s d e pre post s Hsplit) as HGs.
    pose proof (unseen_nonneg d e (pre ++ [s])) as U0.
    pose proof (censored_nonneg d e s) as C0.
    pose proof (dying_nonneg d e s) as D0.
    destruct Inv as [[Hg Hn] | [Hg [Hu _]]]; [| exfalso; lra].
    destruct (Qeq_dec (censored_at d e s) (at_risk d s)) as [HC | HC].
    + destruct (step_all_censored _ _ _ _ _ _ _ _ _ _ _ (G d e s)
                  Hg Hn HR R1 HU U0 D0 HC Hf Hg' Hd) as [Z [Uz [Dz Le]]].
      split; [| right; auto].
      intros [T ev] Hx Hs Hev. simpl in *. subst ev.
      rewrite seen_app in Hs. apply orb_true_iff in Hs.
      destruct Hs as [Hs | Hs]; [exact (Pos (T, true) Hx Hs eq_refl) |].
      exfalso. unfold seen in Hs. simpl in Hs. rewrite orb_false_r in Hs.
      pose proof (total_ind_zero (fun y => Qeq_bool (fst y) s && snd y)
                    (subj d e) (T, true) Dz Hx) as N.
      simpl in N. rewrite Hs in N. discriminate.
    + assert (HC' : censored_at d e s < at_risk d s) by lra.
      destruct (step_some_left _ _ _ _ _ _ _ _ _ _ _ _
                  Hg Hn HR R1 HU HC' Hf Hg' HGs Hd) as [Gp [Gsp E]].
      split; [| left; auto].
      intros [T ev] Hx Hs Hev. simpl in *.
      rewrite seen_app in Hs. apply orb_true_iff in Hs.
      destruct Hs as [Hs | Hs]; [exact (Pos (T, ev) Hx Hs Hev) |].
      unfold seen in Hs. simpl in Hs. rewrite orb_false_r in Hs.
      apply Qeq_bool_iff in Hs. now rewrite (G_proper d e T s Hs).
Qed.

End Potential.

Section AtTime.

Variable d : list Q.
Variable e : list bool.
Hypothesis Hlen : length e = length d.
Variable t : Q.

Lemma timeline_split_at : timeline d = (processed d t) ++ (pending d t).
Proof. apply (sorted_filter_split t (timeline d) (timeline_sorted d)). Qed.

Lemma G_at_time : G d e t = g d e (processed d t).
Proof. reflexivity. Qed.

(** The processed subjects are those with a duration up to [t]. *)
Lemma seen_up_to (x : Q * bool) :
  In x (subj d e) -> seen (processed d t) (fst x) = Qle_bool (fst x) t.
Proof.
  intro Hx. apply eq_true_iff_eq. rewrite seen_true_iff, Qle_bool_iff.
  split.
  - intros [y [Hy Ty]]. apply filter_In in Hy. destruct Hy as [_ Hy].
    apply Qle_bool_iff in Hy. lra.
  - intro Le.
    pose proof (duration_on_timeline d (fst x) (subj_duration d e x Hx)) as Hs.
    apply seen_true_iff in Hs. destruct Hs as [y [Hy Ty]].
    exists y. split; [| exact Ty].
    apply filter_In. split; [exact Hy |]. apply Qle_bool_iff. lra.
Qed.

(** A subject that had the event has a positive censoring-curve value at
    its own duration. *)
Lemma own_weight_positive (x : Q * bool) :
  In x (subj d e) -> Qle_bool (fst x) t = true -> snd x = true ->
  0 < G d e (fst x).
Proof.
  intros Hx Le Ev.
  apply (proj1 (potential d e Hlen (processed d t) (pending d t) timeline_split_at) x Hx);
    [| exact Ev].
  now rewrite seen_up_to.
Qed.

(** While somebody is still under observation after [t], the censoring
    curve is positive at [t]. *)
Lemma weight_positive_while_observed (x : Q * bool) :
  In x (subj d e) -> Qgtb (fst x) t = true -> 0 < G d e t.
Proof.
  intros Hx Gt. rewrite G_at_time.
  destruct (proj2 (potential d e Hlen (processed d t) (pending d t) timeline_split_at))
    as [[Hg _] | [_ [Hu _]]]; [exact Hg |].
  exfalso.
  pose proof (total_ind_zero (fun y => negb (seen (processed d t) (fst y)))
                (subj d e) x Hu Hx) as N.
  simpl in N. rewrite (seen_up_to x Hx) in N.
  unfold Qgtb, Qltb in Gt. congruence.
Qed.

(** The largest possible weights add up to at most the sample size. *)
Lemma bounds_total :
  total (bound d e t) (subj d e) <= inject_Z (Z.of_nat (length d)).
Proof.
  rewrite <- (sample_size d e Hlen).
  assert (E : total (bound d e t) (subj d e)
              == dead d e (processed d t) + unseen d e (processed d t) * / g d e (processed d t)).
  { unfold dead, unseen. rewrite <- total_scale, <- total_plus.
    apply total_ext. intros x Hx.
    rewrite (seen_up_to x Hx). unfold bound, Qgtb, Qltb.
    rewrite G_at_time.
    destruct (Qle_bool (fst x) t), (snd x); simpl; ring. }
  rewrite E.
  destruct (proj2 (potential d e Hlen (processed d t) (pending d t) timeline_split_at))
    as [[Hg Hn] | [_ [Hu Hd]]].
  - rewrite <- Hn. unfold Qdiv. lra.
  - rewrite Hu. lra.
Qed.

End AtTime.

End PotentialFacts.

(** ** The range of the Brier score *)

Module BrierFacts.

Import KaplanMeier KaplanMeierFacts Weights WeightFacts PotentialFacts.

Lemma sequence_map_return {A B} (h : A -> outcome B) (k : A -> B) (l : list A) :
  (forall x, In x l -> h x = Return (k x)) ->
  sequence (map h l) = Return (map k l).
Proof.
  induction l as [| a l IH]; intro H; simpl.
  - reflexivity.
  - rewrite (H a (or_introl eq_refl)), IH; [reflexivity |].
    intros x Hx. apply H. now right.
Qed.

(** Every training duration is found on the fitted curve. *)
Lemma km_censor_at_durations (d : list Q) (obs : list Z) :
  sequence (map (survival_function_loc (fit d obs)) d)
    = Return (map (fun T => Fin (survival d obs T)) d).
Proof.
  apply sequence_map_return. intros T HT. simpl.
  now rewrite (duration_on_timeline d T HT).
Qed.

(** The subjects of four arrays carry the entries of the arrays. *)
Lemma subjects_in (F : Q -> fnum) d e row (s : ScoreSpec.subject) :
  In s (ScoreSpec.subjects d e row (map F d)) ->
  In (ScoreSpec.duration s, ScoreSpec.event s) (combine d e)
  /\ In (ScoreSpec.prob s) row
  /\ ScoreSpec.km_own s = F (ScoreSpec.duration s).
Proof.
  revert e row.
  induction d as [| T d IH]; intros [| ev e] [| x row]; simpl; try tauto.
  intros [<- | Hin].
  - simpl. auto.
  - destruct (IH e row Hin) as [H1 [H2 H3]]. auto.
Qed.

Lemma subjects_pairs (F : Q -> fnum) d e row :
  length e = length d -> length row = length d ->
  map (fun s => (ScoreSpec.duration s, ScoreSpec.event s))
      (ScoreSpec.subjects d e row (map F d))
    = combine d e.
Proof.
  revert e row.
  induction d as [| T d IH]; intros [| ev e] [| x row] Le Lr; simpl in *;
    try discriminate; auto.
  f_equal. apply IH; lia.
Qed.

(** A weighted term is at most the weight. *)
Lemma weighted_term (a w : Q) :
  0 <= a <= 1 -> 0 < w -> 0 <= a / w <= / w.
Proof.
  intros [A0 A1] W.
  assert (I : 0 < / w) by now apply Qinv_lt_0_compat.
  unfold Qdiv. split.
  - apply Qmult_le_0_compat; lra.
  - setoid_replace (/ w) with (1 * / w) at 2 by ring.
    apply Qmult_le_compat_r; lra.
Qed.

Lemma square_in_unit (p : Q) : 0 <= p <= 1 -> 0 <= p * p <= 1.
Proof. intros [P0 P1]. split; nra. Qed.

(** A sum of finite terms, each under its bound. *)
Lemma fsum_bounded {A} (h : A -> fnum) (b : A -> Q) (l : list A) :
  (forall x, In x l -> exists q, h x = Fin q /\ 0 <= q <= b x) ->
  exists q, ScoreSpec.fsum (map h l) = Fin q /\ 0 <= q <= total b l.
Proof.
  induction l as [| a l IH]; intro H.
  - exists 0. split; [reflexivity |]. unfold total. simpl. lra.
  - destruct (H a (or_introl eq_refl)) as [qa [Ea Ba]].
    destruct IH as [ql [El Bl]].
    { intros x Hx. apply H. now right. }
    exists (qa + ql). split.
    + simpl. rewrite Ea. simpl in El. rewrite El. reflexivity.
    + rewrite total_cons. lra.
Qed.

Section OneTime.

Variable d : list Q.
Variable e : list bool.
Hypothesis Hlen : length e = length d.
Hypothesis Hne : d <> [].
Variable t : Q.

(** What one subject adds is finite and at most its largest weight. *)
Lemma contribution_bounded row (s : ScoreSpec.subject) :
  Forall in_unit_interval row ->
  In s (ScoreSpec.subjects d e row (map (km d e) d)) ->
  exists q,
    ScoreSpec.brier_contribution t ((km d e) t) s = Fin q
    /\ 0 <= q <= bound d e t (ScoreSpec.duration s, ScoreSpec.event s).
Proof.
  intros Hrow Hs.
  destruct (subjects_in (km d e) d e row s Hs) as [Hpair [Hp Hk]].
  rewrite Forall_forall in Hrow. destruct (Hrow _ Hp) as [p [Ep Rp]].
  unfold ScoreSpec.brier_contribution, bound. rewrite Hk, Ep. simpl fst. simpl snd.
  destruct (Qle_bool (ScoreSpec.duration s) t && ScoreSpec.event s) eqn:Died.
  - apply andb_true_iff in Died. destruct Died as [Le Ev].
    pose proof (own_weight_positive d e Hlen t _ Hpair Le Ev) as W.
    simpl in W. unfold G in W.
    unfold km, fsq, fmul, fdiv.
    assert (NZ : Qeq_bool (survival d (one_minus e) (ScoreSpec.duration s)) 0 = false).
    { apply Qeq_bool_false_iff. lra. }
    rewrite NZ. eexists. split; [reflexivity |].
    apply weighted_term; [now apply square_in_unit | exact W].
  - destruct (Qgtb (ScoreSpec.duration s) t) eqn:Alive.
    + pose proof (weight_positive_while_observed d e Hlen t _ Hpair Alive) as W.
      unfold G in W.
      unfold km, fsq, fsub, fmul, fdiv.
      assert (NZ : Qeq_bool (survival d (one_minus e) t) 0 = false).
      { apply Qeq_bool_false_iff. lra. }
      rewrite NZ. eexists. split; [reflexivity |].
      apply weighted_term; [apply square_in_unit; lra | exact W].
    + exists 0. split; [reflexivity | lra].
Qed.

(** The score of one time lies in [0, 1]. *)
Lemma compute_score_in_unit row :
  length row = length d ->
  Forall in_unit_interval row ->
  in_unit_interval (brier_compute_score d e (map (km d e) d) t ((km d e) t) row).
Proof.
  intros Lr Hrow.
  pose proof (brier_compute_score_spec t ((km d e) t) d e row (map (km d e) d)
                Hlen Lr (length_map (km d e) d)) as Spec.
  unfold ScoreSpec.brier_at in Spec.
  destruct (fsum_bounded (ScoreSpec.brier_contribution t ((km d e) t))
              (fun s => bound d e t (ScoreSpec.duration s, ScoreSpec.event s))
              (ScoreSpec.subjects d e row (map (km d e) d)))
    as [q [Eq [Q0 Q1]]].
  { intros s Hs. now apply (contribution_bounded row). }
  rewrite Eq in Spec.
  assert (T : total (fun s => bound d e t (ScoreSpec.duration s, ScoreSpec.event s))
                (ScoreSpec.subjects d e row (map (km d e) d))
              = total (bound d e t) (subj d e)).
  { rewrite <- (total_map (bound d e t)
                  (fun s => (ScoreSpec.duration s, ScoreSpec.event s))).
    now rewrite (subjects_pairs (km d e) d e row Hlen Lr). }
  rewrite T in Q1.
  pose proof (bounds_total d e Hlen t) as B.
  unfold flen in Spec.
  rewrite (subjects_length d e row (map (km d e) d) Hlen Lr (length_map (km d e) d)) in Spec.
  set (n := inject_Z (Z.of_nat (length d))) in *.
  assert (N : 1 <= n).
  { unfold n. destruct d as [| a l]; [congruence |].
    simpl length. rewrite Nat2Z.inj_succ. unfold Z.succ.
    rewrite inject_Z_plus.
    assert (0 <= inject_Z (Z.of_nat (length l))).
    { change 0 with (inject_Z 0). rewrite <- Zle_Qle. lia. }
    change (inject_Z 1) with 1. lra. }
  unfold fdiv in Spec.
  assert (NZ : Qeq_bool n 0 = false) by (apply Qeq_bool_false_iff; lra).
  rewrite NZ in Spec.
  destruct (brier_compute_score d e (map (km d e) d) t ((km d e) t) row) as [r |];
    simpl in Spec; [| contradiction].
  exists r. split; [reflexivity |]. rewrite Spec. split.
  - apply Qle_shift_div_l; lra.
  - apply Qle_shift_div_r; lra.
Qed.

End OneTime.

(** From its start on the fitted curve has a value at every time. *)
Lemma predict_on_curve (d : list Q) (obs : list Z) (t : Q) :
  before_start d t = false -> predict (fit d obs) t = Fin (survival d obs t).
Proof. intro H. simpl. now rewrite H. Qed.

(** Before its start it has none. *)
Lemma predict_before_start (d : list Q) (obs : list Z) (t : Q) :
  before_start d t = true -> predict (fit d obs) t = NonFin.
Proof. intro H. simpl. now rewrite H. Qed.

Lemma predict_times_on_curve (d : list Q) (obs : list Z) (times : list Q) :
  on_curve d times ->
  map (predict (fit d obs)) times = map (fun t => Fin (survival d obs t)) times.
Proof.
  intro C. apply map_ext_in. intros t Ht.
  apply predict_on_curve. exact (proj1 (Forall_forall _ _) C t Ht).
Qed.

Lemma brier_rows_in_unit d e (times : list Q) (p : list (list fnum)) :
  length e = length d -> d <> [] ->
  Forall (fun row => length row = length d) p ->
  Forall (Forall in_unit_interval) p ->
  Forall in_unit_interval
    (map2 (fun tk pa =>
             brier_compute_score d e
               (map (fun T => Fin (survival d (one_minus e) T)) d)
               (fst tk) (snd tk) pa)
          (combine times (map (km d e) times)) p).
Proof.
  intros Le Ne. revert p.
  induction times as [| t times IH]; intros [| row p] L U; simpl;
    try constructor.
  - inversion L; inversion U; subst.
    now apply (compute_score_in_unit d e Le Ne t row).
  - inversion L; inversion U; subst. now apply IH.
Qed.

(** What [brier_score] returns with the Kaplan-Meier curve when no time
    lies before the start of the curve. *)
Lemma brier_score_on_curve times p d e :
  has_shape p (length (as_iterable times)) (length d) = true ->
  d <> [] -> length e = length d ->
  on_curve d (as_iterable times) ->
  length (as_iterable times) <> 1%nat ->
  brier_score KaplanMeier.fit times p d e
  = Return (map2 (fun tk pa =>
                    brier_compute_score d e (map (km d e) d) (fst tk) (snd tk) pa)
                 (combine (as_iterable times) (map (km d e) (as_iterable times)))
                 p).
Proof.
  intros S Ne Le C N.
  rewrite (brier_score_runs KaplanMeier.fit times p d e _ S Ne Le
             (km_censor_at_durations d (one_minus e)) N).
  now rewrite (predict_times_on_curve d (one_minus e) _ C).
Qed.

Lemma brier_score_range times p d e :
  valid_brier_input times p d e ->
  (length (as_iterable times) <> 1%nat ->
   exists scores, brier_score KaplanMeier.fit times p d e = Return scores)
  /\ (forall scores,
        brier_score KaplanMeier.fit times p d e = Return scores ->
        length scores = length (as_iterable times)
        /\ Forall in_unit_interval scores).
Proof.
  intros [S Le Ne C U]. split.
  - intro N. rewrite (brier_score_on_curve times p d e S Ne Le C N).
    eexists. reflexivity.
  - intros scores E. split; [exact (brier_score_length _ _ _ _ _ _ E) |].
    destruct (Nat.eq_dec (length (as_iterable times)) 1) as [One | N].
    + rewrite (proj1 (single_time_raises KaplanMeier.fit (fun _ => NonFin)
                        times p d e 0 _ S Ne Le
                        (km_censor_at_durations d (one_minus e)) One)) in E.
      discriminate E.
    + rewrite (brier_score_on_curve times p d e S Ne Le C N) in E.
      inversion E. apply brier_rows_in_unit; auto.
      apply Forall_forall. intros row Hin.
      exact (has_shape_cols _ _ _ _ S Hin).
Qed.

End BrierFacts.

(** ** The Brier score on concrete inputs *)

Ltac unit_entries :=
  repeat (apply Forall_cons || apply Forall_nil);
  try (eexists; split; [reflexivity | split; vm_compute; discriminate]).

Lemma score_example_valid :
  valid_brier_input (Iterable ScoreExamples.grid) ScoreExamples.prob_alive
    ScoreExamples.durations ScoreExamples.events.
Proof.
  constructor; try reflexivity; try discriminate.
  - repeat constructor.
  - unit_entries.
Qed.

(** Three subjects, three evaluation times, the Kaplan-Meier censoring
    curve. *)
Lemma brier_score_per_time_witness :
  exists scores,
    brier_score KaplanMeier.fit (Iterable ScoreExamples.grid)
      ScoreExamples.prob_alive ScoreExamples.durations ScoreExamples.events
      = Return scores
    /\ Forall2 fnum_eq scores
         (map2 (fun t row =>
                  ScoreSpec.brier_at t
                    (predict (KaplanMeier.fit ScoreExamples.durations
                                (one_minus ScoreExamples.events)) t)
                    (ScoreSpec.subjects ScoreExamples.durations
                       ScoreExamples.events row
                       (map (fun T => Fin (KaplanMeier.survival
                                             ScoreExamples.durations
                                             (one_minus ScoreExamples.events) T))
                            ScoreExamples.durations)))
               ScoreExamples.grid ScoreExamples.prob_alive).
Proof.
  apply (brier_score_per_time KaplanMeier.fit (Iterable ScoreExamples.grid)
           ScoreExamples.prob_alive ScoreExamples.durations ScoreExamples.events).
  - reflexivity.
  - discriminate.
  - reflexivity.
  - vm_compute. reflexivity.
  - discriminate.
Defined.

(** Witness of C6: the call for the one time 2, as a number and as a list,
    on three subjects. *)
Lemma brier_score_single_time_witness :
  brier_score KaplanMeier.fit (Scalar 2)
    [[Fin (1 # 10); Fin (8 # 10); Fin (7 # 10)]]
    ScoreExamples.durations ScoreExamples.events = Raise TypeError
  /\ brier_score KaplanMeier.fit (Iterable [2])
       [[Fin (1 # 10); Fin (8 # 10); Fin (7 # 10)]]
       ScoreExamples.durations ScoreExamples.events = Raise TypeError.
Proof.
  apply (brier_score_single_time KaplanMeier.fit 2
           [Fin (1 # 10); Fin (8 # 10); Fin (7 # 10)]
           ScoreExamples.durations ScoreExamples.events
           (map (fun T => Fin (KaplanMeier.survival ScoreExamples.durations
                                 (one_minus ScoreExamples.events) T))
                ScoreExamples.durations)).
  - reflexivity.
  - discriminate.
  - reflexivity.
  - vm_compute. reflexivity.
Defined.

(** ** C7: the ranges of the two metrics *)

(** C7 (amended). For every valid input and either method, a value that
    [concordance_td] returns lies in [0, 1], and it returns one whenever
    some pair is comparable.  For every input of [brier_score] with all
    entries of [prob_alive] in [0, 1], at least one subject and no
    evaluation time before the start of the fitted Kaplan-Meier censoring
    curve, every score that [brier_score] returns lies in [0, 1] as an
    exact number, there is one score per time, and scores are returned
    whenever the times are not a single one. *)
Theorem metric_ranges durations events surv surv_idx method times prob_alive d e :
  valid_input durations events surv surv_idx ->
  known_method method ->
  valid_brier_input times prob_alive d e ->
  ((forall q, concordance_td durations events surv surv_idx method
                = Return (Float q) -> 0 <= q <= 1)
   /\ (~ Spec.denominator method durations (events_flags events) == 0 ->
       exists q, concordance_td durations events surv surv_idx method
                   = Return (Float q)))
  /\ ((length (as_iterable times) <> 1%nat ->
       exists scores,
         brier_score KaplanMeier.fit times prob_alive d e = Return scores)
      /\ (forall scores,
            brier_score KaplanMeier.fit times prob_alive d e = Return scores ->
            length scores = length (as_iterable times)
            /\ Forall in_unit_interval scores)).
Proof.
  intros V M B. split.
  - now apply concordance_td_range.
  - now apply BrierFacts.brier_score_range.
Qed.

(** Witness of C7. *)
Lemma metric_ranges_witness :
  ((forall q, concordance_td Examples.durations3 Examples.events3 Examples.surv3
                Examples.surv_idx3 "adj_antolini" = Return (Float q) ->
              0 <= q <= 1)
   /\ (~ Spec.denominator "adj_antolini" Examples.durations3
           (events_flags Examples.events3) == 0 ->
       exists q, concordance_td Examples.durations3 Examples.events3
                   Examples.surv3 Examples.surv_idx3 "adj_antolini"
                   = Return (Float q)))
  /\ ((length (as_iterable (Iterable ScoreExamples.grid)) <> 1%nat ->
       exists scores,
         brier_score KaplanMeier.fit (Iterable ScoreExamples.grid)
           ScoreExamples.prob_alive ScoreExamples.durations ScoreExamples.events
         = Return scores)
      /\ (forall scores,
            brier_score KaplanMeier.fit (Iterable ScoreExamples.grid)
              ScoreExamples.prob_alive ScoreExamples.durations ScoreExamples.events
            = Return scores ->
            length scores = length (as_iterable (Iterable ScoreExamples.grid))
            /\ Forall in_unit_interval scores)).
Proof.
  apply (metric_ranges Examples.durations3 Examples.events3 Examples.surv3
           Examples.surv_idx3 "adj_antolini" (Iterable ScoreExamples.grid)
           ScoreExamples.prob_alive ScoreExamples.durations ScoreExamples.events).
  - exact example3_valid.
  - left. reflexivity.
  - exact score_example_valid.
Defined.

(** ** The Brier score on doubles *)

(** For six subjects with the durations 1 to 6, the first and the third
    censored, and the predictions 1, 1, 1, 0, 0, 0 at time 3, the exact
    score is 1: the censoring weights are 5/6 and 5/8.  On doubles, with
    the weights rounded to the next double, lines 43-48 give a number
    above 1 (it is 1.0000000000000002). *)
Lemma brier_score_rounding_exceeds_one :
  (exists q rest,
     brier_score KaplanMeier.fit (Iterable [3; 4]) Float64.exact_prob_alive
       Float64.exact_durations Float64.events = Return (Fin q :: rest)
     /\ q == 1)
  /\ (KaplanMeier.survival Float64.exact_durations (one_minus Float64.events) 2
        == 5 # 6
      /\ KaplanMeier.survival Float64.exact_durations (one_minus Float64.events) 3
           == 5 # 8)
  /\ PrimFloat.ltb Float64.one
       (Float64.compute_score Float64.durations Float64.events
          Float64.km_censor_at_durations Float64.three Float64.five_eighths
          Float64.prob_alive_) = true.
Proof.
  split; [| split; [split |]].
  - eexists. eexists. split; [vm_compute; reflexivity | reflexivity].
  - vm_compute. reflexivity.
  - vm_compute. reflexivity.
  - vm_compute. reflexivity.
Qed.

(** Counterexample to C7 as stated, in two inputs with all entries of
    [prob_alive] in [0, 1].  Three subjects who all had the event, the
    prediction 0.5 throughout, and the evaluation times -1 and 1: the
    censoring curve has no value at -1, every subject is alive then, and
    the score of that time is a NaN, which is not in [0, 1].  And the six
    subjects above, whose score at time 3 is above 1 on doubles. *)
Lemma metric_ranges_counterexample :
  (Forall (Forall in_unit_interval) EarlyExample.prob_alive
   /\ (exists q,
         brier_score KaplanMeier.fit (Iterable EarlyExample.times)
           EarlyExample.prob_alive ScoreExamples.durations BrierExamples.all_events
         = Return [NonFin; Fin q]
         /\ q == 1 # 4)
   /\ ~ in_unit_interval NonFin)
  /\ (Forall (Forall in_unit_interval) Float64.exact_prob_alive
      /\ PrimFloat.ltb Float64.one
           (Float64.compute_score Float64.durations Float64.events
              Float64.km_censor_at_durations Float64.three Float64.five_eighths
              Float64.prob_alive_) = true).
Proof.
  split.
  - split; [unit_entries |]. split.
    + eexists. split; [vm_compute; reflexivity | reflexivity].
    + intros [q [H _]]. discriminate H.
  - split; [unit_entries |].
    exact (proj2 (proj2 brier_score_rounding_exceeds_one)).
Qed.

(** * Further properties of the code *)

(** ** [concordance_td]: errors and edge cases *)

Lemma outcome_eq_raise (x : outcome value) (e : exn) :
  outcome_eq x (Raise e) -> x = Raise e.
Proof.
  destruct x as [[q | e' m] | e']; simpl; try tauto. now intros ->.
Qed.

Lemma truediv_zero (num den : Q) : den == 0 -> truediv num den = Raise ZeroDivisionError.
Proof.
  intro H. unfold truediv. apply Qeq_bool_iff in H. now rewrite H.
Qed.

Lemma Qsum_map_zero {A} (h : A -> Q) (l : list A) :
  (forall x, In x l -> h x == 0) -> Spec.Qsum (map h l) == 0.
Proof.
  induction l as [| a l IH]; intro H; simpl.
  - reflexivity.
  - rewrite (H a (or_introl eq_refl)), IH; [lra |].
    intros x Hx. apply H. now right.
Qed.

Lemma flags_all_zero_get (d : list Z) (i : nat) :
  Forall (fun x => x = 0%Z) d -> getZ d i = 0%Z.
Proof.
  intro F. unfold getZ.
  destruct (nth_in_or_default i d 0%Z) as [In | ->]; auto.
  rewrite Forall_forall in F. auto.
Qed.

Lemma ordered_pairs_small (n : nat) : (n <= 1)%nat -> Spec.ordered_pairs n = [].
Proof.
  intro H. destruct n as [| [| n]]; try reflexivity. lia.
Qed.

(** With no event at all, or with fewer than two subjects, no pair is
    comparable and the division of line 277 / 282 raises. *)
Theorem concordance_td_no_comparable_pair durations events surv surv_idx method :
  matching_shapes durations events surv surv_idx ->
  known_method method ->
  Forall (fun x => x = 0%Z) (events_flags events) \/ (length durations <= 1)%nat ->
  concordance_td durations events surv surv_idx method = Raise ZeroDivisionError.
Proof.
  intros S M H.
  apply outcome_eq_raise.
  rewrite <- (truediv_zero
                (Spec.numerator method durations (events_flags events) surv surv_idx)
                (Spec.denominator method durations (events_flags events))).
  - now apply concordance_td_quotient.
  - unfold Spec.denominator. destruct H as [F | L].
    + apply Qsum_map_zero. intros [i j] _. simpl.
      rewrite !(flags_all_zero_get _ _ F).
      unfold Spec.comparable_of, _is_comparable, _is_comparable_antolini.
      destruct M as [-> | ->]; simpl;
        destruct (Qltb _ _), (Qeq_bool _ _); reflexivity.
    + rewrite (ordered_pairs_small _ L). reflexivity.
Qed.

Lemma concordance_td_no_comparable_pair_witness :
  concordance_td Examples.durations3 MoreExamples.censored3 Examples.surv3
    Examples.surv_idx3 "antolini" = Raise ZeroDivisionError.
Proof.
  apply (concordance_td_no_comparable_pair Examples.durations3
           MoreExamples.censored3 Examples.surv3 Examples.surv_idx3 "antolini").
  - repeat split; reflexivity.
  - right. reflexivity.
  - left. simpl. repeat constructor.
Defined.

(** Arrays whose shapes do not match, with a [surv] of at least one row,
    are refused by the assertion of line 270 whatever the method is, also
    for a method that is not known.  (A [surv] without rows is left out:
    it has columns that a list of rows does not show.) *)
Theorem concordance_td_shape_mismatch durations events surv surv_idx method :
  surv <> [] ->
  ~ matching_shapes durations events surv surv_idx ->
  concordance_td durations events surv surv_idx method = Raise AssertionError.
Proof.
  intros _ N. unfold concordance_td.
  destruct ((length durations =? shape1 surv)%nat
            && (shape1 surv =? length surv_idx)%nat
            && (length surv_idx =? events_len events)%nat) eqn:E.
  - exfalso. apply N.
    apply andb_true_iff in E. destruct E as [E E3].
    apply andb_true_iff in E. destruct E as [E1 E2].
    apply Nat.eqb_eq in E1, E2, E3. repeat split; assumption.
  - reflexivity.
Qed.

Lemma concordance_td_shape_mismatch_witness :
  concordance_td Examples.untied_durations Examples.events3 Examples.surv3
    Examples.surv_idx3 "harrell" = Raise AssertionError.
Proof.
  apply (concordance_td_shape_mismatch Examples.untied_durations
           Examples.events3 Examples.surv3 Examples.surv_idx3 "harrell").
  - discriminate.
  - intros [H _]. discriminate H.
Defined.

(** ** The pairwise predicates *)

(** Under the rule of Antolini at most one order of a pair is comparable;
    under the adjusted rule both orders are comparable exactly when the
    durations are tied and one of the two had the event. *)
Theorem comparability_of_both_orders (t_i t_j : Q) (d_i d_j : bool) :
  (_is_comparable_antolini t_i t_j (Z.b2z d_i) (Z.b2z d_j) = 1%Z ->
   _is_comparable_antolini t_j t_i (Z.b2z d_j) (Z.b2z d_i) = 0%Z)
  /\ (_is_comparable t_i t_j (Z.b2z d_i) (Z.b2z d_j) = 1%Z
      /\ _is_comparable t_j t_i (Z.b2z d_j) (Z.b2z d_i) = 1%Z
      <-> t_i == t_j /\ (d_i = true \/ d_j = true)).
Proof.
  unfold _is_comparable_antolini, _is_comparable.
  split.
  - q_cases t_i t_j; destruct (Qltb t_j t_i) eqn:L';
      destruct (Qeq_bool t_j t_i) eqn:E';
      q_props; try (exfalso; lra);
      destruct d_i, d_j; simpl; intro H;
      first [reflexivity | discriminate H].
  - q_cases t_i t_j; destruct (Qltb t_j t_i) eqn:L';
      destruct (Qeq_bool t_j t_i) eqn:E';
      q_props; try (exfalso; lra);
      destruct d_i, d_j; simpl;
      (split;
       [ intros [A B];
         first [discriminate A | discriminate B | split; [lra | auto]]
       | intros [A [B | B]];
         first [discriminate B | exfalso; lra | auto] ]).
Qed.

Lemma comparability_of_both_orders_witness :
  _is_comparable_antolini 1 2 (Z.b2z true) (Z.b2z false) = 1%Z
  /\ _is_comparable_antolini 2 1 (Z.b2z false) (Z.b2z true) = 0%Z.
Proof.
  split; [reflexivity |].
  apply (proj1 (comparability_of_both_orders 1 2 true false)). reflexivity.
Defined.

(** ** [concordance_td]: rankings *)

(** A perfectly ranked pair counts in full under both methods. *)
Lemma perfect_pair (s_i s_j t_i t_j : Q) (d_i d_j : Z) :
  (d_i = 0 \/ d_i = 1)%Z -> (d_j = 0 \/ d_j = 1)%Z ->
  ~ t_i == t_j ->
  (t_i < t_j -> d_i = 1%Z -> s_i < s_j) ->
  _is_concordant s_i s_j t_i t_j d_i d_j
    == inject_Z (_is_comparable t_i t_j d_i d_j)
  /\ _is_concordant_antolini s_i s_j t_i t_j d_i d_j
     = _is_comparable_antolini t_i t_j d_i d_j.
Proof.
  intros Hi Hj Ht Hs.
  unfold _is_concordant, _is_concordant_antolini, _is_comparable,
    _is_comparable_antolini, Qgtb, Qneb.
  q_cases t_i t_j; q_cases s_i s_j; destruct (Qltb s_j s_i) eqn:L';
    q_props; try (exfalso; lra);
    flag_cases Hi Hj;
    try (exfalso;
         assert (s_i < s_j) by (apply Hs; (assumption || reflexivity)); lra);
    split; closed_q.
Qed.

(** Perfect discrimination: on data without tied durations, when every
    subject with an event has a strictly smaller survival value than
    every subject with a later time, in the row of its own time, the
    index is exactly 1 under both methods. *)
Theorem concordance_td_perfect_ranking durations events surv surv_idx method :
  valid_input durations events surv surv_idx ->
  known_method method ->
  no_tied_durations durations ->
  perfect_ranking durations (events_flags events) surv surv_idx ->
  ~ Spec.denominator method durations (events_flags events) == 0 ->
  exists q, concordance_td durations events surv surv_idx method
              = Return (Float q) /\ q == 1.
Proof.
  intros V M NT P Hden.
  pose proof (concordance_td_quotient _ _ _ _ method
                (valid_matching_shapes _ _ _ _ V) M) as R.
  destruct (outcome_eq_truediv_returns _ _ _ R Hden) as [q [E Hq]].
  exists q. split; [exact E |].
  assert (N : Spec.numerator method durations (events_flags events) surv surv_idx
              == Spec.denominator method durations (events_flags events)).
  { unfold Spec.numerator, Spec.denominator.
    apply Qsum_map_ext_in. intros [i j] Hin.
    apply ordered_pairs_in in Hin. destruct Hin as [Li [Lj Hne]].
    destruct (perfect_pair
                (get2 surv (getZ surv_idx i) i) (get2 surv (getZ surv_idx i) j)
                (getQ durations i) (getQ durations j)
                (getZ (events_flags events) i) (getZ (events_flags events) j))
      as [A B].
    - apply flags_get, (vi_flags _ _ _ _ V).
    - apply flags_get, (vi_flags _ _ _ _ V).
    - exact (NT i j Li Lj Hne).
    - intros Hlt Hd. exact (P i j Li Lj Hne Hlt Hd).
    - unfold Spec.concordant_of, Spec.comparable_of.
      destruct M as [-> | ->]; simpl; [exact A | now rewrite B]. }
  rewrite Hq, N. field. exact Hden.
Qed.

Lemma perfect_example_valid :
  valid_input Examples.durations3 Examples.events3 MoreExamples.perfect_surv
    Examples.surv_idx3.
Proof. concrete_valid. Qed.

Lemma durations3_no_ties : no_tied_durations Examples.durations3.
Proof.
  intros i j Hi Hj Hne. simpl in Hi, Hj.
  destruct i as [| [| [| i]]]; destruct j as [| [| [| j]]]; try lia;
    vm_compute; discriminate.
Qed.

Lemma perfect_example_ranking :
  perfect_ranking Examples.durations3 (events_flags Examples.events3)
    MoreExamples.perfect_surv Examples.surv_idx3.
Proof.
  intros i j Hi Hj Hne Hlt Hd. simpl in Hi, Hj.
  destruct i as [| [| [| i]]]; destruct j as [| [| [| j]]]; try lia;
    try (vm_compute in Hlt; discriminate Hlt);
    try (vm_compute in Hd; discriminate Hd);
    vm_compute; reflexivity.
Qed.

Lemma concordance_td_perfect_ranking_witness :
  exists q, concordance_td Examples.durations3 Examples.events3
              MoreExamples.perfect_surv Examples.surv_idx3 "antolini"
              = Return (Float q) /\ q == 1.
Proof.
  apply (concordance_td_perfect_ranking Examples.durations3 Examples.events3
           MoreExamples.perfect_surv Examples.surv_idx3 "antolini").
  - exact perfect_example_valid.
  - right. reflexivity.
  - exact durations3_no_ties.
  - exact perfect_example_ranking.
  - vm_compute. discriminate.
Defined.

(** Away from tied durations the adjusted rule gives a pair at least what
    the rule of Antolini gives it. *)
Lemma antolini_pair_le (s_i s_j t_i t_j : Q) (d_i d_j : Z) :
  (d_i = 0 \/ d_i = 1)%Z -> (d_j = 0 \/ d_j = 1)%Z ->
  ~ t_i == t_j ->
  _is_comparable t_i t_j d_i d_j = _is_comparable_antolini t_i t_j d_i d_j
  /\ inject_Z (_is_concordant_antolini s_i s_j t_i t_j d_i d_j)
     <= _is_concordant s_i s_j t_i t_j d_i d_j.
Proof.
  intros Hi Hj Ht.
  unfold _is_concordant, _is_concordant_antolini, _is_comparable,
    _is_comparable_antolini, Qgtb, Qneb.
  q_cases t_i t_j; q_cases s_i s_j; destruct (Qltb s_j s_i) eqn:L';
    q_props; try (exfalso; lra);
    flag_cases Hi Hj;
    (split; [reflexivity | vm_compute; intro NotGt; discriminate NotGt]).
Qed.

(** On data without tied durations ['antolini'] never exceeds
    ['adj_antolini'], and the two return together. *)
Theorem concordance_td_antolini_le_adjusted durations events surv surv_idx :
  valid_input durations events surv surv_idx ->
  no_tied_durations durations ->
  ~ Spec.denominator "antolini" durations (events_flags events) == 0 ->
  exists qa qb,
    concordance_td durations events surv surv_idx "antolini" = Return (Float qa)
    /\ concordance_td durations events surv surv_idx "adj_antolini" = Return (Float qb)
    /\ qa <= qb.
Proof.
  intros V NT Hden.
  set (d := events_flags events) in *.
  assert (P : forall i j, In (i, j) (Spec.ordered_pairs (length durations)) ->
    _is_comparable (getQ durations i) (getQ durations j) (getZ d i) (getZ d j)
      = _is_comparable_antolini (getQ durations i) (getQ durations j)
          (getZ d i) (getZ d j)
    /\ inject_Z (_is_concordant_antolini
         (get2 surv (getZ surv_idx i) i) (get2 surv (getZ surv_idx i) j)
         (getQ durations i) (getQ durations j) (getZ d i) (getZ d j))
       <= _is_concordant
            (get2 surv (getZ surv_idx i) i) (get2 surv (getZ surv_idx i) j)
            (getQ durations i) (getQ durations j) (getZ d i) (getZ d j)).
  { intros i j Hin. apply ordered_pairs_in in Hin.
    destruct Hin as [Li [Lj Hne]].
    apply antolini_pair_le.
    - apply flags_get, (vi_flags _ _ _ _ V).
    - apply flags_get, (vi_flags _ _ _ _ V).
    - exact (NT i j Li Lj Hne). }
  assert (D : Spec.denominator "adj_antolini" durations d
              == Spec.denominator "antolini" durations d).
  { unfold Spec.denominator. apply Qsum_map_ext_in. intros [i j] Hin.
    unfold Spec.comparable_of. simpl.
    destruct (P i j Hin) as [-> _]. reflexivity. }
  assert (N : Spec.numerator "antolini" durations d surv surv_idx
              <= Spec.numerator "adj_antolini" durations d surv surv_idx).
  { unfold Spec.numerator. apply Qsum_map_le. intros [i j] Hin.
    unfold Spec.concordant_of. simpl. apply (P i j Hin). }
  assert (Hden' : ~ Spec.denominator "adj_antolini" durations d == 0).
  { rewrite D. exact Hden. }
  pose proof (concordance_td_quotient _ _ _ _ "antolini"
                (valid_matching_shapes _ _ _ _ V) (or_intror eq_refl)) as Ra.
  pose proof (concordance_td_quotient _ _ _ _ "adj_antolini"
                (valid_matching_shapes _ _ _ _ V) (or_introl eq_refl)) as Rb.
  destruct (outcome_eq_truediv_returns _ _ _ Ra Hden) as [qa [Ea Ha]].
  destruct (outcome_eq_truediv_returns _ _ _ Rb Hden') as [qb [Eb Hb]].
  exists qa, qb. split; [exact Ea |]. split; [exact Eb |].
  fold d in Ha, Hb. rewrite Ha, Hb, D.
  destruct (numerator_bounds "antolini" durations d surv surv_idx
              (vi_flags _ _ _ _ V) (or_intror eq_refl)) as [B0 B1].
  assert (Pos : 0 < Spec.denominator "antolini" durations d) by lra.
  unfold Qdiv. apply Qmult_le_compat_r; [exact N |].
  apply Qlt_le_weak. now apply Qinv_lt_0_compat.
Qed.

Lemma concordance_td_antolini_le_adjusted_witness :
  exists qa qb,
    concordance_td Examples.untied_durations Examples.both_events
      Examples.half_surv Examples.row0 "antolini" = Return (Float qa)
    /\ concordance_td Examples.untied_durations Examples.both_events
         Examples.half_surv Examples.row0 "adj_antolini" = Return (Float qb)
    /\ qa <= qb.
Proof.
  apply (concordance_td_antolini_le_adjusted Examples.untied_durations
           Examples.both_events Examples.half_surv Examples.row0).
  - apply untied_example_valid. now left.
  - exact untied_example_no_ties.
  - vm_compute. discriminate.
Defined.

(** ** [concordance_td]: only the order of times and predictions counts *)

Lemma getQ_map (f : Q -> Q) (a : list Q) (i : nat) :
  (i < length a)%nat -> getQ (map f a) i = f (getQ a i).
Proof.
  intro L. unfold getQ.
  rewrite (nth_indep (map f a) 0 (f 0)); [apply map_nth | now rewrite length_map].
Qed.

Lemma get2_map (f : Q -> Q) durations events surv surv_idx (i j : nat) :
  valid_input durations events surv surv_idx ->
  (i < length durations)%nat -> (j < length durations)%nat ->
  get2 (map (map f) surv) (getZ surv_idx i) j = f (get2 surv (getZ surv_idx i) j).
Proof.
  intros [_ Hi _ Hc Hx _] Li Lj.
  unfold get2, getZ, wrap_index. rewrite length_map.
  assert (R : (0 <= nth i surv_idx 0%Z < Z.of_nat (length surv))%Z).
  { rewrite Forall_forall in Hx. apply Hx. apply nth_In. lia. }
  set (k := nth i surv_idx 0%Z) in *.
  assert (Hk : (k <? 0)%Z = false) by (apply Z.ltb_ge; lia).
  rewrite Hk.
  assert (Lk : (Z.to_nat k < length surv)%nat) by lia.
  rewrite (nth_indep (map (map f) surv) [] (map f []));
    [| now rewrite length_map].
  rewrite map_nth. apply getQ_map.
  rewrite Forall_forall in Hc. rewrite (Hc _ (nth_In surv [] Lk)). exact Lj.
Qed.

Lemma predicates_of_times (f : Q -> Q) (s_i s_j t_i t_j : Q) (d_i d_j : Z) :
  order_preserving f ->
  _is_comparable (f t_i) (f t_j) d_i d_j = _is_comparable t_i t_j d_i d_j
  /\ _is_comparable_antolini (f t_i) (f t_j) d_i d_j
     = _is_comparable_antolini t_i t_j d_i d_j
  /\ _is_concordant s_i s_j (f t_i) (f t_j) d_i d_j
     = _is_concordant s_i s_j t_i t_j d_i d_j
  /\ _is_concordant_antolini s_i s_j (f t_i) (f t_j) d_i d_j
     = _is_concordant_antolini s_i s_j t_i t_j d_i d_j.
Proof.
  intro H. destruct (H t_i t_j) as [L E].
  unfold _is_concordant, _is_concordant_antolini, _is_comparable,
    _is_comparable_antolini.
  rewrite L, E. repeat split; reflexivity.
Qed.

Lemma predicates_of_predictions (f : Q -> Q) (s_i s_j t_i t_j : Q) (d_i d_j : Z) :
  order_preserving f ->
  _is_concordant (f s_i) (f s_j) t_i t_j d_i d_j
    = _is_concordant s_i s_j t_i t_j d_i d_j
  /\ _is_concordant_antolini (f s_i) (f s_j) t_i t_j d_i d_j
     = _is_concordant_antolini s_i s_j t_i t_j d_i d_j.
Proof.
  intro H. destruct (H s_i s_j) as [L E]. destruct (H s_j s_i) as [L' _].
  unfold _is_concordant, _is_concordant_antolini, Qgtb, Qneb.
  rewrite L, E, L'. split; reflexivity.
Qed.

(** The index does not change when all durations go through a map that
    keeps their order, for instance a change of the unit of time. *)
Theorem concordance_td_order_of_times (f : Q -> Q)
    durations events surv surv_idx method :
  matching_shapes durations events surv surv_idx ->
  known_method method ->
  order_preserving f ->
  outcome_eq (concordance_td (map f durations) events surv surv_idx method)
             (concordance_td durations events surv surv_idx method).
Proof.
  intros S M F.
  assert (S' : matching_shapes (map f durations) events surv surv_idx).
  { destruct S as [S1 S2]. split; [now rewrite length_map | exact S2]. }
  eapply outcome_eq_trans; [apply (concordance_td_quotient _ _ _ _ _ S' M) |].
  eapply outcome_eq_trans;
    [| apply outcome_eq_sym, (concordance_td_quotient _ _ _ _ _ S M)].
  apply truediv_proper.
  - unfold Spec.numerator. rewrite length_map.
    apply Qsum_map_ext_in. intros [i j] Hin.
    apply ordered_pairs_in in Hin. destruct Hin as [Li [Lj _]]. simpl.
    rewrite !getQ_map by assumption.
    destruct (predicates_of_times f
                (get2 surv (getZ surv_idx i) i) (get2 surv (getZ surv_idx i) j)
                (getQ durations i) (getQ durations j)
                (getZ (events_flags events) i) (getZ (events_flags events) j) F)
      as [_ [_ [A B]]].
    unfold Spec.concordant_of. destruct M as [-> | ->]; simpl.
    + now rewrite A.
    + now rewrite B.
  - unfold Spec.denominator. rewrite length_map.
    apply Qsum_map_ext_in. intros [i j] Hin.
    apply ordered_pairs_in in Hin. destruct Hin as [Li [Lj _]]. simpl.
    rewrite !getQ_map by assumption.
    destruct (predicates_of_times f 0 0
                (getQ durations i) (getQ durations j)
                (getZ (events_flags events) i) (getZ (events_flags events) j) F)
      as [A [B _]].
    unfold Spec.comparable_of. destruct M as [-> | ->]; simpl.
    + now rewrite A.
    + now rewrite B.
Qed.

Lemma double_order_preserving : order_preserving MoreExamples.double.
Proof.
  intros x y. unfold MoreExamples.double. split.
  - apply eq_true_iff_eq. rewrite !Qltb_true_iff. split; intro; lra.
  - apply eq_true_iff_eq. rewrite !Qeq_bool_iff. split; intro; lra.
Qed.

Lemma concordance_td_order_of_times_witness :
  outcome_eq
    (concordance_td (map MoreExamples.double Examples.durations3) Examples.events3
       Examples.surv3 Examples.surv_idx3 "adj_antolini")
    (concordance_td Examples.durations3 Examples.events3
       Examples.surv3 Examples.surv_idx3 "adj_antolini").
Proof.
  apply (concordance_td_order_of_times MoreExamples.double Examples.durations3
           Examples.events3 Examples.surv3 Examples.surv_idx3 "adj_antolini").
  - repeat split; reflexivity.
  - left. reflexivity.
  - exact double_order_preserving.
Defined.

(** The index does not change when all survival values go through a map
    that keeps their order: only the ranking of the predictions counts. *)
Theorem concordance_td_order_of_predictions (f : Q -> Q)
    durations events surv surv_idx method :
  valid_input durations events surv surv_idx ->
  known_method method ->
  order_preserving f ->
  outcome_eq (concordance_td durations events (map (map f) surv) surv_idx method)
             (concordance_td durations events surv surv_idx method).
Proof.
  intros V M F.
  pose proof (valid_matching_shapes _ _ _ _ V) as S.
  assert (S' : matching_shapes durations events (map (map f) surv) surv_idx).
  { destruct S as [S1 [S2 S3]].
    assert (E : shape1 (map (map f) surv) = shape1 surv).
    { destruct surv; simpl; [reflexivity | apply length_map]. }
    unfold matching_shapes. rewrite E. auto. }
  eapply outcome_eq_trans; [apply (concordance_td_quotient _ _ _ _ _ S' M) |].
  eapply outcome_eq_trans;
    [| apply outcome_eq_sym, (concordance_td_quotient _ _ _ _ _ S M)].
  apply truediv_proper; [| reflexivity].
  unfold Spec.numerator.
  apply Qsum_map_ext_in. intros [i j] Hin.
  apply ordered_pairs_in in Hin. destruct Hin as [Li [Lj _]]. simpl.
  rewrite (get2_map f _ _ _ _ i i V Li Li), (get2_map f _ _ _ _ i j V Li Lj).
  destruct (predicates_of_predictions f
              (get2 surv (getZ surv_idx i) i) (get2 surv (getZ surv_idx i) j)
              (getQ durations i) (getQ durations j)
              (getZ (events_flags events) i) (getZ (events_flags events) j) F)
    as [A B].
  unfold Spec.concordant_of. destruct M as [-> | ->]; simpl.
  - now rewrite A.
  - now rewrite B.
Qed.

Lemma concordance_td_order_of_predictions_witness :
  outcome_eq
    (concordance_td Examples.durations3 Examples.events3
       (map (map MoreExamples.double) Examples.surv3) Examples.surv_idx3 "antolini")
    (concordance_td Examples.durations3 Examples.events3
       Examples.surv3 Examples.surv_idx3 "antolini").
Proof.
  apply (concordance_td_order_of_predictions MoreExamples.double
           Examples.durations3 Examples.events3 Examples.surv3
           Examples.surv_idx3 "antolini").
  - exact example3_valid.
  - right. reflexivity.
  - exact double_order_preserving.
Defined.

(** ** [_sum_concordant] *)

Lemma getZ_arange (n i : nat) : (i < n)%nat -> getZ (arange n) i = Z.of_nat i.
Proof.
  intro L. unfold getZ, arange.
  rewrite (nth_indep _ 0%Z (Z.of_nat 0)) by (now rewrite length_map, length_seq).
  rewrite map_nth, seq_nth; [reflexivity | exact L].
Qed.

(** The legacy accumulation [_sum_concordant] is [_sum_concordant_disc]
    with the adjusted rule and every subject read from the row of its own
    number ([s_idx = range(n)]). *)
Theorem _sum_concordant_is_disc (s : list (list Q)) (t : list Q) (d : list Z) :
  _sum_concordant s t d
    == _sum_concordant_disc s t d (arange (length t)) _is_concordant.
Proof.
  rewrite _sum_concordant_disc_spec.
  unfold _sum_concordant.
  rewrite (double_loop_ordered_pairs
             (fun i j => _is_concordant (get2 s (Z.of_nat i) i) (get2 s (Z.of_nat i) j)
                           (getQ t i) (getQ t j) (getZ d i) (getZ d j))).
  apply Qsum_map_ext_in. intros [i j] Hin.
  apply ordered_pairs_in in Hin. destruct Hin as [Li _]. simpl.
  rewrite (getZ_arange _ _ Li). reflexivity.
Qed.

(** ** The Brier score with the Kaplan-Meier curve is a rational number *)

Module BrierValueFacts.

Import KaplanMeier KaplanMeierFacts Weights WeightFacts PotentialFacts BrierValue.

Lemma fnum_eq_fin (x : fnum) (q : Q) :
  fnum_eq x (Fin q) -> exists r, x = Fin r /\ r == q.
Proof.
  destruct x as [r |]; simpl; [| tauto]. intro H. now exists r.
Qed.

Lemma sample_size_positive (d : list Q) :
  d <> [] -> 1 <= inject_Z (Z.of_nat (length d)).
Proof.
  intro Ne. destruct d as [| a l]; [congruence |].
  simpl length. rewrite Nat2Z.inj_succ. unfold Z.succ.
  rewrite inject_Z_plus.
  assert (0 <= inject_Z (Z.of_nat (length l))).
  { change 0 with (inject_Z 0). rewrite <- Zle_Qle. lia. }
  change (inject_Z 1) with 1. lra.
Qed.

Section OneTime.

Variable d : list Q.
Variable e : list bool.
Hypothesis Hlen : length e = length d.
Variable t : Q.

(** No division of the score divides by zero: the sum of the
    contributions is the rational sum. *)
Lemma contributions_sum (d' : list Q) (e' : list bool) (row : list Q) :
  (forall x, In x (combine d' e') -> In x (subj d e)) ->
  ScoreSpec.fsum
    (map (ScoreSpec.brier_contribution t (km d e t))
         (ScoreSpec.subjects d' e' (map Fin row) (map (km d e) d')))
  = Fin (Spec.Qsum (map (contribution d e t) (triples d' e' row))).
Proof.
  revert e' row.
  induction d' as [| T d' IH]; intros [| ev e'] [| p row] Hin; try reflexivity.
  assert (Hx : In (T, ev) (subj d e)) by (apply Hin; now left).
  assert (Hin' : forall x, In x (combine d' e') -> In x (subj d e)).
  { intros x Hx'. apply Hin. now right. }
  specialize (IH e' row Hin').
  cbn [ScoreSpec.subjects map triples combine].
  change (combine (combine d' e') row) with (triples d' e' row).
  rewrite fsum_cons, IH. cbn [Spec.Qsum fold_right].
  change (fold_right Qplus 0 (map (contribution d e t) (triples d' e' row)))
    with (Spec.Qsum (map (contribution d e t) (triples d' e' row))).
  unfold ScoreSpec.brier_contribution, contribution.
  cbn [ScoreSpec.duration ScoreSpec.event ScoreSpec.prob ScoreSpec.km_own fst snd].
  destruct (Qle_bool T t && ev) eqn:Died.
  - apply andb_true_iff in Died. destruct Died as [Le Ev].
    pose proof (own_weight_positive d e Hlen t (T, ev) Hx Le Ev) as W.
    cbn [fst] in W.
    unfold km, fsq, fmul, fdiv. fold (G d e T).
    assert (NZ : Qeq_bool (G d e T) 0 = false).
    { apply Qeq_bool_false_iff. lra. }
    rewrite NZ. reflexivity.
  - destruct (Qgtb T t) eqn:Alive.
    + pose proof (weight_positive_while_observed d e Hlen t (T, ev) Hx Alive) as W.
      unfold km, fsq, fsub, fmul, fdiv. fold (G d e t).
      assert (NZ : Qeq_bool (G d e t) 0 = false).
      { apply Qeq_bool_false_iff. lra. }
      rewrite NZ. reflexivity.
    + reflexivity.
Qed.

Lemma compute_score_value (row : list Q) :
  d <> [] -> length row = length d ->
  fnum_eq (brier_compute_score d e (map (km d e) d) t (km d e t) (map Fin row))
          (Fin (value d e t row)).
Proof.
  intros Ne Lr.
  assert (Lr' : length (map Fin row) = length d) by now rewrite length_map.
  rewrite (brier_compute_score_spec t (km d e t) d e (map Fin row)
             (map (km d e) d) Hlen Lr' (length_map _ d)).
  unfold ScoreSpec.brier_at, flen.
  rewrite (subjects_length d e (map Fin row) (map (km d e) d)
             Hlen Lr' (length_map _ d)).
  rewrite (contributions_sum d e row (fun x H => H)).
  pose proof (sample_size_positive d Ne) as N.
  unfold fdiv.
  assert (NZ : Qeq_bool (inject_Z (Z.of_nat (length d))) 0 = false).
  { apply Qeq_bool_false_iff. lra. }
  rewrite NZ. unfold value. reflexivity.
Qed.

End OneTime.

Lemma rows_value d e (times : list Q) (P : list (list Q)) :
  length e = length d -> d <> [] ->
  Forall (fun row => length row = length d) P ->
  Forall2 fnum_eq
    (map2 (fun tk pa =>
             brier_compute_score d e (map (km d e) d) (fst tk) (snd tk) pa)
          (combine times (map (km d e) times))
          (map (map Fin) P))
    (map2 (fun t row => Fin (value d e t row)) times P).
Proof.
  intros Le Ne. revert P.
  induction times as [| t times IH]; intros [| row P] L; simpl; try constructor.
  - inversion L; subst. now apply compute_score_value.
  - inversion L; subst. now apply IH.
Qed.

(** With the Kaplan-Meier censoring curve, finite predictions and times
    on the curve, every Brier score is the rational number [value]: every
    weight that is used is positive. *)
Lemma brier_score_closed_form times (P : list (list Q)) d e :
  has_shape P (length (as_iterable times)) (length d) = true ->
  length e = length d -> d <> [] ->
  on_curve d (as_iterable times) ->
  length (as_iterable times) <> 1%nat ->
  exists scores,
    brier_score KaplanMeier.fit times (map (map Fin) P) d e = Return scores
    /\ Forall2 fnum_eq scores
         (map2 (fun t row => Fin (value d e t row)) (as_iterable times) P).
Proof.
  intros S Le Ne C N.
  assert (S' : has_shape (map (map Fin) P) (length (as_iterable times)) (length d)
               = true).
  { unfold has_shape in *. rewrite length_map.
    apply andb_true_iff in S. destruct S as [S1 S2]. rewrite S1. simpl.
    rewrite forallb_forall in *. intros r Hr.
    apply in_map_iff in Hr. destruct Hr as [r0 [<- Hr0]].
    rewrite length_map. now apply S2. }
  rewrite (BrierFacts.brier_score_on_curve times _ d e S' Ne Le C N).
  eexists. split; [reflexivity |].
  apply rows_value; auto.
  apply Forall_forall. intros row Hin. exact (has_shape_cols _ _ _ _ S Hin).
Qed.

End BrierValueFacts.

(** ** The Brier score without censoring, and of perfect predictions *)

Module BrierCases.

Import KaplanMeier KaplanMeierFacts Weights WeightFacts PotentialFacts BrierValue.

Lemma product_ones (l : list Q) : (forall x, In x l -> x == 1) -> product l == 1.
Proof.
  unfold product. induction l as [| a l IH]; intro H; simpl.
  - reflexivity.
  - rewrite (H a (or_introl eq_refl)), IH; [ring |].
    intros x Hx. apply H. now right.
Qed.

(** Without censoring the fitted censoring curve is 1 everywhere. *)
Lemma censoring_curve_without_censoring (d : list Q) (e : list bool) (t : Q) :
  Forall (fun ev => ev = true) e -> G d e t == 1.
Proof.
  intro All. unfold G, survival. apply product_ones.
  intros x Hx. apply in_map_iff in Hx. destruct Hx as [s [<- _]].
  unfold factor. rewrite (observed_at_total d e s).
  assert (Z0 : censored_at d e s == 0).
  { unfold censored_at, total. apply Qsum_map_zero. intros [T ev] Hin.
    unfold subj in Hin. apply in_combine_r in Hin.
    rewrite Forall_forall in All. rewrite (All ev Hin). simpl.
    rewrite andb_false_r. reflexivity. }
  rewrite Z0. unfold Qdiv. ring.
Qed.

Lemma triples_in (d : list Q) (e : list bool) (row : list Q) (x : Q * bool * Q) :
  In x (triples d e row) -> In (snd (fst x)) e.
Proof.
  destruct x as [[T ev] p]. unfold triples. intro H.
  apply in_combine_l in H. apply in_combine_r in H. exact H.
Qed.

Lemma triples_forget_events (d : list Q) (e : list bool) (row : list Q) :
  length e = length d ->
  map (fun x => (fst (fst x), snd x)) (triples d e row) = combine d row.
Proof.
  unfold triples. revert e row.
  induction d as [| T d IH]; intros [| ev e] [| p row] L; simpl in *;
    try discriminate; auto.
  f_equal. apply IH. lia.
Qed.

Lemma value_without_censoring d e t row :
  length e = length d -> Forall (fun ev => ev = true) e ->
  value d e t row == mean_squared_error d t row.
Proof.
  intros Le All. unfold value, mean_squared_error.
  rewrite <- (triples_forget_events d e row Le), map_map.
  apply Qdiv_comp; [| reflexivity].
  apply Qsum_map_ext_in. intros x Hx.
  pose proof (triples_in d e row x Hx) as He.
  pose proof (proj1 (Forall_forall _ _) All _ He) as Ev.
  unfold contribution, squared_error. cbn [fst snd]. rewrite Ev, andb_true_r.
  unfold Qgtb, Qltb.
  destruct (Qle_bool (fst (fst x)) t); simpl.
  - rewrite (censoring_curve_without_censoring d e (fst (fst x)) All). field.
  - rewrite (censoring_curve_without_censoring d e t All). field.
Qed.

Lemma value_of_perfect_row d e t row :
  perfect_row d e t row -> value d e t row == 0.
Proof.
  intro P. unfold value.
  assert (Z0 : Spec.Qsum (map (contribution d e t) (triples d e row)) == 0).
  { apply Qsum_map_zero. intros x Hx. destruct (P x Hx) as [Pd Ps].
    unfold contribution.
    destruct (Qle_bool (fst (fst x)) t && snd (fst x)) eqn:Died.
    - rewrite (Pd eq_refl). unfold Qdiv. ring.
    - destruct (Qgtb (fst (fst x)) t) eqn:Alive; [| reflexivity].
      rewrite (Ps eq_refl). unfold Qdiv. ring. }
  rewrite Z0. unfold Qdiv. ring.
Qed.

Lemma Forall2_fin_ext (h k : Q -> list Q -> Q) (R : Q -> list Q -> Prop)
    (times : list Q) (P : list (list Q)) :
  (forall t row, R t row -> h t row == k t row) ->
  Forall2 R times P ->
  Forall2 fnum_eq (map2 (fun t row => Fin (h t row)) times P)
                  (map2 (fun t row => Fin (k t row)) times P).
Proof.
  intros H F. induction F as [| t row times P Ht _ IH]; simpl; constructor; auto.
  simpl. now apply H.
Qed.

Lemma Forall2_trans_fnum (a b c : list fnum) :
  Forall2 fnum_eq a b -> Forall2 fnum_eq b c -> Forall2 fnum_eq a c.
Proof.
  intro H. revert c. induction H as [| x y a b Hxy _ IH]; intros c Hc;
    inversion Hc; subst; constructor.
  - eapply fnum_eq_trans; eauto.
  - now apply IH.
Qed.

Lemma Forall2_of_shape (R : Q -> list Q -> Prop) (times : list Q)
    (P : list (list Q)) (n : nat) :
  has_shape P (length times) n = true ->
  (forall t row, In t times -> In row P -> R t row) ->
  Forall2 R times P.
Proof.
  intros S H. apply has_shape_rows in S.
  revert P S H. induction times as [| t times IH]; intros [| row P] S H;
    simpl in S; try discriminate; constructor.
  - apply H; now left.
  - apply IH; [lia |]. intros t' row' Ht Hr. apply H; now right.
Qed.

End BrierCases.

(** Without censoring (every subject had the event), for predicted
    probabilities in [0, 1], times on the fitted curve and other than a
    single one, the Brier score at [t] is the mean squared error of the
    predicted survival probability against the indicator of being alive
    after [t]. *)
Theorem brier_score_without_censoring times (P : list (list Q)) d e :
  has_shape P (length (as_iterable times)) (length d) = true ->
  length e = length d -> d <> [] ->
  on_curve d (as_iterable times) ->
  length (as_iterable times) <> 1%nat ->
  Forall (Forall (fun q => 0 <= q <= 1)) P ->
  Forall (fun ev => ev = true) e ->
  exists scores,
    brier_score KaplanMeier.fit times (map (map Fin) P) d e = Return scores
    /\ Forall2 fnum_eq scores
         (map2 (fun t row => Fin (BrierValue.mean_squared_error d t row))
               (as_iterable times) P).
Proof.
  intros S Le Ne C N _ All.
  destruct (BrierValueFacts.brier_score_closed_form times P d e S Le Ne C N)
    as [scores [E V]].
  exists scores. split; [exact E |].
  eapply BrierCases.Forall2_trans_fnum; [exact V |].
  apply (BrierCases.Forall2_fin_ext _ _ (fun _ _ => True)).
  - intros t row _. now apply BrierCases.value_without_censoring.
  - apply (BrierCases.Forall2_of_shape _ _ _ _ S). auto.
Qed.

(** Perfect predictions (0 for everyone who had the event by [t], 1 for
    everyone with a later duration, at every evaluation time), at times on
    the fitted curve and other than a single one, have the Brier score 0
    at every time, whatever is predicted for the subjects censored by
    then. *)
Theorem brier_score_of_perfect_predictions times (P : list (list Q)) d e :
  has_shape P (length (as_iterable times)) (length d) = true ->
  length e = length d -> d <> [] ->
  on_curve d (as_iterable times) ->
  length (as_iterable times) <> 1%nat ->
  Forall2 (BrierValue.perfect_row d e) (as_iterable times) P ->
  exists scores,
    brier_score KaplanMeier.fit times (map (map Fin) P) d e = Return scores
    /\ Forall (fun x => fnum_eq x (Fin 0)) scores.
Proof.
  intros S Le Ne C N Perfect.
  destruct (BrierValueFacts.brier_score_closed_form times P d e S Le Ne C N)
    as [scores [E V]].
  exists scores. split; [exact E |].
  assert (Z0 : Forall2 fnum_eq scores
                 (map2 (fun (_ : Q) (_ : list Q) => Fin 0) (as_iterable times) P)).
  { eapply BrierCases.Forall2_trans_fnum; [exact V |].
    apply (BrierCases.Forall2_fin_ext _ (fun _ _ => 0) (BrierValue.perfect_row d e)).
    - intros t row. apply BrierCases.value_of_perfect_row.
    - exact Perfect. }
  clear - Z0. revert Z0. generalize (as_iterable times) as ts. intros ts.
  revert scores P. induction ts as [| t ts IH]; intros scores [| row P] Z0;
    simpl in Z0; inversion Z0; subst; constructor; auto.
  eapply IH. eassumption.
Qed.

Lemma brier_score_without_censoring_witness :
  exists scores,
    brier_score KaplanMeier.fit (Iterable ScoreExamples.grid)
      (map (map Fin) BrierExamples.probs) ScoreExamples.durations
      BrierExamples.all_events = Return scores
    /\ Forall2 fnum_eq scores
         (map2 (fun t row =>
                  Fin (BrierValue.mean_squared_error ScoreExamples.durations t row))
               (as_iterable (Iterable ScoreExamples.grid)) BrierExamples.probs).
Proof.
  apply (brier_score_without_censoring (Iterable ScoreExamples.grid)
           BrierExamples.probs ScoreExamples.durations BrierExamples.all_events).
  - reflexivity.
  - reflexivity.
  - discriminate.
  - repeat constructor.
  - discriminate.
  - repeat (apply Forall_cons || apply Forall_nil);
      split; vm_compute; discriminate.
  - repeat constructor.
Defined.

Lemma perfect_probs_are_perfect :
  Forall2 (BrierValue.perfect_row ScoreExamples.durations ScoreExamples.events)
    ScoreExamples.grid BrierExamples.perfect_probs.
Proof.
  unfold ScoreExamples.grid, BrierExamples.perfect_probs.
  apply Forall2_cons;
    [| apply Forall2_cons; [| apply Forall2_cons; [| apply Forall2_nil]]].
  all: intros x Hx; simpl in Hx.
  all: repeat (destruct Hx as [<- | Hx];
               [split; intro H; vm_compute in H; try discriminate H;
                simpl; reflexivity |]).
  all: contradiction.
Qed.

Lemma brier_score_of_perfect_predictions_witness :
  exists scores,
    brier_score KaplanMeier.fit (Iterable ScoreExamples.grid)
      (map (map Fin) BrierExamples.perfect_probs) ScoreExamples.durations
      ScoreExamples.events = Return scores
    /\ Forall (fun x => fnum_eq x (Fin 0)) scores.
Proof.
  apply (brier_score_of_perfect_predictions (Iterable ScoreExamples.grid)
           BrierExamples.perfect_probs ScoreExamples.durations ScoreExamples.events).
  - reflexivity.
  - reflexivity.
  - discriminate.
  - repeat constructor.
  - discriminate.
  - exact perfect_probs_are_perfect.
Defined.

(** ** A time before the start of the censoring curve *)

Lemma fold_left_fadd_nonfin (l : list fnum) : fold_left fadd l NonFin = NonFin.
Proof. induction l as [| x l IH]; simpl; auto. Qed.

Lemma np_sum_nonfin (l : list fnum) : In NonFin l -> np_sum l = NonFin.
Proof.
  unfold np_sum. generalize (Fin 0).
  induction l as [| x l IH]; intros a H; [contradiction |].
  simpl. destruct H as [-> | H].
  - destruct a; simpl; apply fold_left_fadd_nonfin.
  - now apply IH.
Qed.

Lemma mask_all_true {A} (a : list A) (m : list bool) :
  length m = length a -> Forall (fun b => b = true) m -> mask a m = a.
Proof.
  revert m. induction a as [| x a IH]; intros [| b m] L F; simpl in *;
    try discriminate; auto.
  inversion F; subst. f_equal. apply IH; auto.
Qed.

(** Before the start of the curve every subject is still alive, and the
    weight of the survivors is a NaN: so is the score. *)
Lemma compute_score_before_start d e km_d (t : Q) (row : list fnum) :
  d <> [] -> length row = length d ->
  KaplanMeier.before_start d t = true ->
  brier_compute_score d e km_d t NonFin row = NonFin.
Proof.
  intros Ne Lr B. unfold brier_compute_score.
  apply andb_true_iff in B. destruct B as [_ B].
  assert (All : Forall (fun b => b = true) (survived_mask d t)).
  { unfold survived_mask, Qgtb. apply Forall_forall. intros b Hb.
    apply in_map_iff in Hb. destruct Hb as [T [<- HT]].
    rewrite forallb_forall in B. now apply B. }
  rewrite (mask_all_true _ (survived_mask d t)); [| | exact All].
  2: { unfold survived_mask. now rewrite !length_map. }
  assert (S : np_sum (map (fun x => fdiv x NonFin)
                        (map (fun p => fsq (fsub (Fin 1) p)) row)) = NonFin).
  { apply np_sum_nonfin. destruct row as [| x row].
    - destruct d; [congruence | discriminate Lr].
    - left. cbv beta. now destruct (fsq (fsub (Fin 1) x)). }
  rewrite S. destruct (np_sum (map2 _ _ _)); reflexivity.
Qed.

Lemma rows_before_start d e obs km_d (times : list Q) (p : list (list fnum)) :
  d <> [] -> length p = length times ->
  Forall (fun row => length row = length d) p ->
  Forall2 (fun t s => KaplanMeier.before_start d t = true -> s = NonFin) times
    (map2 (fun tk pa => brier_compute_score d e km_d (fst tk) (snd tk) pa)
          (combine times (map (predict (KaplanMeier.fit d obs)) times)) p).
Proof.
  intros Ne. revert p.
  induction times as [| t times IH]; intros [| row p] L F; simpl in L;
    try discriminate; simpl; constructor.
  - intro B. simpl. rewrite B.
    inversion F; subst. now apply compute_score_before_start.
  - inversion F; subst. apply IH; [lia | assumption].
Qed.

(** Whenever [brier_score] returns with the Kaplan-Meier censoring curve,
    its score at a time before the start of the curve (before 0 and
    before every duration) is a NaN, whatever the predictions are. *)
Theorem brier_score_before_start times p d e scores :
  brier_score KaplanMeier.fit times p d e = Return scores ->
  Forall2 (fun t s => KaplanMeier.before_start d t = true -> s = NonFin)
    (as_iterable times) scores.
Proof.
  unfold brier_score.
  destruct (has_shape p (length (as_iterable times)) (length d)) eqn:S;
    simpl; [| discriminate].
  destruct (fit_call _ _ _) as [c | ex] eqn:C; simpl; [| discriminate].
  apply fit_call_inv in C. destruct C as [Ne [_ ->]].
  destruct (sequence _) as [km | ex]; simpl; [| discriminate].
  destruct (iter _) as [kt | ex] eqn:I; simpl; [| discriminate].
  apply iter_predict_times_inv in I. destruct I as [_ ->].
  intro H. inversion H.
  apply rows_before_start.
  - exact Ne.
  - exact (has_shape_rows _ _ _ S).
  - apply Forall_forall. intros row Hin. exact (has_shape_cols _ _ _ _ S Hin).
Qed.

Lemma brier_score_before_start_witness :
  Forall2 (fun t s => KaplanMeier.before_start ScoreExamples.durations t = true ->
                      s = NonFin)
    (as_iterable (Iterable EarlyExample.times)) EarlyExample.scores.
Proof.
  apply (brier_score_before_start (Iterable EarlyExample.times)
           EarlyExample.prob_alive ScoreExamples.durations [true; true; true]).
  vm_compute. reflexivity.
Defined.

(** ** The integrated scores: what is integrated, and the edges *)

Lemma mask_all_finite {A} (a : list A) (scores : list fnum) :
  length scores = length a ->
  Forall (fun x => isfinite x = true) scores ->
  mask a (map isfinite scores) = a.
Proof.
  revert a. induction scores as [| s scores IH]; intros [| x a] L F;
    simpl in *; try discriminate; auto.
  inversion F; subst. rewrite H1. f_equal. apply IH; auto.
Qed.

Lemma in_unit_interval_finite (scores : list fnum) :
  Forall in_unit_interval scores -> Forall (fun x => isfinite x = true) scores.
Proof.
  intro F. eapply Forall_impl; [| exact F].
  intros x [q [-> _]]. reflexivity.
Qed.

(** With the Kaplan-Meier censoring curve, probabilities in [0, 1] and a
    grid of two times or more that passes the assertion and does not
    start before the fitted curve, no score is dropped: the integrated
    Brier score is the integral of all the pointwise scores over the whole
    grid, divided by last minus first. *)
Theorem integrated_brier_score_of_valid_predictions
    (simps : list fnum -> list Q -> fnum) grid p d e :
  is_monotonic_increasing grid = true ->
  (2 <= length grid)%nat ->
  valid_brier_input (Iterable grid) p d e ->
  exists scores,
    brier_score KaplanMeier.fit (Iterable grid) p d e = Return scores
    /\ integrated_brier_score_numpy KaplanMeier.fit simps grid p d e
       = Return (fdiv (simps scores grid) (Fin (last grid 0 - hd 0 grid))).
Proof.
  intros Mono Two V.
  destruct (BrierFacts.brier_score_range (Iterable grid) p d e V) as [Ret Range].
  destruct Ret as [scores E]; [simpl; lia |].
  destruct (Range scores E) as [L U]. simpl in L.
  pose proof (in_unit_interval_finite scores U) as Fin'.
  exists scores. split; [exact E |].
  unfold integrated_brier_score_numpy. rewrite Mono, E. simpl.
  rewrite (mask_all_finite scores scores eq_refl Fin'),
    (mask_all_finite grid scores L Fin').
  assert (NE : grid <> []) by (destruct grid; [simpl in Two; lia | discriminate]).
  rewrite (last_item_nonempty grid NE), (first_item_nonempty grid NE).
  unfold scipy_integrate_simps.
  destruct scores; [destruct grid; [congruence | discriminate L] | reflexivity].
Qed.

Lemma integrated_brier_score_of_valid_predictions_witness :
  exists scores,
    brier_score KaplanMeier.fit (Iterable ScoreExamples.grid)
      ScoreExamples.prob_alive ScoreExamples.durations ScoreExamples.events
      = Return scores
    /\ integrated_brier_score_numpy KaplanMeier.fit ScoreExamples.trapezoid
         ScoreExamples.grid ScoreExamples.prob_alive ScoreExamples.durations
         ScoreExamples.events
       = Return (fdiv (ScoreExamples.trapezoid scores ScoreExamples.grid)
                      (Fin (last ScoreExamples.grid 0 - hd 0 ScoreExamples.grid))).
Proof.
  apply (integrated_brier_score_of_valid_predictions ScoreExamples.trapezoid
           ScoreExamples.grid ScoreExamples.prob_alive ScoreExamples.durations
           ScoreExamples.events).
  - reflexivity.
  - simpl. lia.
  - exact score_example_valid.
Defined.

(** On a grid of a single time both integrated scores end in the
    [TypeError] of the pointwise score, which cannot [zip] the one
    censoring-curve value: nothing is integrated. *)
Theorem integrated_scores_single_time
    (fit : list Q -> list Z -> censoring_curve) (np_log : Q -> fnum)
    (simps : list fnum -> list Q -> fnum) (t : Q) (row : list fnum) d e km_d :
  length row = length d ->
  d <> [] -> length e = length d ->
  sequence (map (survival_function_loc (fit d (one_minus e))) d) = Return km_d ->
  integrated_brier_score_numpy fit simps [t] [row] d e = Raise TypeError
  /\ integrated_binomial_log_likelihood_numpy fit np_log simps [t] [row] d e
     = Raise TypeError.
Proof.
  intros Lr Ne Le K.
  assert (S : has_shape [row] 1 (length d) = true).
  { unfold has_shape. simpl. now rewrite Lr, Nat.eqb_refl. }
  destruct (single_time_raises fit np_log (Iterable [t]) [row] d e (1 # 10000000)
              km_d S Ne Le K eq_refl) as [B L].
  unfold integrated_brier_score_numpy, integrated_binomial_log_likelihood_numpy.
  rewrite B, L. split; reflexivity.
Qed.

Lemma integrated_scores_single_time_witness :
  integrated_brier_score_numpy KaplanMeier.fit ScoreExamples.trapezoid [2]
    [[Fin (1 # 10); Fin (8 # 10); Fin (7 # 10)]]
    ScoreExamples.durations ScoreExamples.events = Raise TypeError
  /\ integrated_binomial_log_likelihood_numpy KaplanMeier.fit
       ScoreExamples.log_stub ScoreExamples.trapezoid [2]
       [[Fin (1 # 10); Fin (8 # 10); Fin (7 # 10)]]
       ScoreExamples.durations ScoreExamples.events = Raise TypeError.
Proof.
  apply (integrated_scores_single_time KaplanMeier.fit ScoreExamples.log_stub
           ScoreExamples.trapezoid 2 [Fin (1 # 10); Fin (8 # 10); Fin (7 # 10)]
           ScoreExamples.durations ScoreExamples.events
           (map (fun T => Fin (KaplanMeier.survival ScoreExamples.durations
                                 (one_minus ScoreExamples.events) T))
                ScoreExamples.durations)).
  - reflexivity.
  - discriminate.
  - reflexivity.
  - vm_compute. reflexivity.
Defined.

(** The pointwise log-likelihood of a single time, given as a number or as
    a list of one, ends in the same [TypeError]. *)
Theorem binomial_log_likelihood_single_time
    (fit : list Q -> list Z -> censoring_curve) (np_log : Q -> fnum)
    (t : Q) (row : list fnum) d e eps km_d :
  length row = length d ->
  d <> [] -> length e = length d ->
  sequence (map (survival_function_loc (fit d (one_minus e))) d) = Return km_d ->
  binomial_log_likelihood fit np_log (Scalar t) [row] d e eps = Raise TypeError
  /\ binomial_log_likelihood fit np_log (Iterable [t]) [row] d e eps
     = Raise TypeError.
Proof.
  intros Lr Ne Le K.
  assert (S : has_shape [row] 1 (length d) = true).
  { unfold has_shape. simpl. now rewrite Lr, Nat.eqb_refl. }
  split.
  - exact (proj2 (single_time_raises fit np_log (Scalar t) [row] d e eps
                    km_d S Ne Le K eq_refl)).
  - exact (proj2 (single_time_raises fit np_log (Iterable [t]) [row] d e eps
                    km_d S Ne Le K eq_refl)).
Qed.

Lemma binomial_log_likelihood_single_time_witness :
  binomial_log_likelihood KaplanMeier.fit ScoreExamples.log_stub (Scalar 2)
    [[Fin (1 # 10); Fin (8 # 10); Fin (7 # 10)]]
    ScoreExamples.durations ScoreExamples.events (1 # 10000000) = Raise TypeError
  /\ binomial_log_likelihood KaplanMeier.fit ScoreExamples.log_stub (Iterable [2])
       [[Fin (1 # 10); Fin (8 # 10); Fin (7 # 10)]]
       ScoreExamples.durations ScoreExamples.events (1 # 10000000)
     = Raise TypeError.
Proof.
  apply (binomial_log_likelihood_single_time KaplanMeier.fit ScoreExamples.log_stub
           2 [Fin (1 # 10); Fin (8 # 10); Fin (7 # 10)]
           ScoreExamples.durations ScoreExamples.events (1 # 10000000)
           (map (fun T => Fin (KaplanMeier.survival ScoreExamples.durations
                                 (one_minus ScoreExamples.events) T))
                ScoreExamples.durations)).
  - reflexivity.
  - discriminate.
  - reflexivity.
  - vm_compute. reflexivity.
Defined.

(** On an empty grid, for a sample that the library accepts, both
    assertions pass and no score is computed; the integrator is given
    arrays without an element and raises [ValueError], in both integrated
    scores. *)
Theorem integrated_scores_of_empty_grid
    (fit : list Q -> list Z -> censoring_curve) (np_log : Q -> fnum)
    (simps : list fnum -> list Q -> fnum) d e km_d :
  d <> [] -> length e = length d ->
  sequence (map (survival_function_loc (fit d (one_minus e))) d) = Return km_d ->
  integrated_brier_score_numpy fit simps [] [] d e = Raise ValueError
  /\ integrated_binomial_log_likelihood_numpy fit np_log simps [] [] d e
     = Raise ValueError.
Proof.
  intros Ne Le K.
  unfold integrated_brier_score_numpy, integrated_binomial_log_likelihood_numpy.
  rewrite (brier_score_runs fit (Iterable []) [] d e km_d eq_refl Ne Le K),
    (binomial_log_likelihood_runs fit np_log (Iterable []) [] d e _ km_d
       eq_refl Ne Le K) by discriminate.
  split; reflexivity.
Qed.

Lemma integrated_scores_of_empty_grid_witness :
  integrated_brier_score_numpy KaplanMeier.fit ScoreExamples.trapezoid [] []
    ScoreExamples.durations ScoreExamples.events = Raise ValueError
  /\ integrated_binomial_log_likelihood_numpy KaplanMeier.fit
       ScoreExamples.log_stub ScoreExamples.trapezoid [] []
       ScoreExamples.durations ScoreExamples.events = Raise ValueError.
Proof.
  apply (integrated_scores_of_empty_grid KaplanMeier.fit ScoreExamples.log_stub
           ScoreExamples.trapezoid ScoreExamples.durations ScoreExamples.events
           (map (fun T => Fin (KaplanMeier.survival ScoreExamples.durations
                                 (one_minus ScoreExamples.events) T))
                ScoreExamples.durations)).
  - discriminate.
  - reflexivity.
  - vm_compute. reflexivity.
Defined.

(** A [prob_alive] that does not have one row per time and one column per
    subject is refused with an [AssertionError] by the pointwise and by the
    integrated scores, whatever the censoring-curve fitter is. *)
Theorem scores_shape_mismatch
    (fit : list Q -> list Z -> censoring_curve) (np_log : Q -> fnum)
    (simps : list fnum -> list Q -> fnum) times p d e eps :
  has_shape p (length (as_iterable times)) (length d) = false ->
  brier_score fit times p d e = Raise AssertionError
  /\ binomial_log_likelihood fit np_log times p d e eps = Raise AssertionError
  /\ integrated_brier_score_numpy fit simps (as_iterable times) p d e
     = Raise AssertionError
  /\ integrated_binomial_log_likelihood_numpy fit np_log simps
       (as_iterable times) p d e = Raise AssertionError.
Proof.
  intro S.
  assert (B : forall ts, as_iterable ts = as_iterable times ->
                brier_score fit ts p d e = Raise AssertionError).
  { intros ts E. unfold brier_score. rewrite E, S. reflexivity. }
  assert (L : forall ts eps', as_iterable ts = as_iterable times ->
                binomial_log_likelihood fit np_log ts p d e eps'
                = Raise AssertionError).
  { intros ts eps' E. unfold binomial_log_likelihood. rewrite E, S. reflexivity. }
  split; [now apply B |]. split; [now apply L |].
  unfold integrated_brier_score_numpy, integrated_binomial_log_likelihood_numpy.
  rewrite (B (Iterable (as_iterable times)) eq_refl),
    (L (Iterable (as_iterable times)) _ eq_refl).
  destruct (is_monotonic_increasing (as_iterable times)); split; reflexivity.
Qed.

Lemma scores_shape_mismatch_witness :
  brier_score KaplanMeier.fit (Scalar 2) ScoreExamples.prob_alive
    ScoreExamples.durations ScoreExamples.events = Raise AssertionError
  /\ binomial_log_likelihood KaplanMeier.fit ScoreExamples.log_stub (Scalar 2)
       ScoreExamples.prob_alive ScoreExamples.durations ScoreExamples.events
       (1 # 10000000) = Raise AssertionError
  /\ integrated_brier_score_numpy KaplanMeier.fit ScoreExamples.trapezoid
       (as_iterable (Scalar 2)) ScoreExamples.prob_alive
       ScoreExamples.durations ScoreExamples.events = Raise AssertionError
  /\ integrated_binomial_log_likelihood_numpy KaplanMeier.fit
       ScoreExamples.log_stub ScoreExamples.trapezoid
       (as_iterable (Scalar 2)) ScoreExamples.prob_alive
       ScoreExamples.durations ScoreExamples.events = Raise AssertionError.
Proof.
  apply (scores_shape_mismatch KaplanMeier.fit ScoreExamples.log_stub
           ScoreExamples.trapezoid (Scalar 2) ScoreExamples.prob_alive
           ScoreExamples.durations ScoreExamples.events (1 # 10000000)).
  reflexivity.
Defined.

(** A grid in which some time is smaller than the time before it is
    refused with an [AssertionError] by both integrated scores, whatever
    the other arguments are. *)
Theorem integrated_scores_refuse_descent
    (fit : list Q -> list Z -> censoring_curve) (np_log : Q -> fnum)
    (simps : list fnum -> list Q -> fnum) (pre post : list Q) (a b : Q) p d e :
  b < a ->
  integrated_brier_score_numpy fit simps (pre ++ a :: b :: post) p d e
    = Raise AssertionError
  /\ integrated_binomial_log_likelihood_numpy fit np_log simps
       (pre ++ a :: b :: post) p d e = Raise AssertionError.
Proof.
  apply descending_grid_refused.
Qed.

Lemma integrated_scores_refuse_descent_witness :
  integrated_brier_score_numpy KaplanMeier.fit ScoreExamples.trapezoid
    ([1] ++ 3 :: 2 :: []) ScoreExamples.prob_alive ScoreExamples.durations
    ScoreExamples.events = Raise AssertionError
  /\ integrated_binomial_log_likelihood_numpy KaplanMeier.fit
       ScoreExamples.log_stub ScoreExamples.trapezoid ([1] ++ 3 :: 2 :: [])
       ScoreExamples.prob_alive ScoreExamples.durations ScoreExamples.events
     = Raise AssertionError.
Proof.
  apply (integrated_scores_refuse_descent KaplanMeier.fit ScoreExamples.log_stub
           ScoreExamples.trapezoid [1] [] 3 2).
  reflexivity.
Defined.

(** ** [binomial_log_likelihood] *)

Lemma Qltb_irrefl (x : Q) : Qltb x x = false.
Proof. apply Qltb_false_iff. apply Qle_refl. Qed.

Lemma clip_idempotent (lo hi : Q) (x : fnum) :
  lo <= hi -> clip lo hi (clip lo hi x) = clip lo hi x.
Proof.
  intro H. destruct x as [q |]; [| reflexivity]. unfold clip. cbv zeta.
  assert (C : Qltb hi lo = false) by (apply Qltb_false_iff; exact H).
  destruct (Qltb q lo) eqn:A.
  - now rewrite C, Qltb_irrefl, C.
  - destruct (Qltb hi q) eqn:B.
    + now rewrite C, Qltb_irrefl.
    + now rewrite A, B.
Qed.

Lemma clip_range (lo hi q : Q) :
  lo <= hi -> exists c, clip lo hi (Fin q) = Fin c /\ lo <= c <= hi.
Proof.
  intro H. unfold clip. cbv zeta. eexists. split; [reflexivity |].
  destruct (Qltb q lo) eqn:A.
  - assert (C : Qltb hi lo = false) by (apply Qltb_false_iff; exact H).
    rewrite C. lra.
  - destruct (Qltb hi q) eqn:B; [lra |].
    q_props. lra.
Qed.

Lemma has_shape_map {A B} (h : A -> B) (p : list (list A)) (rows cols : nat) :
  has_shape (map (map h) p) rows cols = has_shape p rows cols.
Proof.
  unfold has_shape. rewrite length_map. f_equal.
  induction p as [| r p IH]; simpl; auto.
  now rewrite length_map, IH.
Qed.

(** Predictions outside [[eps, 1 - eps]] count as [eps] or [1 - eps]:
    clipping [prob_alive] beforehand changes nothing. *)
Theorem binomial_log_likelihood_of_clipped
    (fit : list Q -> list Z -> censoring_curve) (np_log : Q -> fnum)
    times p d e eps :
  eps <= 1 - eps ->
  binomial_log_likelihood fit np_log times
    (map (map (clip eps (1 - eps))) p) d e eps
  = binomial_log_likelihood fit np_log times p d e eps.
Proof.
  intro H. unfold binomial_log_likelihood.
  rewrite has_shape_map.
  assert (E : map (map (clip eps (1 - eps))) (map (map (clip eps (1 - eps))) p)
              = map (map (clip eps (1 - eps))) p).
  { rewrite map_map. apply map_ext. intro row.
    rewrite map_map. apply map_ext. intro x. now apply clip_idempotent. }
  rewrite E. reflexivity.
Qed.

Lemma binomial_log_likelihood_of_clipped_witness :
  binomial_log_likelihood KaplanMeier.fit ScoreExamples.log_stub
    (Iterable ScoreExamples.grid)
    (map (map (clip (1 # 100) (1 - (1 # 100)))) ScoreExamples.prob_alive_nan)
    ScoreExamples.durations ScoreExamples.events (1 # 100)
  = binomial_log_likelihood KaplanMeier.fit ScoreExamples.log_stub
      (Iterable ScoreExamples.grid) ScoreExamples.prob_alive_nan
      ScoreExamples.durations ScoreExamples.events (1 # 100).
Proof.
  apply (binomial_log_likelihood_of_clipped KaplanMeier.fit ScoreExamples.log_stub).
  vm_compute. discriminate.
Defined.

Module LogLikelihoodFacts.

Import KaplanMeier KaplanMeierFacts Weights WeightFacts PotentialFacts.

(** The event part plus the survived part of lines 139-140 is the sum of
    the contributions of the subjects. *)
Lemma parts_sum (np_log : Q -> fnum) (t : Q) (g_t : fnum) d e row km_d :
  length e = length d -> length row = length d -> length km_d = length d ->
  fnum_eq
    (fadd
       (ScoreSpec.fsum
          (map2 fdiv
             (map (fun p => flog np_log (fsub (Fin 1) p)) (mask row (died_mask d e t)))
             (mask km_d (died_mask d e t))))
       (ScoreSpec.fsum
          (map (fun x => fdiv x g_t)
               (map (flog np_log) (mask row (survived_mask d t))))))
    (ScoreSpec.fsum
       (map (LogLikelihood.contribution np_log t g_t)
            (ScoreSpec.subjects d e row km_d))).
Proof.
  revert e row km_d.
  induction d as [| T d IH]; intros [| ev e] [| x row] [| g km_d] Le Lr Lk;
    simpl in Le, Lr, Lk; try discriminate.
  - simpl. lra.
  - specialize (IH e row km_d ltac:(lia) ltac:(lia) ltac:(lia)).
    unfold died_mask, survived_mask, Qgtb, Qltb in *.
    cbn -[ScoreSpec.fsum fdiv fsub flog].
    unfold LogLikelihood.contribution at 1.
    cbn -[ScoreSpec.fsum fdiv fsub flog].
    unfold Qgtb, Qltb.
    destruct (Qle_bool T t); destruct ev; cbn -[ScoreSpec.fsum fdiv fsub flog];
      rewrite ?fsum_cons; rewrite <- IH.
    + symmetry. apply fadd_assoc.
    + symmetry. apply fadd_0_l.
    + apply fadd_swap.
    + apply fadd_swap.
Qed.

Lemma compute_score_spec (np_log : Q -> fnum) (t : Q) (g_t : fnum) d e row km_d :
  length e = length d -> length row = length d -> length km_d = length d ->
  fnum_eq (ll_compute_score np_log d e km_d t g_t row)
          (LogLikelihood.score_at np_log t g_t (ScoreSpec.subjects d e row km_d)).
Proof.
  intros Le Lr Lk. unfold ll_compute_score, LogLikelihood.score_at, flen.
  rewrite (subjects_length d e row km_d Le Lr Lk).
  apply fdiv_proper; [| reflexivity].
  rewrite !np_sum_fsum.
  now apply parts_sum.
Qed.

Lemma rows_spec (np_log : Q -> fnum) d e km_d (curve : censoring_curve)
    (times : list Q) (p : list (list fnum)) :
  length e = length d -> length km_d = length d ->
  Forall (fun row => length row = length d) p ->
  Forall2 fnum_eq
    (map2 (fun tk pa => ll_compute_score np_log d e km_d (fst tk) (snd tk) pa)
          (combine times (map (predict curve) times)) p)
    (map2 (fun t row =>
             LogLikelihood.score_at np_log t (predict curve t)
               (ScoreSpec.subjects d e row km_d))
          times p).
Proof.
  intros Le Lk. revert p.
  induction times as [| t times IH]; intros [| row p] F; simpl; try constructor.
  - inversion F; subst. now apply compute_score_spec.
  - inversion F; subst. now apply IH.
Qed.

End LogLikelihoodFacts.

(** Called with a list of evaluation times other than a single one, on a
    sample that the library accepts, [binomial_log_likelihood] returns at
    every time [t] the sum of the contributions of the subjects divided by
    [n]: with [p] the clipped prediction, a subject with [duration <= t] and
    an event contributes [log(1 - p)] over the censoring-curve value at its
    own duration, a subject with [duration > t] contributes [log(p)] over
    the censoring-curve value at [t], and a subject censored by [t]
    contributes nothing. *)
Theorem binomial_log_likelihood_per_time
    (fit : list Q -> list Z -> censoring_curve) (np_log : Q -> fnum)
    times p d e eps km_d :
  has_shape p (length (as_iterable times)) (length d) = true ->
  d <> [] -> length e = length d ->
  sequence (map (survival_function_loc (fit d (one_minus e))) d) = Return km_d ->
  length (as_iterable times) <> 1%nat ->
  exists scores,
    binomial_log_likelihood fit np_log times p d e eps = Return scores
    /\ Forall2 fnum_eq scores
         (map2 (fun t row =>
                  LogLikelihood.score_at np_log t (predict (fit d (one_minus e)) t)
                    (ScoreSpec.subjects d e row km_d))
               (as_iterable times) (map (map (clip eps (1 - eps))) p)).
Proof.
  intros S Ne Le K N.
  rewrite (binomial_log_likelihood_runs fit np_log times p d e eps km_d S Ne Le K N).
  eexists. split; [reflexivity |].
  apply LogLikelihoodFacts.rows_spec.
  - exact Le.
  - rewrite (sequence_length _ _ K). apply length_map.
  - apply Forall_forall. intros row Hin.
    apply in_map_iff in Hin. destruct Hin as [r [<- Hr]].
    rewrite length_map. exact (has_shape_cols _ _ _ _ S Hr).
Qed.

Lemma binomial_log_likelihood_per_time_witness :
  exists scores,
    binomial_log_likelihood KaplanMeier.fit ScoreExamples.log_stub
      (Iterable ScoreExamples.grid) ScoreExamples.prob_alive
      ScoreExamples.durations ScoreExamples.events (1 # 100) = Return scores
    /\ Forall2 fnum_eq scores
         (map2 (fun t row =>
                  LogLikelihood.score_at ScoreExamples.log_stub t
                    (predict (KaplanMeier.fit ScoreExamples.durations
                                (one_minus ScoreExamples.events)) t)
                    (ScoreSpec.subjects ScoreExamples.durations
                       ScoreExamples.events row
                       (map (Weights.km ScoreExamples.durations ScoreExamples.events)
                            ScoreExamples.durations)))
               (as_iterable (Iterable ScoreExamples.grid))
               (map (map (clip (1 # 100) (1 - (1 # 100)))) ScoreExamples.prob_alive)).
Proof.
  apply (binomial_log_likelihood_per_time KaplanMeier.fit ScoreExamples.log_stub
           (Iterable ScoreExamples.grid) ScoreExamples.prob_alive
           ScoreExamples.durations ScoreExamples.events (1 # 100)).
  - reflexivity.
  - discriminate.
  - reflexivity.
  - apply BrierFacts.km_censor_at_durations.
  - discriminate.
Defined.

(** ** The range of the binomial log-likelihood *)

Module LogLikelihoodRange.

Import KaplanMeier KaplanMeierFacts Weights WeightFacts PotentialFacts.

(** A sum of finite terms, each between its lower bound and 0. *)
Lemma fsum_between {A} (h : A -> fnum) (lo : A -> Q) (l : list A) :
  (forall x, In x l -> exists q, h x = Fin q /\ lo x <= q <= 0) ->
  exists q, ScoreSpec.fsum (map h l) = Fin q /\ total lo l <= q <= 0.
Proof.
  induction l as [| a l IH]; intro H.
  - exists 0. split; [reflexivity |]. unfold total. simpl. lra.
  - destruct (H a (or_introl eq_refl)) as [qa [Ea Ba]].
    destruct IH as [ql [El Bl]].
    { intros x Hx. apply H. now right. }
    exists (qa + ql). split.
    + simpl. rewrite Ea. simpl in El. rewrite El. reflexivity.
    + rewrite total_cons. lra.
Qed.

Lemma weighted_log (l L w : Q) :
  L <= l <= 0 -> 0 < w -> L * / w <= l / w <= 0.
Proof.
  intros [A B] W.
  assert (I : 0 < / w) by now apply Qinv_lt_0_compat.
  unfold Qdiv. split.
  - apply Qmult_le_compat_r; lra.
  - assert (0 <= (- l) * / w) by (apply Qmult_le_0_compat; lra).
    lra.
Qed.

Section OneTime.

Variable np_log : Q -> fnum.
Variables eps L : Q.
Hypothesis Heps : eps <= 1 - eps.
Hypothesis Hlog : LogLikelihood.log_between np_log eps L.

Variable d : list Q.
Variable e : list bool.
Hypothesis Hlen : length e = length d.
Hypothesis Hne : d <> [].
Variable t : Q.

Lemma L_nonpositive : L <= 0.
Proof.
  destruct (Hlog eps) as [l [_ B]]; lra.
Qed.

Lemma contribution_between row (s : ScoreSpec.subject) :
  Forall (fun x => isfinite x = true) row ->
  In s (ScoreSpec.subjects d e (map (clip eps (1 - eps)) row) (map (km d e) d)) ->
  exists q,
    LogLikelihood.contribution np_log t (km d e t) s = Fin q
    /\ L * bound d e t (ScoreSpec.duration s, ScoreSpec.event s) <= q <= 0.
Proof.
  intros Hrow Hs.
  destruct (BrierFacts.subjects_in (km d e) d e _ s Hs) as [Hpair [Hp Hk]].
  apply in_map_iff in Hp. destruct Hp as [x [Ex Hx]].
  rewrite Forall_forall in Hrow. specialize (Hrow x Hx).
  destruct x as [p |]; [| discriminate].
  destruct (clip_range eps (1 - eps) p Heps) as [c [Ec Rc]].
  rewrite Ec in Ex.
  unfold LogLikelihood.contribution, bound. rewrite Hk, <- Ex.
  simpl fst. simpl snd.
  destruct (Qle_bool (ScoreSpec.duration s) t && ScoreSpec.event s) eqn:Died.
  - apply andb_true_iff in Died. destruct Died as [Le Ev].
    pose proof (own_weight_positive d e Hlen t _ Hpair Le Ev) as W.
    simpl in W.
    destruct (Hlog (1 - c)) as [l [El Bl]]; [lra |].
    unfold fsub, flog. rewrite El. unfold km, fdiv. fold (G d e (ScoreSpec.duration s)).
    assert (NZ : Qeq_bool (G d e (ScoreSpec.duration s)) 0 = false).
    { apply Qeq_bool_false_iff. lra. }
    rewrite NZ. eexists. split; [reflexivity |].
    now apply weighted_log.
  - destruct (Qgtb (ScoreSpec.duration s) t) eqn:Alive.
    + pose proof (weight_positive_while_observed d e Hlen t _ Hpair Alive) as W.
      destruct (Hlog c) as [l [El Bl]]; [lra |].
      unfold flog. rewrite El. unfold km, fdiv. fold (G d e t).
      assert (NZ : Qeq_bool (G d e t) 0 = false).
      { apply Qeq_bool_false_iff. lra. }
      rewrite NZ. eexists. split; [reflexivity |].
      now apply weighted_log.
    + exists 0. split; [reflexivity | lra].
Qed.

Lemma compute_score_between row :
  length row = length d ->
  Forall (fun x => isfinite x = true) row ->
  LogLikelihood.between L
    (ll_compute_score np_log d e (map (km d e) d) t (km d e t)
       (map (clip eps (1 - eps)) row)).
Proof.
  intros Lr Hrow.
  assert (Lr' : length (map (clip eps (1 - eps)) row) = length d)
    by now rewrite length_map.
  pose proof (LogLikelihoodFacts.compute_score_spec np_log t (km d e t) d e _
                (map (km d e) d) Hlen Lr' (length_map _ d)) as Spec.
  unfold LogLikelihood.score_at in Spec.
  destruct (fsum_between (LogLikelihood.contribution np_log t (km d e t))
              (fun s => L * bound d e t (ScoreSpec.duration s, ScoreSpec.event s))
              (ScoreSpec.subjects d e (map (clip eps (1 - eps)) row)
                 (map (km d e) d)))
    as [q [Eq [Q0 Q1]]].
  { intros s Hs. now apply (contribution_between row). }
  rewrite Eq in Spec.
  assert (T : total (fun s => L * bound d e t (ScoreSpec.duration s, ScoreSpec.event s))
                (ScoreSpec.subjects d e (map (clip eps (1 - eps)) row)
                   (map (km d e) d))
              == L * total (bound d e t) (subj d e)).
  { unfold subj.
    rewrite <- (BrierFacts.subjects_pairs (km d e) d e _ Hlen Lr').
    rewrite total_map.
    rewrite (total_ext _ (fun s => bound d e t (ScoreSpec.duration s, ScoreSpec.event s) * L)).
    - rewrite total_scale. ring.
    - intros x _. ring. }
  rewrite T in Q0.
  pose proof (bounds_total d e Hlen t) as B.
  pose proof L_nonpositive as L0.
  unfold flen in Spec.
  rewrite (subjects_length d e _ (map (km d e) d) Hlen Lr' (length_map _ d)) in Spec.
  pose proof (BrierValueFacts.sample_size_positive d Hne) as N.
  set (n := inject_Z (Z.of_nat (length d))) in *.
  set (w := total (bound d e t) (subj d e)) in *.
  assert (Low : L * n <= q) by nra.
  unfold fdiv in Spec.
  assert (NZ : Qeq_bool n 0 = false) by (apply Qeq_bool_false_iff; lra).
  rewrite NZ in Spec.
  destruct (ll_compute_score np_log d e (map (km d e) d) t (km d e t)
              (map (clip eps (1 - eps)) row)) as [r |];
    simpl in Spec; [| contradiction].
  exists r. split; [reflexivity |]. rewrite Spec. split.
  - apply Qle_shift_div_l; lra.
  - apply Qle_shift_div_r; lra.
Qed.

End OneTime.

Lemma rows_between np_log eps L d e (times : list Q) (p : list (list fnum)) :
  eps <= 1 - eps -> LogLikelihood.log_between np_log eps L ->
  length e = length d -> d <> [] ->
  Forall (fun row => length row = length d) p ->
  BrierValue.finite_matrix p ->
  Forall (LogLikelihood.between L)
    (map2 (fun tk pa =>
             ll_compute_score np_log d e (map (km d e) d) (fst tk) (snd tk) pa)
          (combine times (map (km d e) times))
          (map (map (clip eps (1 - eps))) p)).
Proof.
  intros He Hl Le Ne. revert p.
  induction times as [| t times IH]; intros [| row p] Ls F; simpl;
    try constructor.
  - inversion Ls; inversion F; subst.
    now apply (compute_score_between np_log eps L He Hl d e Le Ne t row).
  - inversion Ls; inversion F; subst. now apply IH.
Qed.

End LogLikelihoodRange.

Lemma between_nonpositive (L : Q) (scores : list fnum) :
  Forall (LogLikelihood.between L) scores ->
  Forall (fun x => exists q, x = Fin q /\ q <= 0) scores.
Proof.
  intro F. eapply Forall_impl; [| exact F].
  intros x [q [E [_ B]]]. now exists q.
Qed.

(** With the Kaplan-Meier censoring curve, finite predictions, times on
    the fitted curve and a logarithm that is finite and at most 0 on the
    clipping range [[eps, 1 - eps]], every score that
    [binomial_log_likelihood] returns is a finite number that is not
    positive, there is one score per time, and scores are returned
    whenever the times are not a single one: the clipping keeps [log(0)]
    out. *)
Theorem binomial_log_likelihood_finite_nonpositive (np_log : Q -> fnum)
    (eps L : Q) times p d e :
  eps <= 1 - eps ->
  LogLikelihood.log_between np_log eps L ->
  has_shape p (length (as_iterable times)) (length d) = true ->
  length e = length d -> d <> [] ->
  on_curve d (as_iterable times) ->
  BrierValue.finite_matrix p ->
  (length (as_iterable times) <> 1%nat ->
   exists scores,
     binomial_log_likelihood KaplanMeier.fit np_log times p d e eps
     = Return scores)
  /\ (forall scores,
        binomial_log_likelihood KaplanMeier.fit np_log times p d e eps
        = Return scores ->
        length scores = length (as_iterable times)
        /\ Forall (fun x => exists q, x = Fin q /\ q <= 0) scores).
Proof.
  intros He Hl S Le Ne C F.
  assert (Run : length (as_iterable times) <> 1%nat ->
                binomial_log_likelihood KaplanMeier.fit np_log times p d e eps
                = Return
                    (map2 (fun tk pa =>
                             ll_compute_score np_log d e (map (Weights.km d e) d)
                               (fst tk) (snd tk) pa)
                          (combine (as_iterable times)
                                   (map (Weights.km d e) (as_iterable times)))
                          (map (map (clip eps (1 - eps))) p))).
  { intro N.
    rewrite (binomial_log_likelihood_runs KaplanMeier.fit np_log times p d e eps _
               S Ne Le (BrierFacts.km_censor_at_durations d (one_minus e)) N).
    now rewrite (BrierFacts.predict_times_on_curve d (one_minus e) _ C). }
  split.
  - intro N. rewrite (Run N). eexists. reflexivity.
  - intros scores E.
    split; [exact (binomial_log_likelihood_length _ _ _ _ _ _ _ _ E) |].
    destruct (Nat.eq_dec (length (as_iterable times)) 1) as [One | N].
    + rewrite (proj2 (single_time_raises KaplanMeier.fit np_log times p d e eps _
                        S Ne Le (BrierFacts.km_censor_at_durations d (one_minus e))
                        One)) in E.
      discriminate E.
    + rewrite (Run N) in E. inversion E.
      apply (between_nonpositive L).
      apply LogLikelihoodRange.rows_between; auto.
      apply Forall_forall. intros row Hin. exact (has_shape_cols _ _ _ _ S Hin).
Qed.

Lemma log_stub_between :
  LogLikelihood.log_between ScoreExamples.log_stub (1 # 100) (- (99 # 100)).
Proof.
  intros q [A B]. exists (q - 1). split; [reflexivity |]. lra.
Qed.

Lemma binomial_log_likelihood_finite_nonpositive_witness :
  (length (as_iterable (Iterable ScoreExamples.grid)) <> 1%nat ->
   exists scores,
     binomial_log_likelihood KaplanMeier.fit ScoreExamples.log_stub
       (Iterable ScoreExamples.grid) ScoreExamples.prob_alive
       ScoreExamples.durations ScoreExamples.events (1 # 100) = Return scores)
  /\ (forall scores,
        binomial_log_likelihood KaplanMeier.fit ScoreExamples.log_stub
          (Iterable ScoreExamples.grid) ScoreExamples.prob_alive
          ScoreExamples.durations ScoreExamples.events (1 # 100) = Return scores ->
        length scores = length (as_iterable (Iterable ScoreExamples.grid))
        /\ Forall (fun x => exists q, x = Fin q /\ q <= 0) scores).
Proof.
  apply (binomial_log_likelihood_finite_nonpositive ScoreExamples.log_stub
           (1 # 100) (- (99 # 100)) (Iterable ScoreExamples.grid)
           ScoreExamples.prob_alive ScoreExamples.durations ScoreExamples.events).
  - vm_compute. discriminate.
  - exact log_stub_between.
  - reflexivity.
  - reflexivity.
  - discriminate.
  - repeat constructor.
  - repeat constructor.
Defined.

(** ** [integrated_brier_score]: the default grid *)

Module GridFacts.

Lemma qmin_le (x y : Q) : qmin x y <= x /\ qmin x y <= y.
Proof.
  unfold qmin. destruct (Qle_bool x y) eqn:E.
  - apply Qle_bool_iff in E. lra.
  - assert (~ x <= y) by (intro H; apply Qle_bool_iff in H; congruence). lra.
Qed.

Lemma qmax_ge (x y : Q) : x <= qmax x y /\ y <= qmax x y.
Proof.
  unfold qmax. destruct (Qle_bool x y) eqn:E.
  - apply Qle_bool_iff in E. lra.
  - assert (~ x <= y) by (intro H; apply Qle_bool_iff in H; congruence). lra.
Qed.

Lemma fold_qmin (r : list Q) (x : Q) :
  fold_left qmin r x <= x /\ (forall y, In y r -> fold_left qmin r x <= y)
  /\ In (fold_left qmin r x) (x :: r).
Proof.
  revert x. induction r as [| a r IH]; intro x; simpl.
  - repeat split; [lra | tauto | now left].
  - destruct (IH (qmin x a)) as [A [B C]].
    destruct (qmin_le x a) as [M1 M2].
    repeat split.
    + lra.
    + intros y [<- | Hy]; [lra | now apply B].
    + destruct C as [C | C]; [| now right; right].
      rewrite <- C. unfold qmin.
      destruct (Qle_bool x a); [left | right; left]; reflexivity.
Qed.

Lemma fold_qmax (r : list Q) (x : Q) :
  x <= fold_left qmax r x /\ (forall y, In y r -> y <= fold_left qmax r x)
  /\ In (fold_left qmax r x) (x :: r).
Proof.
  revert x. induction r as [| a r IH]; intro x; simpl.
  - repeat split; [lra | tauto | now left].
  - destruct (IH (qmax x a)) as [A [B C]].
    destruct (qmax_ge x a) as [M1 M2].
    repeat split.
    + lra.
    + intros y [<- | Hy]; [lra | now apply B].
    + destruct C as [C | C]; [| now right; right].
      rewrite <- C. unfold qmax.
      destruct (Qle_bool x a); [right; left | left]; reflexivity.
Qed.

(** Non-decreasing neighbours make the assertion pass. *)
Lemma monotonic_by_index (x : list Q) :
  (forall i, (S i < length x)%nat -> nth i x 0 <= nth (S i) x 0) ->
  is_monotonic_increasing x = true.
Proof.
  induction x as [| a x IH]; [reflexivity |].
  destruct x as [| b rest]; [reflexivity |].
  intro H.
  change (Qle_bool a b && is_monotonic_increasing (b :: rest) = true).
  apply andb_true_iff. split.
  - apply Qle_bool_iff. apply (H 0%nat). simpl. lia.
  - apply IH. intros i Hi. apply (H (S i)). simpl in *. lia.
Qed.

Lemma inject_nat_le (i k : nat) :
  (i <= k)%nat -> inject_Z (Z.of_nat i) <= inject_Z (Z.of_nat k).
Proof. intro H. rewrite <- Zle_Qle. lia. Qed.

Lemma inject_nat_succ (i : nat) :
  inject_Z (Z.of_nat (S i)) == inject_Z (Z.of_nat i) + 1.
Proof.
  rewrite Nat2Z.inj_succ. unfold Z.succ. rewrite inject_Z_plus. reflexivity.
Qed.

Lemma linspace_length (start stop : Q) (num : nat) :
  length (linspace start stop num) = num.
Proof.
  destruct num as [| [| n]]; try reflexivity.
  unfold linspace. now rewrite length_map, length_seq.
Qed.

Lemma linspace_nth (start stop : Q) (n i : nat) :
  (i < S (S n))%nat ->
  nth i (linspace start stop (S (S n))) 0
  = if (i =? S n)%nat then stop
    else start + inject_Z (Z.of_nat i)
                 * ((stop - start) / inject_Z (Z.of_nat (S n))).
Proof.
  intro L. unfold linspace.
  replace (S (S n) - 1)%nat with (S n) by lia.
  set (g := fun i0 : nat => if (i0 =? S n)%nat then stop
                            else start + inject_Z (Z.of_nat i0)
                                 * ((stop - start) / inject_Z (Z.of_nat (S n)))).
  rewrite (nth_indep _ 0 (g 0%nat)) by (now rewrite length_map, length_seq).
  rewrite (map_nth g), seq_nth by exact L. reflexivity.
Qed.

(** From [start <= stop] the grid of [np.linspace] never goes down. *)
Lemma linspace_monotonic (start stop : Q) (num : nat) :
  start <= stop -> is_monotonic_increasing (linspace start stop num) = true.
Proof.
  intro H. destruct num as [| [| n]]; try reflexivity.
  apply monotonic_by_index. rewrite linspace_length. intros i Hi.
  rewrite !linspace_nth by lia.
  assert (K : 1 <= inject_Z (Z.of_nat (S n))).
  { change 1 with (inject_Z (Z.of_nat 1)). apply inject_nat_le. lia. }
  set (k := inject_Z (Z.of_nat (S n))) in *.
  set (s := (stop - start) / k).
  assert (Sk : s * k == stop - start) by (unfold s; field; lra).
  assert (S0 : 0 <= s) by (unfold s; apply Qle_shift_div_l; lra).
  assert (Ne : (i =? S n)%nat = false) by (apply Nat.eqb_neq; lia).
  rewrite Ne.
  pose proof (inject_nat_succ i) as Si.
  destruct (S i =? S n)%nat eqn:E.
  - apply Nat.eqb_eq in E.
    assert (Ik : inject_Z (Z.of_nat i) <= k) by (apply inject_nat_le; lia).
    nra.
  - rewrite Si. nra.
Qed.

Lemma last_as_nth (l : list Q) : last l 0 = nth (length l - 1) l 0.
Proof.
  induction l as [| a l IH]; [reflexivity |].
  destruct l as [| b r]; [reflexivity |].
  change (last (a :: b :: r) 0) with (last (b :: r) 0).
  rewrite IH. simpl. now rewrite Nat.sub_0_r.
Qed.

(** With at least two points the grid starts at [start] and ends at
    [stop]. *)
Lemma linspace_ends (start stop : Q) (n : nat) :
  hd 0 (linspace start stop (S (S n))) == start
  /\ last (linspace start stop (S (S n))) 0 = stop.
Proof.
  split.
  - unfold linspace. simpl. unfold Qdiv. ring.
  - rewrite last_as_nth, linspace_length.
    replace (S (S n) - 1)%nat with (S n) by lia.
    rewrite linspace_nth by lia. now rewrite Nat.eqb_refl.
Qed.

End GridFacts.

(** With no grid given, [integrated_brier_score] builds the grid from the
    smallest to the largest duration; this grid always passes the
    monotonicity assertion, has [n_grid_points] points, and with at least
    two points starts at the smallest and ends at the largest duration. *)
Theorem integrated_brier_score_default_grid
    (fit : list Q -> list Z -> censoring_curve)
    (simps : list fnum -> list Q -> fnum)
    (prob_alive_func : list Q -> list (list fnum))
    (d : list Q) (e : list bool) (n : nat) :
  d <> [] ->
  exists lo hi,
    (In lo d /\ In hi d /\ forall T, In T d -> lo <= T <= hi)
    /\ is_monotonic_increasing (linspace lo hi n) = true
    /\ length (linspace lo hi n) = n
    /\ ((2 <= n)%nat ->
        hd 0 (linspace lo hi n) == lo /\ last (linspace lo hi n) 0 = hi)
    /\ integrated_brier_score fit simps prob_alive_func d e None n
       = integrated_brier_score_numpy fit simps (linspace lo hi n)
           (prob_alive_func (linspace lo hi n)) d e.
Proof.
  intro Ne. destruct d as [| x r]; [congruence |].
  destruct (GridFacts.fold_qmin r x) as [A1 [A2 A3]].
  destruct (GridFacts.fold_qmax r x) as [B1 [B2 B3]].
  exists (fold_left qmin r x), (fold_left qmax r x).
  split; [| split; [| split; [| split]]].
  - split; [exact A3 |]. split; [exact B3 |].
    intros T [<- | HT]; split; auto.
  - apply GridFacts.linspace_monotonic. lra.
  - apply GridFacts.linspace_length.
  - intro N. destruct n as [| [| m]]; try lia. apply GridFacts.linspace_ends.
  - reflexivity.
Qed.

Lemma integrated_brier_score_default_grid_witness :
  exists lo hi,
    (In lo ScoreExamples.durations /\ In hi ScoreExamples.durations
     /\ forall T, In T ScoreExamples.durations -> lo <= T <= hi)
    /\ is_monotonic_increasing (linspace lo hi 3) = true
    /\ length (linspace lo hi 3) = 3%nat
    /\ ((2 <= 3)%nat ->
        hd 0 (linspace lo hi 3) == lo /\ last (linspace lo hi 3) 0 = hi)
    /\ integrated_brier_score KaplanMeier.fit ScoreExamples.trapezoid
         (fun _ => ScoreExamples.prob_alive) ScoreExamples.durations
         ScoreExamples.events None 3
       = integrated_brier_score_numpy KaplanMeier.fit ScoreExamples.trapezoid
           (linspace lo hi 3) ScoreExamples.prob_alive
           ScoreExamples.durations ScoreExamples.events.
Proof.
  apply (integrated_brier_score_default_grid KaplanMeier.fit
           ScoreExamples.trapezoid (fun _ => ScoreExamples.prob_alive)
           ScoreExamples.durations ScoreExamples.events 3).
  discriminate.
Defined.

(** ** [partial_log_likelihood_ph]: the risk set *)

Module PartialLikelihoodFacts.

Import PartialLikelihood.

Lemma Qsum_permutation (a b : list Q) :
  Permutation a b -> Spec.Qsum a == Spec.Qsum b.
Proof.
  induction 1 as [| x a b _ IH | x y a | a b c _ IH1 _ IH2]; simpl.
  - reflexivity.
  - now rewrite IH.
  - ring.
  - now rewrite IH1.
Qed.

Lemma filter_permutation {A} (p : A -> bool) (a b : list A) :
  Permutation a b -> Permutation (filter p a) (filter p b).
Proof.
  induction 1 as [| x a b _ IH | x y a | a b c _ IH1 _ IH2]; simpl.
  - constructor.
  - destruct (p x); [now constructor | exact IH].
  - destruct (p x), (p y); try reflexivity. constructor.
  - now transitivity (filter p b).
Qed.

(** The risk set does not depend on the order of the rows. *)
Lemma risk_sum_permutation (np_exp : Q -> Q) (a b : list row) (d : Q) :
  Permutation a b -> risk_sum np_exp a d == risk_sum np_exp b d.
Proof.
  intro H. unfold risk_sum. apply Qsum_permutation.
  apply Permutation_map. now apply filter_permutation.
Qed.

Lemma risk_sum_proper (np_exp : Q -> Q) (l : list row) (d d' : Q) :
  d == d' -> risk_sum np_exp l d = risk_sum np_exp l d'.
Proof.
  intro H. unfold risk_sum. f_equal. f_equal.
  apply filter_ext. intro r. apply Qleb_comp; [exact H | reflexivity].
Qed.

Lemma combine_with_map {A B} (h : A -> B) (l : list A) :
  combine l (map h l) = map (fun x => (x, h x)) l.
Proof.
  induction l as [| a l IH]; simpl; auto. now rewrite IH.
Qed.

Lemma combine_map_keys {A B C} (h : A -> C) (l : list A) (v : list B) :
  combine (map h l) v = map (fun p => (h (fst p), snd p)) (combine l v).
Proof.
  revert v. induction l as [| a l IH]; intros [| x v]; simpl; auto.
  now rewrite IH.
Qed.

Lemma filter_map_comm {A B} (p : B -> bool) (h : A -> B) (l : list A) :
  filter p (map h l) = map h (filter (fun x => p (h x)) l).
Proof.
  induction l as [| a l IH]; simpl; auto.
  destruct (p (h a)); simpl; now rewrite IH.
Qed.

Section Weights.

Variable np_exp : Q -> Q.
Hypothesis exp_nonneg : forall q, 0 <= np_exp q.

Local Abbreviation w := (fun r : row => np_exp (lph r)).
Local Abbreviation rc := (running np_exp).

Lemma weights_nonneg (l : list row) : 0 <= Spec.Qsum (map w l).
Proof. apply Qsum_map_nonneg. intros r _. apply exp_nonneg. Qed.

Lemma rc_app (acc : Q) (l1 l2 : list row) :
  exists acc', acc' == acc + Spec.Qsum (map w l1)
               /\ rc acc (l1 ++ l2) = rc acc l1 ++ rc acc' l2.
Proof.
  revert acc. induction l1 as [| r l1 IH]; intro acc.
  - exists acc. split; [simpl; ring | reflexivity].
  - destruct (IH (acc + w r)) as [acc' [E1 E2]].
    exists acc'. split.
    + rewrite E1. simpl. ring.
    + unfold rc in *. simpl. now rewrite E2.
Qed.

Lemma rc_in (acc : Q) (l : list row) (p : row * Q) :
  In p (rc acc l) -> In (fst p) l /\ snd p <= acc + Spec.Qsum (map w l).
Proof.
  revert acc. induction l as [| r l IH]; intros acc H; [contradiction |].
  unfold rc in H. simpl in H. destruct H as [<- | H].
  - split; [now left |]. simpl. pose proof (weights_nonneg l). lra.
  - destruct (IH (acc + w r) H) as [H1 H2].
    split; [now right |]. simpl. lra.
Qed.

Lemma rc_last (acc : Q) (l : list row) (r0 : row) :
  l <> [] ->
  exists c, In (last l r0, c) (rc acc l) /\ c == acc + Spec.Qsum (map w l).
Proof.
  revert acc. induction l as [| r l IH]; intros acc Ne; [congruence |].
  destruct l as [| r' l'].
  - exists (acc + w r). split; [now left | simpl; ring].
  - destruct (IH (acc + w r)) as [c [H1 H2]]; [discriminate |].
    exists c. split.
    + right. exact H1.
    + rewrite H2. simpl. ring.
Qed.

Lemma desc_app_l (l1 l2 : list row) :
  StronglySorted desc (l1 ++ l2) -> StronglySorted desc l1.
Proof.
  induction l1 as [| a l1 IH]; intro S; [constructor |].
  simpl in S. inversion S as [| ? ? Sl Fa]; subst.
  constructor; [now apply IH |].
  rewrite Forall_forall in *. intros x Hx. apply Fa. apply in_or_app. now left.
Qed.

Lemma desc_last_le (l : list row) (r0 x : row) :
  StronglySorted desc l -> In x l -> duration (last l r0) <= duration x.
Proof.
  induction l as [| a l IH]; intros S Hx; [contradiction |].
  inversion S as [| ? ? Sl Fa]; subst.
  destruct l as [| b l'].
  - destruct Hx as [<- | []]. simpl. apply Qle_refl.
  - change (last (a :: b :: l') r0) with (last (b :: l') r0).
    destruct Hx as [<- | Hx].
    + rewrite Forall_forall in Fa. apply (Fa (last (b :: l') r0)).
      destruct (@exists_last _ (b :: l') ltac:(discriminate)) as [l0 [z E]].
      rewrite E, last_last. apply in_or_app. right. now left.
    + now apply IH.
Qed.

(** The rows of the risk set of [k] come first in a descending list. *)
Lemma desc_filter_split (k : Q) (l : list row) :
  StronglySorted desc l ->
  l = filter (fun r => Qle_bool k (duration r)) l
      ++ filter (fun r => negb (Qle_bool k (duration r))) l.
Proof.
  intro S. induction l as [| a l IH]; simpl; auto.
  inversion S as [| ? ? Sl Fa]; subst.
  destruct (Qle_bool k (duration a)) eqn:E; simpl.
  - f_equal. now apply IH.
  - assert (Ha : ~ k <= duration a).
    { intro Le. apply Qle_bool_iff in Le. congruence. }
    assert (N : filter (fun r => Qle_bool k (duration r)) l = []).
    { destruct (filter (fun r => Qle_bool k (duration r)) l) as [| b r] eqn:F; auto.
      assert (Hb : In b (filter (fun r => Qle_bool k (duration r)) l)).
      { rewrite F. now left. }
      apply filter_In in Hb. destruct Hb as [Hb1 Hb2].
      apply Qle_bool_iff in Hb2.
      rewrite Forall_forall in Fa. specialize (Fa b Hb1). unfold desc in Fa.
      exfalso. apply Ha. lra. }
    rewrite N in *. simpl. f_equal. simpl in IH. now apply IH.
Qed.

Lemma list_max_attained (vs : list Q) (R : Q) :
  (forall v, In v vs -> v <= R) ->
  (exists v, In v vs /\ v == R) ->
  list_max vs == R.
Proof.
  intros Hle [v [Hin Hv]].
  destruct vs as [| x r]; [contradiction |].
  unfold list_max.
  destruct (GridFacts.fold_qmax r x) as [A [B C]].
  apply Qle_antisym.
  - now apply Hle.
  - rewrite <- Hv. destruct Hin as [<- | Hin]; [exact A | now apply B].
Qed.

(** In a list sorted by descending duration the largest running sum
    among the rows with the duration of [x] is the sum over the risk set
    of [x]. *)
Lemma group_max_is_risk_sum (l : list row) (x : row) :
  StronglySorted desc l -> In x l ->
  list_max (map snd (filter (fun p => Qeq_bool (duration (fst p)) (duration x))
                            (rc 0 l)))
  == risk_sum np_exp l (duration x).
Proof.
  intros S Hx.
  set (k := duration x).
  set (P := filter (fun r => Qle_bool k (duration r)) l).
  set (rest := filter (fun r => negb (Qle_bool k (duration r))) l).
  assert (Split : l = P ++ rest) by now apply desc_filter_split.
  assert (HxP : In x P).
  { apply filter_In. split; [exact Hx |]. apply Qle_bool_iff. apply Qle_refl. }
  assert (NE : P <> []) by (intro E; rewrite E in HxP; contradiction).
  assert (SP : StronglySorted desc P).
  { apply (desc_app_l P rest). now rewrite <- Split. }
  destruct (rc_app 0 P rest) as [acc' [Eacc Erc]].
  rewrite <- Split in Erc.
  change (risk_sum np_exp l k) with (Spec.Qsum (map w P)).
  apply list_max_attained.
  - intros v Hv. apply in_map_iff in Hv. destruct Hv as [p [<- Hp]].
    apply filter_In in Hp. destruct Hp as [Hp Hk].
    apply Qeq_bool_iff in Hk.
    rewrite Erc in Hp. apply in_app_or in Hp. destruct Hp as [Hp | Hp].
    + destruct (rc_in 0 P p Hp) as [_ Le]. lra.
    + destruct (rc_in acc' rest p Hp) as [Hr _].
      apply filter_In in Hr. destruct Hr as [_ Hr].
      apply negb_true_iff in Hr.
      assert (k <= duration (fst p)) by lra.
      apply Qle_bool_iff in H. congruence.
  - destruct (rc_last 0 P x NE) as [c [Hc Ec]].
    exists c. split; [| rewrite Ec; ring].
    apply in_map_iff. exists (last P x, c). split; [reflexivity |].
    apply filter_In. split.
    + rewrite Erc. apply in_or_app. now left.
    + apply Qeq_bool_iff. simpl.
      pose proof (desc_last_le P x x SP HxP) as Le1.
      assert (HlP : In (last P x) P).
      { destruct (@exists_last _ P NE) as [l0 [z E]].
        rewrite E, last_last. apply in_or_app. right. now left. }
      apply filter_In in HlP. destruct HlP as [_ Le2].
      apply Qle_bool_iff in Le2. fold k in Le1. lra.
Qed.

End Weights.

Lemma forall2_with_map {A B} (P : A -> B -> Prop) (h : A -> B) (l : list A) :
  (forall x, In x l -> P x (h x)) -> Forall2 P l (map h l).
Proof.
  induction l as [| a l IH]; intro H; simpl; constructor.
  - apply H. now left.
  - apply IH. intros x Hx. apply H. now right.
Qed.

(** The series the function computes, on the sorted frame. *)
Lemma pll_of_sorted (np_exp : Q -> Q) (np_log : Q -> fnum)
    (sort : list row -> list row) (lphs durations : list Q) (events : list Z)
    (mean : bool) :
  length durations = length events -> length events = length lphs ->
  let sorted := sort (rows_from 0 durations events lphs) in
  let cum r :=
    list_max (map snd (filter (fun p => Qeq_bool (duration (fst p)) (duration r))
                              (running np_exp 0 sorted))) in
  let obs := filter (fun r => (event r =? 1)%Z) sorted in
  let pll := map (fun rc => (index (fst rc),
                             fsub (Fin (lph (fst rc))) (np_log (snd rc))))
                 (combine obs (map cum obs)) in
  partial_log_likelihood_ph np_exp np_log sort lphs durations events mean
  = Return (if mean then Mean (fdiv (np_sum (map snd pll)) (flen pll))
            else Series pll).
Proof.
  intros L1 L2 sorted cum obs pll.
  unfold partial_log_likelihood_ph, data_frame.
  rewrite L1, L2, !Nat.eqb_refl.
  cbv beta iota zeta delta [Py.bind andb].
  fold sorted.
  assert (E : map (fun rc : row * Q =>
                     (index (fst rc), fsub (Fin (lph (fst rc))) (np_log (snd rc))))
                (filter (fun rc : row * Q => (event (fst rc) =? 1)%Z)
                   (combine sorted
                      (group_max (map duration sorted)
                         (cumsum 0 (map (fun r => np_exp (lph r)) sorted)))))
              = pll).
  { unfold pll, group_max. rewrite map_map.
    rewrite combine_map_keys.
    assert (F : forall k,
               map snd (filter (fun kv : Q * Q => Qeq_bool (fst kv) k)
                          (map (fun p : row * Q => (duration (fst p), snd p))
                             (combine sorted
                                (cumsum 0 (map (fun r => np_exp (lph r)) sorted)))))
               = map snd (filter (fun p : row * Q => Qeq_bool (duration (fst p)) k)
                            (running np_exp 0 sorted))).
    { intro k. rewrite filter_map_comm, map_map. reflexivity. }
    rewrite (map_ext _ cum) by (intro r; unfold cum; now rewrite F).
    rewrite !combine_with_map.
    rewrite filter_map_comm. reflexivity. }
  rewrite E. destruct mean; reflexivity.
Qed.

Lemma rows_from_event (i : nat) (durations : list Q) (events : list Z)
    (lphs : list Q) (r : row) :
  In r (rows_from i durations events lphs) -> In (event r) events.
Proof.
  revert i events lphs.
  induction durations as [| d ds IH]; intros i [| e es] [| l ls] H;
    simpl in H; try contradiction.
  destruct H as [<- | H]; [now left | right; eauto].
Qed.

Lemma insert_desc_permutation (r : row) (l : list row) :
  Permutation (insert_desc r l) (r :: l).
Proof.
  induction l as [| x l IH]; simpl; [reflexivity |].
  destruct (Qle_bool (duration x) (duration r)); [reflexivity |].
  rewrite IH. apply perm_swap.
Qed.

Lemma insert_desc_sorted (r : row) (l : list row) :
  StronglySorted desc l -> StronglySorted desc (insert_desc r l).
Proof.
  induction l as [| x l IH]; intro S; simpl.
  - repeat constructor.
  - inversion S as [| ? ? Sl Fa]; subst.
    destruct (Qle_bool (duration x) (duration r)) eqn:E.
    + apply Qle_bool_iff in E. constructor; [exact S |].
      constructor; [exact E |].
      rewrite Forall_forall in *. intros y Hy. specialize (Fa y Hy).
      unfold desc in *. lra.
    + assert (Hx : duration r <= duration x).
      { destruct (Qlt_le_dec (duration r) (duration x)) as [Lt | Le]; [lra |].
        apply Qle_bool_iff in Le. congruence. }
      constructor; [now apply IH |].
      rewrite Forall_forall in *. intros y Hy.
      apply (Permutation_in _ (insert_desc_permutation r l)) in Hy.
      destruct Hy as [<- | Hy]; [exact Hx | now apply Fa].
Qed.

Lemma insertion_sort_desc_sorts : sorts_descending insertion_sort_desc.
Proof.
  intro l. split.
  - induction l as [| a l IH]; simpl; [constructor |].
    unfold insertion_sort_desc in *. simpl.
    rewrite insert_desc_permutation. now constructor.
  - induction l as [| a l IH]; simpl; [constructor |].
    apply (insert_desc_sorted a _ IH).
Qed.

End PartialLikelihoodFacts.

(** For every row with an observed event, whatever order the sort gives to
    equal durations, [partial_log_likelihood_ph] subtracts from the row's
    log partial hazard the logarithm of the sum of [exp(lph)] over the risk
    set of the row: all rows whose duration is at least the row's own.  The
    series has one entry per observed row, labelled with the row's position
    in the input, and with [mean] set the result is the sum of the entries
    over their number. *)
Theorem partial_log_likelihood_ph_risk_set
    (np_exp : Q -> Q) (np_log : Q -> fnum)
    (sort : list PartialLikelihood.row -> list PartialLikelihood.row)
    (lphs durations : list Q) (events : list Z) (mean : bool) :
  (forall q, 0 <= np_exp q) ->
  PartialLikelihood.sorts_descending sort ->
  length durations = length events -> length events = length lphs ->
  let df := PartialLikelihood.rows_from 0 durations events lphs in
  let obs := filter (fun r => (PartialLikelihood.event r =? 1)%Z) (sort df) in
  exists cs,
    Forall2 (fun r c =>
               c == PartialLikelihood.risk_sum np_exp df
                      (PartialLikelihood.duration r)) obs cs
    /\ let pll :=
         map (fun rc => (PartialLikelihood.index (fst rc),
                         fsub (Fin (PartialLikelihood.lph (fst rc)))
                              (np_log (snd rc))))
             (combine obs cs) in
       PartialLikelihood.partial_log_likelihood_ph np_exp np_log sort
         lphs durations events mean
       = Return (if mean
                 then PartialLikelihood.Mean
                        (fdiv (np_sum (map snd pll)) (flen pll))
                 else PartialLikelihood.Series pll).
Proof.
  intros Pos Sorts L1 L2 df obs.
  destruct (Sorts df) as [Perm Sorted].
  eexists. split.
  2: { apply (PartialLikelihoodFacts.pll_of_sorted np_exp np_log sort
                lphs durations events mean L1 L2). }
  apply PartialLikelihoodFacts.forall2_with_map.
  intros x Hx. apply filter_In in Hx. destruct Hx as [Hx _].
  cbv beta.
  eapply Qeq_trans;
    [ apply (PartialLikelihoodFacts.group_max_is_risk_sum np_exp Pos _ x Sorted Hx)
    | apply PartialLikelihoodFacts.risk_sum_permutation; exact Perm ].
Qed.

Lemma partial_log_likelihood_ph_risk_set_witness :
  let df := PartialLikelihood.rows_from 0 [2; 1; 2] [1; 1; 0]%Z [1; 2; 3] in
  let obs := filter (fun r => (PartialLikelihood.event r =? 1)%Z)
                    (PartialLikelihood.insertion_sort_desc df) in
  exists cs,
    Forall2 (fun r c =>
               c == PartialLikelihood.risk_sum (fun q => q * q) df
                      (PartialLikelihood.duration r)) obs cs
    /\ let pll :=
         map (fun rc => (PartialLikelihood.index (fst rc),
                         fsub (Fin (PartialLikelihood.lph (fst rc)))
                              (ScoreExamples.log_stub (snd rc))))
             (combine obs cs) in
       PartialLikelihood.partial_log_likelihood_ph (fun q => q * q)
         ScoreExamples.log_stub PartialLikelihood.insertion_sort_desc
         [1; 2; 3] [2; 1; 2] [1; 1; 0]%Z false
       = Return (PartialLikelihood.Series pll).
Proof.
  apply (partial_log_likelihood_ph_risk_set (fun q => q * q)
           ScoreExamples.log_stub PartialLikelihood.insertion_sort_desc
           [1; 2; 3] [2; 1; 2] [1; 1; 0]%Z false).
  - intro q. nra.
  - exact PartialLikelihoodFacts.insertion_sort_desc_sorts.
  - reflexivity.
  - reflexivity.
Defined.

(** When no row has an observed event, [partial_log_likelihood_ph] returns
    an empty series, and with [mean] set the mean of nothing, which is not
    a number. *)
Theorem partial_log_likelihood_ph_no_events
    (np_exp : Q -> Q) (np_log : Q -> fnum)
    (sort : list PartialLikelihood.row -> list PartialLikelihood.row)
    (lphs durations : list Q) (events : list Z) :
  (forall l, Permutation (sort l) l) ->
  length durations = length events -> length events = length lphs ->
  Forall (fun e => e <> 1%Z) events ->
  PartialLikelihood.partial_log_likelihood_ph np_exp np_log sort
    lphs durations events false
  = Return (PartialLikelihood.Series [])
  /\ PartialLikelihood.partial_log_likelihood_ph np_exp np_log sort
       lphs durations events true
     = Return (PartialLikelihood.Mean NonFin).
Proof.
  intros Perm L1 L2 None.
  assert (E : filter (fun r => (PartialLikelihood.event r =? 1)%Z)
                (sort (PartialLikelihood.rows_from 0 durations events lphs)) = []).
  { destruct (filter _ _) as [| r l] eqn:F; auto.
    assert (Hr : In r (filter (fun r => (PartialLikelihood.event r =? 1)%Z)
                (sort (PartialLikelihood.rows_from 0 durations events lphs)))).
    { rewrite F. now left. }
    apply filter_In in Hr. destruct Hr as [Hr Ev].
    apply (Permutation_in _ (Perm _)) in Hr.
    apply PartialLikelihoodFacts.rows_from_event in Hr.
    rewrite Forall_forall in None. apply None in Hr.
    apply Z.eqb_eq in Ev. contradiction. }
  split.
  - rewrite (PartialLikelihoodFacts.pll_of_sorted np_exp np_log sort
               lphs durations events false L1 L2).
    cbv zeta. rewrite E. reflexivity.
  - rewrite (PartialLikelihoodFacts.pll_of_sorted np_exp np_log sort
               lphs durations events true L1 L2).
    cbv zeta. rewrite E. reflexivity.
Qed.

Lemma partial_log_likelihood_ph_no_events_witness :
  PartialLikelihood.partial_log_likelihood_ph (fun q => q * q)
    ScoreExamples.log_stub PartialLikelihood.insertion_sort_desc
    [1; 2; 3] [2; 1; 2] [0; 0; 0]%Z false
  = Return (PartialLikelihood.Series [])
  /\ PartialLikelihood.partial_log_likelihood_ph (fun q => q * q)
       ScoreExamples.log_stub PartialLikelihood.insertion_sort_desc
       [1; 2; 3] [2; 1; 2] [0; 0; 0]%Z true
     = Return (PartialLikelihood.Mean NonFin).
Proof.
  apply (partial_log_likelihood_ph_no_events (fun q => q * q)
           ScoreExamples.log_stub PartialLikelihood.insertion_sort_desc
           [1; 2; 3] [2; 1; 2] [0; 0; 0]%Z).
  - intro l. apply PartialLikelihoodFacts.insertion_sort_desc_sorts.
  - reflexivity.
  - reflexivity.
  - repeat constructor; discriminate.
Defined.

(** Columns of different lengths cannot make a frame: the call raises
    [ValueError]. *)
Theorem partial_log_likelihood_ph_length_mismatch
    (np_exp : Q -> Q) (np_log : Q -> fnum)
    (sort : list PartialLikelihood.row -> list PartialLikelihood.row)
    (lphs durations : list Q) (events : list Z) (mean : bool) :
  ~ (length durations = length events /\ length events = length lphs) ->
  PartialLikelihood.partial_log_likelihood_ph np_exp np_log sort
    lphs durations events mean
  = Raise ValueError.
Proof.
  intro Ne. unfold PartialLikelihood.partial_log_likelihood_ph,
    PartialLikelihood.data_frame.
  destruct (Nat.eqb_spec (length durations) (length events)) as [E1 | N1];
    [| reflexivity].
  destruct (Nat.eqb_spec (length events) (length lphs)) as [E2 | N2];
    [| reflexivity].
  exfalso. apply Ne. now split.
Qed.

Lemma partial_log_likelihood_ph_length_mismatch_witness :
  PartialLikelihood.partial_log_likelihood_ph (fun q => q * q)
    ScoreExamples.log_stub PartialLikelihood.insertion_sort_desc
    [1; 2; 3] [2; 1] [1; 1; 0]%Z true
  = Raise ValueError.
Proof.
  apply (partial_log_likelihood_ph_length_mismatch (fun q => q * q)
           ScoreExamples.log_stub PartialLikelihood.insertion_sort_desc
           [1; 2; 3] [2; 1] [1; 1; 0]%Z true).
  simpl. intros [H _]. discriminate H.
Defined.
